(** * c-mpsc: the multi-producer / single-consumer channel of [src/mpsc.c]

    A shallow embedding of the channel object and of its synchronisation
    protocol.  Every C function that runs under the channel mutex is a
    computation in a small state/log/abort monad over the [mpsc] record;
    a function that can sleep on a condition variable is cut at the
    [pthread_cond_wait] call into the part before the sleep and the part
    that runs when the wait returns.  The threads of one channel are put
    together in a transition system whose steps are those critical
    sections. *)

From Stdlib Require Import ZArith Bool List Lia Permutation.
From stdpp Require Import base tactics option numbers list.

Local Open Scope Z_scope.

(** ** Machine integers *)

(** [size_t] is a 64-bit unsigned integer and [ssize_t] its signed
    counterpart; arithmetic on [size_t] wraps around. *)
Definition SIZE_MAX : Z := 2 ^ 64 - 1.
Definition SSIZE_MAX : Z := 2 ^ 63 - 1.
Definition size_wrap (x : Z) : Z := x mod 2 ^ 64.
(** The conversion [(ssize_t)x] of a [size_t]. *)
Definition to_ssize (x : Z) : Z := if x <? 2 ^ 63 then x else x - 2 ^ 64.

Definition ENOMEM : Z := 12.
Definition EAGAIN : Z := 11.

(** ** Data model *)

(** [struct mpsc_producer_s]; the back pointer [mpsc] is implicit, the
    context pointer and the callback are opaque values. *)
Record mpsc_producer_t := MkProducer {
  application_context : Z;
  done : bool;
  callback : Z;
}.

Definition junk_producer : mpsc_producer_t := MkProducer 0 false 0.
#[global] Instance mpsc_producer_inhabited : Inhabited mpsc_producer_t :=
  populate junk_producer.

(** [struct mpsc_s] without its pthread objects and callbacks.  A producer
    handle [mpsc_producer_t *] is the index of the record in [producers].
    The arrays are lists; an access outside an array, undefined in C, is
    an update that changes nothing or a read of a default value, and the
    invariant of the channel ([chan_inv] below) keeps the indices used
    on a channel in use inside the arrays. *)
Record mpsc_t := MkMpsc {
  buffer_size : Z;
  n_max_producers : Z;
  buffer : list Z;
  n : Z;
  pending_message : bool;
  joined : bool;
  closed : bool;
  n_producers_closed : Z;
  error_handling_enabled : bool;
  create_and_join_thread_safety_disabled : bool;
  parent_thread_id : Z;
  n_producers_waiting : Z;
  next_waiting_producer_id : Z;
  producers : list mpsc_producer_t;
  producer_count : Z;
  producer_waiting_ids_queue : list Z;
}.

Definition set_buffer (v : list Z) (s : mpsc_t) : mpsc_t :=
  MkMpsc (buffer_size s) (n_max_producers s) v (n s) (pending_message s)
    (joined s) (closed s) (n_producers_closed s) (error_handling_enabled s)
    (create_and_join_thread_safety_disabled s) (parent_thread_id s)
    (n_producers_waiting s) (next_waiting_producer_id s) (producers s)
    (producer_count s) (producer_waiting_ids_queue s).
Definition set_n (v : Z) (s : mpsc_t) : mpsc_t :=
  MkMpsc (buffer_size s) (n_max_producers s) (buffer s) v (pending_message s)
    (joined s) (closed s) (n_producers_closed s) (error_handling_enabled s)
    (create_and_join_thread_safety_disabled s) (parent_thread_id s)
    (n_producers_waiting s) (next_waiting_producer_id s) (producers s)
    (producer_count s) (producer_waiting_ids_queue s).
Definition set_pending_message (v : bool) (s : mpsc_t) : mpsc_t :=
  MkMpsc (buffer_size s) (n_max_producers s) (buffer s) (n s) v
    (joined s) (closed s) (n_producers_closed s) (error_handling_enabled s)
    (create_and_join_thread_safety_disabled s) (parent_thread_id s)
    (n_producers_waiting s) (next_waiting_producer_id s) (producers s)
    (producer_count s) (producer_waiting_ids_queue s).
Definition set_joined (v : bool) (s : mpsc_t) : mpsc_t :=
  MkMpsc (buffer_size s) (n_max_producers s) (buffer s) (n s) (pending_message s)
    v (closed s) (n_producers_closed s) (error_handling_enabled s)
    (create_and_join_thread_safety_disabled s) (parent_thread_id s)
    (n_producers_waiting s) (next_waiting_producer_id s) (producers s)
    (producer_count s) (producer_waiting_ids_queue s).
Definition set_closed (v : bool) (s : mpsc_t) : mpsc_t :=
  MkMpsc (buffer_size s) (n_max_producers s) (buffer s) (n s) (pending_message s)
    (joined s) v (n_producers_closed s) (error_handling_enabled s)
    (create_and_join_thread_safety_disabled s) (parent_thread_id s)
    (n_producers_waiting s) (next_waiting_producer_id s) (producers s)
    (producer_count s) (producer_waiting_ids_queue s).
Definition set_n_producers_closed (v : Z) (s : mpsc_t) : mpsc_t :=
  MkMpsc (buffer_size s) (n_max_producers s) (buffer s) (n s) (pending_message s)
    (joined s) (closed s) v (error_handling_enabled s)
    (create_and_join_thread_safety_disabled s) (parent_thread_id s)
    (n_producers_waiting s) (next_waiting_producer_id s) (producers s)
    (producer_count s) (producer_waiting_ids_queue s).
Definition set_error_handling_enabled (v : bool) (s : mpsc_t) : mpsc_t :=
  MkMpsc (buffer_size s) (n_max_producers s) (buffer s) (n s) (pending_message s)
    (joined s) (closed s) (n_producers_closed s) v
    (create_and_join_thread_safety_disabled s) (parent_thread_id s)
    (n_producers_waiting s) (next_waiting_producer_id s) (producers s)
    (producer_count s) (producer_waiting_ids_queue s).
Definition set_n_producers_waiting (v : Z) (s : mpsc_t) : mpsc_t :=
  MkMpsc (buffer_size s) (n_max_producers s) (buffer s) (n s) (pending_message s)
    (joined s) (closed s) (n_producers_closed s) (error_handling_enabled s)
    (create_and_join_thread_safety_disabled s) (parent_thread_id s)
    v (next_waiting_producer_id s) (producers s)
    (producer_count s) (producer_waiting_ids_queue s).
Definition set_next_waiting_producer_id (v : Z) (s : mpsc_t) : mpsc_t :=
  MkMpsc (buffer_size s) (n_max_producers s) (buffer s) (n s) (pending_message s)
    (joined s) (closed s) (n_producers_closed s) (error_handling_enabled s)
    (create_and_join_thread_safety_disabled s) (parent_thread_id s)
    (n_producers_waiting s) v (producers s)
    (producer_count s) (producer_waiting_ids_queue s).
Definition set_producers (v : list mpsc_producer_t) (s : mpsc_t) : mpsc_t :=
  MkMpsc (buffer_size s) (n_max_producers s) (buffer s) (n s) (pending_message s)
    (joined s) (closed s) (n_producers_closed s) (error_handling_enabled s)
    (create_and_join_thread_safety_disabled s) (parent_thread_id s)
    (n_producers_waiting s) (next_waiting_producer_id s) v
    (producer_count s) (producer_waiting_ids_queue s).
Definition set_producer_count (v : Z) (s : mpsc_t) : mpsc_t :=
  MkMpsc (buffer_size s) (n_max_producers s) (buffer s) (n s) (pending_message s)
    (joined s) (closed s) (n_producers_closed s) (error_handling_enabled s)
    (create_and_join_thread_safety_disabled s) (parent_thread_id s)
    (n_producers_waiting s) (next_waiting_producer_id s) (producers s)
    v (producer_waiting_ids_queue s).
Definition set_producer_waiting_ids_queue (v : list Z) (s : mpsc_t) : mpsc_t :=
  MkMpsc (buffer_size s) (n_max_producers s) (buffer s) (n s) (pending_message s)
    (joined s) (closed s) (n_producers_closed s) (error_handling_enabled s)
    (create_and_join_thread_safety_disabled s) (parent_thread_id s)
    (n_producers_waiting s) (next_waiting_producer_id s) (producers s)
    (producer_count s) v.

(** [typedef enum ... mpsc_register_producer_error_t]. *)
Inductive mpsc_register_producer_error_t :=
| MPSC_REGISTER_PRODUCER_ERROR_NONE
| MPSC_REGISTER_PRODUCER_ERROR_CLOSED
| MPSC_REGISTER_PRODUCER_ERROR_N_MAX_PRODUCERS_REACHED
| MPSC_REGISTER_PRODUCER_ERROR_EAGAIN.

(** ** Observable behaviour *)

Inductive cond_var :=
| MainCondVar
| ProducerCondVar (id : Z).

(** What the library obtains from the system and has to give back: the
    blocks it allocates, the synchronisation objects it initialises and
    the threads it starts. *)
Inductive resource :=
| ResSelf
| ResBuffer
| ResProducerThreadIds
| ResProducers
| ResProducerConditionVariables
| ResProducerWaitingIdsQueue
| ResCond (cv : cond_var)
| ResMutex
| ResConsumerThread
| ResProducerThread (id : Z)
| ResDelivery.

(** The value of a pointer member: null, a block obtained from [malloc],
    or whatever bits uninitialised memory holds. *)
Inductive pointer :=
| PtrNull
| PtrBlock (r : resource)
| PtrWild (address : Z).

(** What a critical section does besides updating the record.  [EvWait]
    is the call of [pthread_cond_wait], which gives the mutex up; [EvWake]
    is its return, with the mutex held again.  [EvEnqueue], [EvDequeue]
    and [EvElect] mark the statements that write the wait queue and
    [next_waiting_producer_id]; [EvErrno] is a store to [errno]. *)
Inductive event :=
| EvLock
| EvUnlock
| EvSignal (cv : cond_var)
| EvWait (cv : cond_var)
| EvWake (cv : cond_var)
| EvAcquire (r : resource)
| EvRelease (r : resource)
| EvFreeWild (address : Z)
| EvErrno (code : Z)
| EvEnqueue (id : Z)
| EvDequeue (id : Z)
| EvElect (id : Z)
| EvConsumerCallback (data : option (list Z)) (len : Z) (is_closed : bool)
| EvConsumerErrorCallback.

(** Whether the channel mutex is held after a sequence of events, given
    whether it was held before. *)
Definition lock_after (held : bool) (e : event) : bool :=
  match e with
  | EvLock | EvWake _ => true
  | EvUnlock | EvWait _ => false
  | _ => held
  end.
Definition lock_held (evs : list event) : bool := foldl lock_after false evs.

(** The places where the code prints a diagnostic and calls [abort], and
    the dereference of a null pointer, which stops the process as well. *)
Inductive fatal :=
| FatalSendTooLarge
| FatalProducerNotFound
| FatalWaitQueueFull
| FatalWaitQueueEmpty
| FatalJoinWrongThread
| FatalJoinTwice
| FatalJoinNoProducer
| FatalMalloc
| FatalThreadCreate (code : Z)
| FatalCondInit (code : Z)
| FatalMutexInit (code : Z)
| FatalErrno (code : Z)
| FatalParams
| CrashNullDereference.

(** ** The monad of critical sections *)

Inductive outcome (S A : Type) :=
| Ret (a : A) (s : S) (evs : list event)
| Abort (f : fatal).
Arguments Ret {S A} a s evs.
Arguments Abort {S A} f.

Definition M (S A : Type) : Type := S → outcome S A.

#[global] Instance M_ret {S} : MRet (M S) := λ A a s, Ret a s [].
#[global] Instance M_bind {S} : MBind (M S) := λ A B k m s,
  match m s with
  | Ret a s1 e1 =>
      match k a s1 with
      | Ret b s2 e2 => Ret b s2 (e1 ++ e2)
      | Abort f => Abort f
      end
  | Abort f => Abort f
  end.
Definition get {S} : M S S := λ s, Ret s s [].
Definition modify {S} (f : S → S) : M S unit := λ s, Ret tt (f s) [].
Definition emit {S} (e : event) : M S unit := λ s, Ret tt s [e].
Definition abort {S A} (f : fatal) : M S A := λ _, Abort f.

(** A [for (size_t i = 0; i < count; i++)] loop without [break]. *)
Definition for_each {S} (count : Z) (body : Z → M S unit) : M S unit :=
  foldr (λ i k, body i ;; k) (mret tt) (seqZ 0 count).

(** ** The pthread and libc wrappers *)

(** [pthread_mutex_lock], [pthread_mutex_unlock], [pthread_cond_signal]
    and [pthread_cond_wait] fail only on an invalid object; on the objects
    of a created channel they return 0, so the wrappers' abort branches
    are left out. *)
Definition my_mutex_set_lock_state {S} (state : bool) : M S unit :=
  emit (if state then EvLock else EvUnlock).
Definition my_condition_variable_signal {S} (cv : cond_var) : M S unit :=
  emit (EvSignal cv).

(** How a state records a store to the thread's [errno]. *)
Class Errno (S : Type) := store_errno : Z → M S unit.

(** A channel operation only leaves the store in its log. *)
#[global] Instance mpsc_errno : Errno mpsc_t := λ code, emit (EvErrno code).

(** [my_thread_create] for the thread [thread], where [reason_code] is
    what [pthread_create] returns. *)
Definition my_thread_create {S} `{!Errno S} (thread : resource)
    (reason_code : Z) (handle_errors : bool) : M S bool :=
  if reason_code =? 0 then emit (EvAcquire thread) ;; mret true
  else if handle_errors && (reason_code =? EAGAIN)
       then store_errno reason_code ;; mret false
       else abort (FatalThreadCreate reason_code).

(** What a call of [malloc] does: it returns a block, or it returns NULL
    and leaves [errno_after] in [errno]. *)
Inductive malloc_result :=
| MallocOk
| MallocNull (errno_after : Z).

(** A failed [malloc] as POSIX specifies it. *)
Definition malloc_out_of_memory : malloc_result := MallocNull ENOMEM.

(** [my_malloc] for the block [block]: [true] stands for a non-null
    pointer.  The failed [malloc] has stored its [errno_after]. *)
Definition my_malloc {S} `{!Errno S} (block : resource) (heap : malloc_result)
    (handle_errors : bool) : M S bool :=
  match heap with
  | MallocOk => emit (EvAcquire block) ;; mret true
  | MallocNull e =>
      store_errno e ;;
      if handle_errors && (e =? ENOMEM) then mret false
      else abort FatalMalloc
  end.

(** [memcpy(dst, src, len)] on the first [len] bytes of [dst]. *)
Definition memcpy (dst src : list Z) (len : Z) : list Z :=
  take (Z.to_nat len) src ++ drop (Z.to_nat len) dst.

(** ** Channel operations *)

Definition mpsc_register_producer (callback context : Z)
    (pthread_create_code : Z) : M mpsc_t mpsc_register_producer_error_t :=
  my_mutex_set_lock_state true ;;
  self ← get;
  if n_max_producers self =? producer_count self then
    my_mutex_set_lock_state false ;;
    mret MPSC_REGISTER_PRODUCER_ERROR_N_MAX_PRODUCERS_REACHED
  else if closed self then
    my_mutex_set_lock_state false ;;
    mret MPSC_REGISTER_PRODUCER_ERROR_CLOSED
  else
    let i := producer_count self in
    modify (λ s, set_producers
      (<[Z.to_nat i := MkProducer context false callback]> (producers s)) s) ;;
    ok ← my_thread_create (ResProducerThread i) pthread_create_code
           (error_handling_enabled self);
    if negb ok then
      my_mutex_set_lock_state false ;;
      mret MPSC_REGISTER_PRODUCER_ERROR_EAGAIN
    else
      modify (λ s, set_producer_count (size_wrap (producer_count s + 1)) s) ;;
      my_mutex_set_lock_state false ;;
      mret MPSC_REGISTER_PRODUCER_ERROR_NONE.

Definition mpsc_consumer_register_producer :=
  mpsc_register_producer.
Definition mpsc_producer_register_producer :=
  mpsc_register_producer.

(** [mpsc_join] up to the call that waits for the consumer thread. *)
Definition mpsc_join (current_thread_id : Z) : M mpsc_t unit :=
  my_mutex_set_lock_state true ;;
  self ← get;
  (if negb (create_and_join_thread_safety_disabled self) then
     if negb (current_thread_id =? parent_thread_id self)
     then abort FatalJoinWrongThread else mret tt
   else mret tt) ;;
  (if joined self then abort FatalJoinTwice else mret tt) ;;
  modify (set_joined true) ;;
  (if producer_count self =? 0 then abort FatalJoinNoProducer else mret tt) ;;
  (if producer_count self =? n_producers_closed self then
     modify (set_closed true) ;;
     my_condition_variable_signal MainCondVar
   else mret tt) ;;
  my_mutex_set_lock_state false.

(** [mpsc_join] once the consumer thread has been joined; what follows
    (joining the producer threads, [mpsc_destroy]) ends the channel. *)
Definition mpsc_join_resume : M mpsc_t unit :=
  my_mutex_set_lock_state true ;;
  modify (set_closed true) ;;
  my_mutex_set_lock_state false.

Definition mpsc_consumer_close : M mpsc_t unit :=
  my_mutex_set_lock_state true ;;
  modify (set_closed true) ;;
  my_condition_variable_signal MainCondVar ;;
  mpsc ← get;
  for_each (n_producers_waiting mpsc) (λ i,
    let index := producer_waiting_ids_queue mpsc !!! Z.to_nat i in
    my_condition_variable_signal (ProducerCondVar index)) ;;
  my_mutex_set_lock_state false.

Definition mpsc_producer_ping : M mpsc_t bool :=
  my_mutex_set_lock_state true ;;
  mpsc ← get;
  let ok := if closed mpsc then false else true in
  my_mutex_set_lock_state false ;;
  mret ok.

(** The search loop finds the index [i] with [&producers[i] == self]. *)
Definition mpsc_producer_subscribe_to_wait_queue (self : Z) : M mpsc_t Z :=
  mpsc ← get;
  let index :=
    match find (λ i, i =? self) (seqZ 0 (n_max_producers mpsc)) with
    | Some i => to_ssize i
    | None => -1
    end in
  if index =? -1 then abort FatalProducerNotFound else
  let id := size_wrap index in
  if n_producers_waiting mpsc =? n_max_producers mpsc
  then abort FatalWaitQueueFull else
  modify (λ s, set_producer_waiting_ids_queue
    (<[Z.to_nat (n_producers_waiting s) := id]> (producer_waiting_ids_queue s)) s) ;;
  emit (EvEnqueue id) ;;
  modify (λ s, set_n_producers_waiting (size_wrap (n_producers_waiting s + 1)) s) ;;
  mret id.

Definition mpsc_shift_producer_wait_queue : M mpsc_t unit :=
  self ← get;
  if n_producers_waiting self =? 0 then abort FatalWaitQueueEmpty else
  emit (EvDequeue (producer_waiting_ids_queue self !!! 0%nat)) ;;
  for_each (size_wrap (n_producers_waiting self - 1)) (λ i,
    modify (λ s, set_producer_waiting_ids_queue
      (<[Z.to_nat i := producer_waiting_ids_queue s !!! Z.to_nat (i + 1)]>
         (producer_waiting_ids_queue s)) s)) ;;
  modify (λ s, set_n_producers_waiting (size_wrap (n_producers_waiting s - 1)) s) ;;
  modify (set_next_waiting_producer_id (-1)).

(** How a part of [mpsc_producer_send] ends: the call returns, or the
    thread sleeps on its own condition variable. *)
Inductive send_status :=
| SendReturned (accepted : bool)
| SendWaiting (id : Z).

(** The end of [mpsc_producer_send], from [if (n > 0)] on. *)
Definition send_deposit (data : list Z) (len : Z) : M mpsc_t send_status :=
  (if 0 <? len
   then modify (λ s, set_buffer (memcpy (buffer s) data len) s)
   else mret tt) ;;
  modify (set_n len) ;;
  modify (set_pending_message true) ;;
  my_condition_variable_signal MainCondVar ;;
  my_mutex_set_lock_state false ;;
  mret (SendReturned true).

(** The [while] loop on the producer's condition variable, from the test
    of its condition, and what follows it. *)
Definition send_wait_loop (id : Z) (data : list Z) (len : Z)
    : M mpsc_t send_status :=
  mpsc ← get;
  if negb (closed mpsc)
     && negb (next_waiting_producer_id mpsc =? to_ssize id)
  then emit (EvWait (ProducerCondVar id)) ;; mret (SendWaiting id)
  else if closed mpsc then
    my_mutex_set_lock_state false ;;
    mret (SendReturned false)
  else
    mpsc_shift_producer_wait_queue ;;
    send_deposit data len.

(** [mpsc_producer_send] from its entry to its return or first sleep. *)
Definition mpsc_producer_send (self : Z) (data : list Z) (len : Z)
    : M mpsc_t send_status :=
  my_mutex_set_lock_state true ;;
  mpsc ← get;
  if buffer_size mpsc <? len then abort FatalSendTooLarge else
  if closed mpsc then
    my_mutex_set_lock_state false ;;
    mret (SendReturned false)
  else if pending_message mpsc
          || negb (next_waiting_producer_id mpsc =? -1)
  then
    id ← mpsc_producer_subscribe_to_wait_queue self;
    send_wait_loop id data len
  else send_deposit data len.

(** [mpsc_producer_send] from the return of [my_condition_variable_wait]. *)
Definition mpsc_producer_send_resume (id : Z) (data : list Z) (len : Z)
    : M mpsc_t send_status :=
  emit (EvWake (ProducerCondVar id)) ;;
  send_wait_loop id data len.


(** [mpsc_producer_context] reads the producer's record without taking
    the mutex. *)
Definition mpsc_producer_context (self : Z) (c : mpsc_t) : Z :=
  application_context (producers c !!! Z.to_nat self).

Definition set_done (v : bool) (p : mpsc_producer_t) : mpsc_producer_t :=
  MkProducer (application_context p) v (callback p).

Definition mpsc_producer_done (self : Z) : M mpsc_t unit :=
  my_mutex_set_lock_state true ;;
  mpsc ← get;
  (if negb (done (producers mpsc !!! Z.to_nat self)) then
     modify (λ s, set_producers
       (<[Z.to_nat self := set_done true (producers s !!! Z.to_nat self)]>
          (producers s)) s) ;;
     modify (λ s, set_n_producers_closed (size_wrap (n_producers_closed s + 1)) s) ;;
     mpsc ← get;
     if (n_producers_closed mpsc =? producer_count mpsc) && joined mpsc then
       modify (set_closed true) ;;
       my_condition_variable_signal MainCondVar
     else mret tt
   else mret tt) ;;
  my_mutex_set_lock_state false.

(** How a pass of the consumer loop ends: the thread sleeps on the main
    condition variable, goes round the loop again, or returns. *)
Inductive consumer_status :=
| ConsumerWaiting
| ConsumerContinue
| ConsumerReturned.

(** The loop body from [mpsc->n = 0] after the copy to the callback. *)
Definition consumer_deliver (data : option (list Z)) (len : Z)
    : M mpsc_t consumer_status :=
  modify (set_n 0) ;;
  modify (set_pending_message false) ;;
  mpsc ← get;
  (if (0 <? n_producers_waiting mpsc) && negb (closed mpsc) then
     let id := producer_waiting_ids_queue mpsc !!! 0%nat in
     modify (set_next_waiting_producer_id (to_ssize id)) ;;
     emit (EvElect id) ;;
     my_condition_variable_signal (ProducerCondVar id)
   else mret tt) ;;
  my_mutex_set_lock_state false ;;
  emit (EvConsumerCallback data len false) ;;
  mret ConsumerContinue.

(** The loop body from the test of the inner [while] on; when the loop
    is left, the closing callback is made and the thread returns. *)
Definition consumer_loop_body (heap : malloc_result)
    : M mpsc_t consumer_status :=
  mpsc ← get;
  if negb (pending_message mpsc) && negb (closed mpsc) then
    emit (EvWait MainCondVar) ;; mret ConsumerWaiting
  else if closed mpsc && negb (pending_message mpsc) then
    my_mutex_set_lock_state false ;;
    emit (EvConsumerCallback None 0 true) ;;
    mret ConsumerReturned
  else
    let len := n mpsc in
    if 0 <? len then
      ok ← my_malloc ResDelivery heap (error_handling_enabled mpsc);
      if negb ok then
        modify (set_n 0) ;;
        modify (set_pending_message false) ;;
        my_mutex_set_lock_state false ;;
        emit EvConsumerErrorCallback ;;
        mret ConsumerContinue
      else
        consumer_deliver (Some (take (Z.to_nat len) (buffer mpsc))) len
    else consumer_deliver None len.

(** A pass of the loop of [my_consumer_thread_callback] from its top;
    [heap] is what the call of [malloc] in this pass does, if made. *)
Definition my_consumer_thread_callback (heap : malloc_result)
    : M mpsc_t consumer_status :=
  my_mutex_set_lock_state true ;;
  consumer_loop_body heap.

(** The same from the return of [my_condition_variable_wait]. *)
Definition my_consumer_thread_callback_resume (heap : malloc_result)
    : M mpsc_t consumer_status :=
  emit (EvWake MainCondVar) ;;
  consumer_loop_body heap.

(** ** Construction: [mpsc_create] and its failure handler *)

(** [mpsc_create_params_t]; a callback is the address of the function,
    0 for NULL. *)
Record mpsc_create_params_t := MkParams {
  param_buffer_size : Z;
  param_n_max_producers : Z;
  param_consumer_callback : Z;
  param_consumer_error_callback : Z;
  param_error_handling_enabled : bool;
  param_create_and_join_thread_safety_disabled : bool;
}.

(** What the system does during one call of [mpsc_create]: the result of
    each [malloc], the return code of each pthread call, the calling
    thread, and the bits found in the blocks that [malloc] returns, which
    it does not clear. *)
Record create_env := MkEnv {
  env_malloc : resource → malloc_result;
  env_cond_init : cond_var → Z;
  env_mutex_init : Z;
  env_thread_create : Z;
  env_pthread_self : Z;
  env_fresh_pointer : resource → pointer;
  env_fresh_n_max_producers : Z;
  env_fresh_buffer : Z → Z;
  env_fresh_producers : Z → mpsc_producer_t;
  env_fresh_queue : Z → Z;
}.

(** The state of a construction: the thread's [errno], the local [self]
    and the members of [*self] that the failure handler reads. *)
Record creation := MkCreation {
  errno : Z;
  self_pointer : pointer;
  self_buffer : pointer;
  self_producer_thread_ids : pointer;
  self_producers : pointer;
  self_producer_condition_variables : pointer;
  self_producer_waiting_ids_queue : pointer;
  self_n_max_producers : Z;
}.

Definition set_errno (v : Z) (c : creation) : creation :=
  MkCreation v (self_pointer c) (self_buffer c) (self_producer_thread_ids c)
    (self_producers c) (self_producer_condition_variables c)
    (self_producer_waiting_ids_queue c) (self_n_max_producers c).
Definition set_self_buffer (v : pointer) (c : creation) : creation :=
  MkCreation (errno c) (self_pointer c) v (self_producer_thread_ids c)
    (self_producers c) (self_producer_condition_variables c)
    (self_producer_waiting_ids_queue c) (self_n_max_producers c).
Definition set_self_producer_thread_ids (v : pointer) (c : creation) : creation :=
  MkCreation (errno c) (self_pointer c) (self_buffer c) v
    (self_producers c) (self_producer_condition_variables c)
    (self_producer_waiting_ids_queue c) (self_n_max_producers c).
Definition set_self_producers (v : pointer) (c : creation) : creation :=
  MkCreation (errno c) (self_pointer c) (self_buffer c) (self_producer_thread_ids c)
    v (self_producer_condition_variables c)
    (self_producer_waiting_ids_queue c) (self_n_max_producers c).
Definition set_self_producer_condition_variables (v : pointer) (c : creation)
    : creation :=
  MkCreation (errno c) (self_pointer c) (self_buffer c) (self_producer_thread_ids c)
    (self_producers c) v
    (self_producer_waiting_ids_queue c) (self_n_max_producers c).
Definition set_self_producer_waiting_ids_queue (v : pointer) (c : creation)
    : creation :=
  MkCreation (errno c) (self_pointer c) (self_buffer c) (self_producer_thread_ids c)
    (self_producers c) (self_producer_condition_variables c)
    v (self_n_max_producers c).
Definition set_self_n_max_producers (v : Z) (c : creation) : creation :=
  MkCreation (errno c) (self_pointer c) (self_buffer c) (self_producer_thread_ids c)
    (self_producers c) (self_producer_condition_variables c)
    (self_producer_waiting_ids_queue c) v.

(** During a construction the store to [errno] is kept, since the
    failure handler reads it back. *)
#[global] Instance creation_errno : Errno creation :=
  λ code, modify (set_errno code) ;; emit (EvErrno code).

(** The state at the entry of [mpsc_create]; no member exists yet. *)
Definition creation_entry (entry_errno : Z) : creation :=
  MkCreation entry_errno PtrNull PtrNull PtrNull PtrNull PtrNull PtrNull 0.

(** [self = my_malloc(sizeof(mpsc_t), ...)] has returned a block: its
    members hold what the block held. *)
Definition fresh_self (env : create_env) (c : creation) : creation :=
  MkCreation (errno c) (PtrBlock ResSelf)
    (env_fresh_pointer env ResBuffer)
    (env_fresh_pointer env ResProducerThreadIds)
    (env_fresh_pointer env ResProducers)
    (env_fresh_pointer env ResProducerConditionVariables)
    (env_fresh_pointer env ResProducerWaitingIdsQueue)
    (env_fresh_n_max_producers env).

Definition is_null (p : pointer) : bool :=
  match p with PtrNull => true | _ => false end.

(** The pointer that [my_malloc] returns for [block]. *)
Definition malloc_pointer (block : resource) (ok : bool) : pointer :=
  if ok then PtrBlock block else PtrNull.

(** [my_condition_variable_init] and [my_mutex_init], where [reason_code]
    is what the pthread call returns. *)
Definition my_condition_variable_init {S} `{!Errno S} (cv : cond_var)
    (reason_code : Z) (handle_errors : bool) : M S bool :=
  if reason_code =? 0 then emit (EvAcquire (ResCond cv)) ;; mret true
  else if handle_errors
          && ((reason_code =? ENOMEM) || (reason_code =? EAGAIN))
       then store_errno reason_code ;; mret false
       else abort (FatalCondInit reason_code).

Definition my_mutex_init {S} `{!Errno S} (reason_code : Z)
    (handle_errors : bool) : M S bool :=
  if reason_code =? 0 then emit (EvAcquire ResMutex) ;; mret true
  else if handle_errors && (reason_code =? ENOMEM)
       then store_errno reason_code ;; mret false
       else abort (FatalMutexInit reason_code).

(** [pthread_mutex_destroy] and [pthread_cond_destroy] return 0 on an
    initialised object that nobody uses. *)
Definition my_mutex_destroy {S} : M S unit := emit (EvRelease ResMutex).
Definition my_condition_variable_destroy {S} (cv : cond_var) : M S unit :=
  emit (EvRelease (ResCond cv)).

Definition my_free {S} (p : pointer) : M S unit :=
  match p with
  | PtrNull => mret tt
  | PtrBlock r => emit (EvRelease r)
  | PtrWild a => emit (EvFreeWild a)
  end.

Inductive mpsc_handle_creation_failure_type_t :=
| MPSC_HANDLE_CREATION_FAILURE_NONE
| MPSC_HANDLE_CREATION_FAILURE_COND_VAR_INIT
| MPSC_HANDLE_CREATION_FAILURE_MUTEX_INIT
| MPSC_HANDLE_CREATION_FAILURE_THREAD_CREATE.

(** [if (p != NULL) my_free(p)]. *)
Definition free_unless_null (p : pointer) : M creation unit :=
  if negb (is_null p) then my_free p else mret tt.

(** The first read of a member of [*self], at
    [self->producer_condition_variables], needs [self] not to be null. *)
Definition mpsc_handle_creation_failure
    (type : mpsc_handle_creation_failure_type_t)
    (producer_cond_var_index : Z) : M creation (option mpsc_t) :=
  c ← get;
  custom_errno ←
    (if errno c =? ENOMEM then mret ENOMEM
     else if errno c =? EAGAIN then mret EAGAIN
     else abort (FatalErrno (errno c)));
  match type with
  | MPSC_HANDLE_CREATION_FAILURE_THREAD_CREATE =>
      my_mutex_destroy ;;
      my_condition_variable_destroy MainCondVar ;;
      for_each (self_n_max_producers c) (λ i,
        my_condition_variable_destroy (ProducerCondVar i))
  | MPSC_HANDLE_CREATION_FAILURE_MUTEX_INIT =>
      my_condition_variable_destroy MainCondVar ;;
      for_each (self_n_max_producers c) (λ i,
        my_condition_variable_destroy (ProducerCondVar i))
  | MPSC_HANDLE_CREATION_FAILURE_COND_VAR_INIT =>
      if negb (producer_cond_var_index =? -1) then
        my_condition_variable_destroy MainCondVar ;;
        for_each (size_wrap producer_cond_var_index) (λ i,
          my_condition_variable_destroy (ProducerCondVar i))
      else mret tt
  | MPSC_HANDLE_CREATION_FAILURE_NONE => mret tt
  end ;;
  (if is_null (self_pointer c) then abort CrashNullDereference else mret tt) ;;
  free_unless_null (self_producer_condition_variables c) ;;
  free_unless_null (self_producer_waiting_ids_queue c) ;;
  free_unless_null (self_producers c) ;;
  free_unless_null (self_producer_thread_ids c) ;;
  free_unless_null (self_buffer c) ;;
  free_unless_null (self_pointer c) ;;
  store_errno custom_errno ;;
  mret None.

Definition mpsc_create_params_validate (params : mpsc_create_params_t)
    : M creation unit :=
  if param_consumer_callback params =? 0 then abort FatalParams
  else if param_error_handling_enabled params
          && (param_consumer_error_callback params =? 0)
       then abort FatalParams
  else if param_n_max_producers params =? 0 then abort FatalParams
  else mret tt.

(** The loop that initialises the producers' condition variables; it
    leaves [mpsc_create] through the failure handler at the first one
    that cannot be initialised, and goes on with [rest] otherwise. *)
Fixpoint init_producer_condition_variables (env : create_env)
    (handle_errors : bool) (indices : list Z)
    (rest : M creation (option mpsc_t)) : M creation (option mpsc_t) :=
  match indices with
  | [] => rest
  | i :: indices' =>
      ok ← my_condition_variable_init (ProducerCondVar i)
             (env_cond_init env (ProducerCondVar i)) handle_errors;
      if negb ok then
        mpsc_handle_creation_failure
          MPSC_HANDLE_CREATION_FAILURE_COND_VAR_INIT (to_ssize i)
      else init_producer_condition_variables env handle_errors indices' rest
  end.

(** The channel that a successful [mpsc_create] returns. *)
Definition created_channel (params : mpsc_create_params_t) (env : create_env)
    : mpsc_t :=
  {| buffer_size := param_buffer_size params;
     n_max_producers := param_n_max_producers params;
     buffer := env_fresh_buffer env <$> seqZ 0 (param_buffer_size params);
     n := 0;
     pending_message := false;
     joined := false;
     closed := false;
     n_producers_closed := 0;
     error_handling_enabled := param_error_handling_enabled params;
     create_and_join_thread_safety_disabled :=
       param_create_and_join_thread_safety_disabled params;
     parent_thread_id := env_pthread_self env;
     n_producers_waiting := 0;
     next_waiting_producer_id := -1;
     producers := env_fresh_producers env <$> seqZ 0 (param_n_max_producers params);
     producer_count := 0;
     producer_waiting_ids_queue :=
       env_fresh_queue env <$> seqZ 0 (param_n_max_producers params) |}.

(** [x = my_malloc(...); if (x == NULL) return handler(NONE, -1);]
    followed by [rest]. *)
Definition allocate (env : create_env) (handle_errors : bool)
    (block : resource) (store : pointer → creation → creation)
    (rest : M creation (option mpsc_t)) : M creation (option mpsc_t) :=
  ok ← my_malloc block (env_malloc env block) handle_errors;
  modify (store (malloc_pointer block ok)) ;;
  if negb ok then
    mpsc_handle_creation_failure MPSC_HANDLE_CREATION_FAILURE_NONE (-1)
  else rest.

(** The end of [mpsc_create], from the three kinds of calls whose order
    [mpsc_handle_creation_failure] relies on. *)
Definition create_primitives (params : mpsc_create_params_t) (env : create_env)
    : M creation (option mpsc_t) :=
  let handle_errors := param_error_handling_enabled params in
  ok ← my_condition_variable_init MainCondVar
         (env_cond_init env MainCondVar) handle_errors;
  if negb ok then
    mpsc_handle_creation_failure MPSC_HANDLE_CREATION_FAILURE_COND_VAR_INIT (-1)
  else
  init_producer_condition_variables env handle_errors
    (seqZ 0 (param_n_max_producers params)) (
  ok ← my_mutex_init (env_mutex_init env) handle_errors;
  if negb ok then
    mpsc_handle_creation_failure MPSC_HANDLE_CREATION_FAILURE_MUTEX_INIT (-1)
  else
  ok ← my_thread_create ResConsumerThread (env_thread_create env) handle_errors;
  if negb ok then
    mpsc_handle_creation_failure MPSC_HANDLE_CREATION_FAILURE_THREAD_CREATE (-1)
  else mret (Some (created_channel params env))).

Definition mpsc_create (params : mpsc_create_params_t) (env : create_env)
    : M creation (option mpsc_t) :=
  let handle_errors := param_error_handling_enabled params in
  mpsc_create_params_validate params ;;
  ok ← my_malloc ResSelf (env_malloc env ResSelf) handle_errors;
  if negb ok then
    mpsc_handle_creation_failure MPSC_HANDLE_CREATION_FAILURE_NONE (-1)
  else
  modify (fresh_self env) ;;
  modify (set_self_n_max_producers (param_n_max_producers params)) ;;
  allocate env handle_errors ResBuffer set_self_buffer (
  allocate env handle_errors ResProducerThreadIds set_self_producer_thread_ids (
  allocate env handle_errors ResProducers set_self_producers (
  allocate env handle_errors ResProducerConditionVariables
    set_self_producer_condition_variables (
  allocate env handle_errors ResProducerWaitingIdsQueue
    set_self_producer_waiting_ids_queue (
  create_primitives params env))))).

(** ** Teardown: the end of [mpsc_join] and [mpsc_destroy] *)




(** ** The threads of a channel *)

Inductive thread :=
| MainThread
| ConsumerThread
| ProducerThread (id : Z).

(** Where the application thread that created the channel stands. *)
Inductive main_status :=
| MainRunning
| MainJoining
| MainJoined.

(** Where the consumer thread stands: at the top of its loop, asleep on
    the main condition variable, inside the application's callback (the
    closing one when [final]), or returned. *)
Inductive consumer_thread_status :=
| ConsumerAtLoop
| ConsumerAsleep
| ConsumerInCallback (final : bool)
| ConsumerExited.

(** Where a producer thread stands: inside the application's callback,
    asleep in [mpsc_producer_send] with the locals [id], [data] and [n]
    of that call, or returned. *)
Inductive producer_thread_status :=
| ProducerRunning
| ProducerAsleep (id : Z) (data : list Z) (len : Z)
| ProducerExited.

Record system := MkSystem {
  chan : mpsc_t;
  main_thread : main_status;
  consumer_thread : consumer_thread_status;
  producer_threads : list producer_thread_status;
}.

(** One critical section of one thread, with what the system answers to
    the calls it makes. *)
Inductive action :=
| ActRegister (caller : thread) (callback context : Z) (pthread_create_code : Z)
| ActJoin (current_thread_id : Z)
| ActJoinResume
| ActConsumerPass (heap : malloc_result)
| ActConsumerWake (heap : malloc_result)
| ActConsumerCallbackReturn
| ActConsumerClose
| ActSend (id : Z) (data : list Z) (len : Z)
| ActSendWake (id : Z)
| ActPing (id : Z)
| ActProducerReturn (id : Z).

Definition actor (a : action) : thread :=
  match a with
  | ActRegister caller _ _ _ => caller
  | ActJoin _ | ActJoinResume => MainThread
  | ActConsumerPass _ | ActConsumerWake _
  | ActConsumerCallbackReturn | ActConsumerClose => ConsumerThread
  | ActSend id _ _ | ActSendWake id | ActPing id | ActProducerReturn id =>
      ProducerThread id
  end.

Definition producer_status (s : system) (id : Z) : option producer_thread_status :=
  if 0 <=? id then producer_threads s !! Z.to_nat id else None.

Definition set_producer_status (id : Z) (st : producer_thread_status)
    (s : system) : system :=
  MkSystem (chan s) (main_thread s) (consumer_thread s)
    (<[Z.to_nat id := st]> (producer_threads s)).
Definition set_chan (c : mpsc_t) (s : system) : system :=
  MkSystem c (main_thread s) (consumer_thread s) (producer_threads s).
Definition set_main_thread (m : main_status) (s : system) : system :=
  MkSystem (chan s) m (consumer_thread s) (producer_threads s).
Definition set_consumer_thread (t : consumer_thread_status) (s : system) : system :=
  MkSystem (chan s) (main_thread s) t (producer_threads s).

(** Whether [caller] is at a place from which the application can call
    a channel operation. *)
Definition can_call (s : system) (caller : thread) : bool :=
  match caller with
  | MainThread =>
      match main_thread s with MainRunning => true | _ => false end
  | ConsumerThread =>
      match consumer_thread s with ConsumerInCallback _ => true | _ => false end
  | ProducerThread id =>
      match producer_status s id with Some ProducerRunning => true | _ => false end
  end.

Definition after_send (id : Z) (data : list Z) (len : Z) (r : send_status)
    : producer_thread_status :=
  match r with
  | SendReturned _ => ProducerRunning
  | SendWaiting id' => ProducerAsleep id' data len
  end.

Definition after_consumer_pass (r : consumer_status) : consumer_thread_status :=
  match r with
  | ConsumerWaiting => ConsumerAsleep
  | ConsumerContinue => ConsumerInCallback false
  | ConsumerReturned => ConsumerInCallback true
  end.

(** The arguments that the C types allow: a length is a [size_t], and
    [data] points to [len] readable bytes. *)
Definition send_arguments_ok (data : list Z) (len : Z) : bool :=
  (0 <=? len) && (len <=? SIZE_MAX) && (Z.of_nat (length data) =? len).

(** The step that [a] makes from [s]: the events of the critical section
    and the next state; [None] when the thread is not at a place where
    it can make the step, or when the process is stopped by it. *)
Definition run (a : action) (s : system) : option (list event * system) :=
  match a with
  | ActRegister caller callback context code =>
      if can_call s caller then
        match mpsc_register_producer callback context code (chan s) with
        | Ret r c evs =>
            Some (evs,
              match r with
              | MPSC_REGISTER_PRODUCER_ERROR_NONE =>
                  MkSystem c (main_thread s) (consumer_thread s)
                    (producer_threads s ++ [ProducerRunning])
              | _ => set_chan c s
              end)
        | Abort _ => None
        end
      else None
  | ActJoin tid =>
      if can_call s MainThread then
        match mpsc_join tid (chan s) with
        | Ret _ c evs => Some (evs, set_main_thread MainJoining (set_chan c s))
        | Abort _ => None
        end
      else None
  | ActJoinResume =>
      match main_thread s, consumer_thread s with
      | MainJoining, ConsumerExited =>
          match mpsc_join_resume (chan s) with
          | Ret _ c evs => Some (evs, set_main_thread MainJoined (set_chan c s))
          | Abort _ => None
          end
      | _, _ => None
      end
  | ActConsumerPass heap =>
      match consumer_thread s with
      | ConsumerAtLoop =>
          match my_consumer_thread_callback heap (chan s) with
          | Ret r c evs =>
              Some (evs, set_consumer_thread (after_consumer_pass r) (set_chan c s))
          | Abort _ => None
          end
      | _ => None
      end
  | ActConsumerWake heap =>
      match consumer_thread s with
      | ConsumerAsleep =>
          match my_consumer_thread_callback_resume heap (chan s) with
          | Ret r c evs =>
              Some (evs, set_consumer_thread (after_consumer_pass r) (set_chan c s))
          | Abort _ => None
          end
      | _ => None
      end
  | ActConsumerCallbackReturn =>
      match consumer_thread s with
      | ConsumerInCallback final =>
          Some ([], set_consumer_thread
                      (if final then ConsumerExited else ConsumerAtLoop) s)
      | _ => None
      end
  | ActConsumerClose =>
      if can_call s ConsumerThread then
        match mpsc_consumer_close (chan s) with
        | Ret _ c evs => Some (evs, set_chan c s)
        | Abort _ => None
        end
      else None
  | ActSend id data len =>
      if can_call s (ProducerThread id) && send_arguments_ok data len then
        match mpsc_producer_send id data len (chan s) with
        | Ret r c evs =>
            Some (evs, set_producer_status id (after_send id data len r) (set_chan c s))
        | Abort _ => None
        end
      else None
  | ActSendWake id =>
      match producer_status s id with
      | Some (ProducerAsleep id' data len) =>
          match mpsc_producer_send_resume id' data len (chan s) with
          | Ret r c evs =>
              Some (evs, set_producer_status id (after_send id data len r) (set_chan c s))
          | Abort _ => None
          end
      | _ => None
      end
  | ActPing id =>
      if can_call s (ProducerThread id) then
        match mpsc_producer_ping (chan s) with
        | Ret _ c evs => Some (evs, set_chan c s)
        | Abort _ => None
        end
      else None
  | ActProducerReturn id =>
      if can_call s (ProducerThread id) then
        match mpsc_producer_done id (chan s) with
        | Ret _ c evs => Some (evs, set_producer_status id ProducerExited (set_chan c s))
        | Abort _ => None
        end
      else None
  end.

(** The parameters for which the arrays of the channel exist: the sizes
    are [size_t] values and an array of [n_max_producers] entries of 8
    bytes (the wait queue) fits in the address space. *)
Definition valid_params (params : mpsc_create_params_t) : Prop :=
  0 ≤ param_buffer_size params ≤ SIZE_MAX
  ∧ 0 ≤ param_n_max_producers params
  ∧ 8 * param_n_max_producers params ≤ SIZE_MAX.

Definition new_system (c : mpsc_t) : system :=
  MkSystem c MainRunning ConsumerAtLoop [].

(** The executions of a channel: it is created, then its threads make
    their steps in any order.  The trace keeps who did what. *)
Inductive execution : list (thread * event) → system → Prop :=
| exec_created params env entry_errno c log st :
    valid_params params →
    mpsc_create params env (creation_entry entry_errno) = Ret (Some st) c log →
    execution [] (new_system st)
| exec_step tr s a evs s' :
    execution tr s →
    run a s = Some (evs, s') →
    execution (tr ++ ((λ e, (actor a, e)) <$> evs)) s'.

(** ** What the claims speak about *)

(** The wait queue as a sequence: the first [n_producers_waiting] entries
    of the array. *)
Definition wait_queue (c : mpsc_t) : list Z :=
  take (Z.to_nat (n_producers_waiting c)) (producer_waiting_ids_queue c).

(** The producer that has been elected and has not deposited yet. *)
Definition handoff (c : mpsc_t) : list Z :=
  if next_waiting_producer_id c =? -1 then [] else [next_waiting_producer_id c].

(** The producers that entered the wait queue, those that were elected
    and those that left the queue, each in the order of the trace. *)
Definition arrivals (evs : list event) : list Z :=
  omap (λ e, match e with EvEnqueue id => Some id | _ => None end) evs.
Definition elected (evs : list event) : list Z :=
  omap (λ e, match e with EvElect id => Some id | _ => None end) evs.
Definition served (evs : list event) : list Z :=
  omap (λ e, match e with EvDequeue id => Some id | _ => None end) evs.

(** The number of producers whose record is marked done. *)
Definition done_count (c : mpsc_t) : Z :=
  Z.of_nat (length (filter (λ p, done p = true)
                      (take (Z.to_nat (producer_count c)) (producers c)))).

(** A schedule run from a state: the trace and the state it ends in. *)
Fixpoint run_all (acts : list action) (s : system)
    : option (list (thread * event) * system) :=
  match acts with
  | [] => Some ([], s)
  | a :: acts' =>
      match run a s with
      | Some (evs, s1) =>
          match run_all acts' s1 with
          | Some (tr, s2) => Some (((λ e, (actor a, e)) <$> evs) ++ tr, s2)
          | None => None
          end
      | None => None
      end
  end.

(** ** Invariants *)

(** What holds of the channel record between two critical sections,
    where [arr], [ele] and [srv] are the arrivals, the elections and the
    departures of the trace so far. *)
Record chan_inv (arr ele srv : list Z) (c : mpsc_t) : Prop := MkChanInv {
  inv_n_max : 0 ≤ n_max_producers c ∧ 8 * n_max_producers c ≤ SIZE_MAX;
  inv_producers_length :
    length (producers c) = Z.to_nat (n_max_producers c);
  inv_queue_length :
    length (producer_waiting_ids_queue c) = Z.to_nat (n_max_producers c);
  inv_producer_count : 0 ≤ producer_count c ≤ n_max_producers c;
  inv_done_count : n_producers_closed c = done_count c;
  inv_waiting : 0 ≤ n_producers_waiting c ≤ n_max_producers c;
  inv_queue_range : Forall (λ id, 0 ≤ id < n_max_producers c) (wait_queue c);
  inv_handoff :
    next_waiting_producer_id c = -1
    ∨ head (wait_queue c) = Some (next_waiting_producer_id c);
  inv_pending : pending_message c = true → next_waiting_producer_id c = -1;
  inv_joined :
    joined c = true → n_producers_closed c = producer_count c →
    closed c = true;
  inv_arrivals : arr = srv ++ wait_queue c;
  inv_elected : ele = srv ++ handoff c;
}.

(** What holds of the threads as well: every started producer thread has
    its status, a sleeping producer sleeps on its own condition variable,
    and a producer leaves the queue by its own hand. *)
Record sys_inv (tr : list (thread * event)) (s : system) : Prop := MkSysInv {
  sys_chan : chan_inv (arrivals tr.*2) (elected tr.*2) (served tr.*2) (chan s);
  sys_threads :
    length (producer_threads s) = Z.to_nat (producer_count (chan s));
  sys_asleep : ∀ i id data len,
    producer_threads s !! i = Some (ProducerAsleep id data len) →
    id = Z.of_nat i;
  sys_served : ∀ t id, (t, EvDequeue id) ∈ tr → t = ProducerThread id;
}.

(** A part of [mpsc_create] that returns no channel but [x]. *)
Definition returns_only (x : mpsc_t) (m : M creation (option mpsc_t)) : Prop :=
  ∀ s r s' e, m s = Ret (Some r) s' e → r = x.

(** The message of [mpsc_producer_send] is in the slot: the payload has
    been copied, its length and the pending flag are set, and the
    consumer's condition variable has been signalled. *)
Definition deposited (data : list Z) (len : Z) (c : mpsc_t)
    (evs : list event) : Prop :=
  take (Z.to_nat len) (buffer c) = data
  ∧ n c = len
  ∧ pending_message c = true
  ∧ EvSignal MainCondVar ∈ evs.

(** What a construction obtained and what it gave back, in order, and
    the addresses it passed to [free] without having obtained them. *)
Definition acquired (evs : list event) : list resource :=
  omap (λ e, match e with EvAcquire r => Some r | _ => None end) evs.
Definition released (evs : list event) : list resource :=
  omap (λ e, match e with EvRelease r => Some r | _ => None end) evs.
Definition wild_frees (evs : list event) : list Z :=
  omap (λ e, match e with EvFreeWild a => Some a | _ => None end) evs.

(** The step of [mpsc_create] after its allocations that fails: the
    initialisation of the main condition variable, of the condition
    variable of producer [k], of the mutex, or the start of the consumer
    thread. *)
Inductive failure_point :=
| FailMainCond
| FailProducerCond (k : Z)
| FailMutex
| FailConsumerThread.

Definition producer_cond_vars (k : Z) : list resource :=
  (λ i, ResCond (ProducerCondVar i)) <$> seqZ 0 k.

(** The system lets every allocation and every step before [fp] succeed
    and answers [code] at [fp], a code that the wrapper of that step
    reports instead of aborting. *)
Definition fails_at (n_max : Z) (env : create_env) (fp : failure_point)
    (code : Z) : Prop :=
  (∀ r, env_malloc env r = MallocOk)
  ∧ match fp with
    | FailMainCond =>
        env_cond_init env MainCondVar = code
        ∧ (code = ENOMEM ∨ code = EAGAIN)
    | FailProducerCond k =>
        0 ≤ k < n_max
        ∧ env_cond_init env MainCondVar = 0
        ∧ (∀ i, 0 ≤ i < k → env_cond_init env (ProducerCondVar i) = 0)
        ∧ env_cond_init env (ProducerCondVar k) = code
        ∧ (code = ENOMEM ∨ code = EAGAIN)
    | FailMutex =>
        env_cond_init env MainCondVar = 0
        ∧ (∀ i, 0 ≤ i < n_max → env_cond_init env (ProducerCondVar i) = 0)
        ∧ env_mutex_init env = code
        ∧ code = ENOMEM
    | FailConsumerThread =>
        env_cond_init env MainCondVar = 0
        ∧ (∀ i, 0 ≤ i < n_max → env_cond_init env (ProducerCondVar i) = 0)
        ∧ env_mutex_init env = 0
        ∧ env_thread_create env = code
        ∧ code = EAGAIN
    end.

(** The construction once its six allocations have succeeded. *)
Definition allocated (params : mpsc_create_params_t) (c : creation) : creation :=
  MkCreation (errno c) (PtrBlock ResSelf) (PtrBlock ResBuffer)
    (PtrBlock ResProducerThreadIds) (PtrBlock ResProducers)
    (PtrBlock ResProducerConditionVariables)
    (PtrBlock ResProducerWaitingIdsQueue) (param_n_max_producers params).

(** The parameters that [mpsc_create_params_validate] lets through under
    the report policy. *)
Definition accepted_params (params : mpsc_create_params_t) : Prop :=
  param_consumer_callback params ≠ 0
  ∧ param_consumer_error_callback params ≠ 0
  ∧ param_n_max_producers params ≠ 0
  ∧ param_error_handling_enabled params = true.

Definition allocated_blocks : list resource :=
  [ResSelf; ResBuffer; ResProducerThreadIds; ResProducers;
   ResProducerConditionVariables; ResProducerWaitingIdsQueue].

(** The steps completed before [fp], in the order of [mpsc_create]. *)
Definition completed_before (n_max : Z) (fp : failure_point) : list resource :=
  allocated_blocks ++
  match fp with
  | FailMainCond => []
  | FailProducerCond k => ResCond MainCondVar :: producer_cond_vars k
  | FailMutex => ResCond MainCondVar :: producer_cond_vars n_max
  | FailConsumerThread =>
      ResCond MainCondVar :: producer_cond_vars n_max ++ [ResMutex]
  end.

(** The order in which [mpsc_handle_creation_failure] undoes them. *)
Definition unwound (n_max : Z) (fp : failure_point) : list resource :=
  match fp with
  | FailMainCond => []
  | FailProducerCond k => ResCond MainCondVar :: producer_cond_vars k
  | FailMutex => ResCond MainCondVar :: producer_cond_vars n_max
  | FailConsumerThread =>
      ResMutex :: ResCond MainCondVar :: producer_cond_vars n_max
  end ++
  [ResProducerConditionVariables; ResProducerWaitingIdsQueue; ResProducers;
   ResProducerThreadIds; ResBuffer; ResSelf].

(** ** What the further properties speak about *)

(** The calls of the application's consumer callbacks. *)
Definition is_callback (e : event) : bool :=
  match e with
  | EvConsumerCallback _ _ _ | EvConsumerErrorCallback => true
  | _ => false
  end.

(** What is done on the channel record or on the mutex itself and needs
    the mutex: the writes of the wait queue and of the hand-off, the
    signals, the release and the wait. *)
Definition needs_mutex (e : event) : bool :=
  match e with
  | EvEnqueue _ | EvDequeue _ | EvElect _ | EvSignal _ | EvUnlock | EvWait _ =>
      true
  | _ => false
  end.

(** Whether, from a state of the mutex, every callback in [evs] is made
    without the mutex, every protected statement with it, and the mutex
    is never locked twice. *)
Fixpoint disciplined (held : bool) (evs : list event) : bool :=
  match evs with
  | [] => true
  | e :: evs' =>
      (if is_callback e then negb held else true)
      && (if needs_mutex e then held else true)
      && match e with EvLock | EvWake _ => negb held | _ => true end
      && disciplined (lock_after held e) evs'
  end.

(** The steps in which the consumer thread goes round its loop. *)
Definition is_consumer_pass (a : action) : bool :=
  match a with
  | ActConsumerPass _ | ActConsumerWake _ => true
  | _ => false
  end.

(** The consumer thread has left its loop: it is in the closing callback
    or has returned. *)
Definition consumer_finished (s : system) : bool :=
  match consumer_thread s with
  | ConsumerInCallback true | ConsumerExited => true
  | _ => false
  end.

(** The steps of a call of [mpsc_producer_send]. *)
Definition is_send (a : action) : bool :=
  match a with
  | ActSend _ _ _ | ActSendWake _ => true
  | _ => false
  end.

(** What holds of the producers that sleep in [mpsc_producer_send]:
    each is in the wait queue, with a message that fits the slot; and as
    long as the channel is open, the wait queue holds no producer twice
    and only producers that sleep. *)
Record sleepers_inv (s : system) : Prop := MkSleepersInv {
  sleeper_queued : ∀ i id data len,
    producer_threads s !! i = Some (ProducerAsleep id data len) →
    id ∈ wait_queue (chan s);
  sleeper_message : ∀ i id data len,
    producer_threads s !! i = Some (ProducerAsleep id data len) →
    Z.of_nat (length data) = len ∧ len ≤ buffer_size (chan s);
  queue_nodup : closed (chan s) = false → NoDup (wait_queue (chan s));
  queue_asleep : ∀ id,
    closed (chan s) = false →
    id ∈ wait_queue (chan s) →
    ∃ data len,
      producer_threads s !! Z.to_nat id = Some (ProducerAsleep id data len);
}.

(** The parameters that [mpsc_create_params_validate] lets through. *)
Definition validated_params (params : mpsc_create_params_t) : Prop :=
  param_consumer_callback params ≠ 0
  ∧ (param_error_handling_enabled params = true →
     param_consumer_error_callback params ≠ 0)
  ∧ param_n_max_producers params ≠ 0.

(** The system grants whatever a construction for [n_max] producers
    asks for: its six blocks, its condition variables, its mutex and its
    consumer thread. *)
Definition grants (n_max : Z) (env : create_env) : Prop :=
  (∀ r, r ∈ allocated_blocks → env_malloc env r = MallocOk)
  ∧ env_cond_init env MainCondVar = 0
  ∧ (∀ i, 0 ≤ i < n_max → env_cond_init env (ProducerCondVar i) = 0)
  ∧ env_mutex_init env = 0
  ∧ env_thread_create env = 0.

(** What a successful construction obtains, in order. *)
Definition created_resources (n_max : Z) : list resource :=
  allocated_blocks
  ++ ResCond MainCondVar :: producer_cond_vars n_max
  ++ [ResMutex; ResConsumerThread].

(** How a part of [mpsc_create] that runs once the channel block has
    been allocated can end: with a channel, and then [G] holds of the
    system; with null, under the report policy and with ENOMEM or EAGAIN
    stored in [errno] last; or by stopping the process in a wrapper. *)
Definition creation_post (handle_errors : bool) (G : Prop)
    (o : outcome creation (option mpsc_t)) : Prop :=
  match o with
  | Ret (Some _) _ _ => G
  | Ret None c log =>
      handle_errors = true
      ∧ (errno c = ENOMEM ∨ errno c = EAGAIN)
      ∧ last log = Some (EvErrno (errno c))
  | Abort f =>
      f = FatalMalloc
      ∨ ∃ code, code ≠ 0
          ∧ (f = FatalCondInit code ∨ f = FatalMutexInit code
             ∨ f = FatalThreadCreate code)
  end.


(** ** Examples *)

(** A channel for messages of at most 4 bytes and 2 producers, under the
    report policy, created by thread 7 on a system that grants everything
    and whose fresh memory holds junk. *)
Definition example_params : mpsc_create_params_t :=
  MkParams 4 2 1 1 true false.
Definition example_env : create_env :=
  MkEnv (λ _, MallocOk) (λ _, 0) 0 0 7 (λ _, PtrWild 3735928559) 99
    (λ _, 170) (λ _, MkProducer 5 true 5) (λ _, 77).
Definition example_channel : mpsc_t :=
  Eval vm_compute in created_channel example_params example_env.

Definition trace_of (r : option (list (thread * event) * system))
    : list (thread * event) :=
  match r with Some (tr, _) => tr | None => [] end.
Definition system_of (r : option (list (thread * event) * system)) : system :=
  match r with Some (_, s) => s | None => new_system example_channel end.

(** Two producers are registered; producer 0 deposits [1; 2], producer 1
    and then producer 0 have to wait; the consumer delivers and elects
    producer 1, which deposits [3]. *)
Definition example_schedule : list action :=
  [ActRegister MainThread 1 1 0; ActRegister MainThread 1 1 0;
   ActSend 0 [1; 2] 2; ActSend 1 [3] 1; ActSend 0 [4] 1;
   ActConsumerPass MallocOk; ActSendWake 1].
Definition example_run : option (list (thread * event) * system) :=
  Eval vm_compute in run_all example_schedule (new_system example_channel).
Definition example_trace : list (thread * event) :=
  Eval vm_compute in trace_of example_run.
Definition example_system : system :=
  Eval vm_compute in system_of example_run.

(** One producer is registered and the application joins the channel;
    the producer, still running, registers another one. *)
Definition join_schedule : list action :=
  [ActRegister MainThread 1 1 0; ActJoin 7].
Definition join_run : option (list (thread * event) * system) :=
  Eval vm_compute in run_all join_schedule (new_system example_channel).
Definition join_trace : list (thread * event) :=
  Eval vm_compute in trace_of join_run.
Definition join_system : system :=
  Eval vm_compute in system_of join_run.

(** A message is delivered; while the consumer is in its callback the
    producer deposits [3] and the callback closes the channel. *)
Definition close_schedule : list action :=
  [ActRegister MainThread 1 1 0; ActSend 0 [1; 2] 2;
   ActConsumerPass MallocOk; ActSend 0 [3] 1; ActConsumerClose;
   ActConsumerCallbackReturn].
Definition close_run : option (list (thread * event) * system) :=
  Eval vm_compute in run_all close_schedule (new_system example_channel).
Definition close_trace : list (thread * event) :=
  Eval vm_compute in trace_of close_run.
Definition close_system : system :=
  Eval vm_compute in system_of close_run.

(** The system on which the start of the consumer thread fails. *)
Definition no_thread_env : create_env :=
  MkEnv (λ _, MallocOk) (λ _, 0) 0 EAGAIN 7 (λ _, PtrWild 3735928559) 99
    (λ _, 170) (λ _, MkProducer 5 true 5) (λ _, 77).
(** The system on which the first allocation fails. *)
Definition no_memory_env : create_env :=
  MkEnv (λ _, malloc_out_of_memory) (λ _, 0) 0 0 7 (λ _, PtrWild 3735928559) 99
    (λ _, 170) (λ _, MkProducer 5 true 5) (λ _, 77).
(** The system on which the allocation of the slot fails. *)
Definition no_buffer_env : create_env :=
  MkEnv (λ r, match r with ResBuffer => malloc_out_of_memory | _ => MallocOk end)
    (λ _, 0) 0 0 7 (λ _, PtrWild 3735928559) 99
    (λ _, 170) (λ _, MkProducer 5 true 5) (λ _, 77).

(** The whole life of a channel: a producer is registered and sends
    [1; 2], which the consumer delivers; the application joins, the
    producer returns, and the consumer makes its closing callback and
    returns. *)
Definition life_schedule : list action :=
  [ActRegister MainThread 1 1 0; ActSend 0 [1; 2] 2; ActConsumerPass MallocOk;
   ActConsumerCallbackReturn; ActJoin 7; ActProducerReturn 0;
   ActConsumerPass MallocOk; ActConsumerCallbackReturn].
Definition life_run : option (list (thread * event) * system) :=
  Eval vm_compute in run_all life_schedule (new_system example_channel).
Definition life_trace : list (thread * event) :=
  Eval vm_compute in trace_of life_run.
Definition life_system : system :=
  Eval vm_compute in system_of life_run.

(** Producer 1 waits while [1; 2] is pending; the consumer delivers that
    message, elects producer 1 and is in its callback. *)
Definition elect_schedule : list action :=
  [ActRegister MainThread 1 1 0; ActRegister MainThread 1 1 0;
   ActSend 0 [1; 2] 2; ActSend 1 [3] 1; ActConsumerPass MallocOk].
Definition elect_run : option (list (thread * event) * system) :=
  Eval vm_compute in run_all elect_schedule (new_system example_channel).
Definition elect_trace : list (thread * event) :=
  Eval vm_compute in trace_of elect_run.
Definition elect_system : system :=
  Eval vm_compute in system_of elect_run.

(** Both producers wait while [1; 2] is pending; the delivery buffer
    cannot be allocated, the message is dropped, and the consumer goes
    to sleep. *)
Definition drop_schedule : list action :=
  [ActRegister MainThread 1 1 0; ActRegister MainThread 1 1 0;
   ActSend 0 [1; 2] 2; ActSend 1 [3] 1; ActSend 0 [4] 1;
   ActConsumerPass malloc_out_of_memory; ActConsumerCallbackReturn;
   ActConsumerPass MallocOk].
Definition drop_run : option (list (thread * event) * system) :=
  Eval vm_compute in run_all drop_schedule (new_system example_channel).
Definition drop_trace : list (thread * event) :=
  Eval vm_compute in trace_of drop_run.
Definition drop_system : system :=
  Eval vm_compute in system_of drop_run.

(** * Proofs *)

(** ** Machine integers and lists *)

Lemma size_wrap_small x : 0 ≤ x ≤ SIZE_MAX → size_wrap x = x.
Proof. unfold size_wrap, SIZE_MAX. intros. apply Z.mod_small. lia. Qed.

Lemma to_ssize_small x : x ≤ SSIZE_MAX → to_ssize x = x.
Proof.
  unfold to_ssize, SSIZE_MAX. intros.
  destruct (Z.ltb_spec x (2 ^ 63)); [done | lia].
Qed.

Lemma find_seqZ_inv self m i :
  find (λ i, i =? self) (seqZ 0 m) = Some i → i = self ∧ 0 ≤ self < m.
Proof.
  intros H. apply find_some in H as [Hin Heq].
  apply Z.eqb_eq in Heq. subst.
  apply list_elem_of_In, elem_of_seqZ in Hin. split; [done | lia].
Qed.

(** ** The monad *)

Lemma M_bind_eq {S A B} (m : M S A) (k : A → M S B) (s : S) :
  (m ≫= k) s
  = match m s with
    | Ret a s1 e1 =>
        match k a s1 with
        | Ret b s2 e2 => Ret b s2 (e1 ++ e2)
        | Abort f => Abort f
        end
    | Abort f => Abort f
    end.
Proof. done. Qed.

Lemma for_each_modify {S} count (f : Z → S → S) (s : S) :
  for_each count (λ i s, Ret tt (f i s) []) s
  = Ret tt (foldl (λ s i, f i s) s (seqZ 0 count)) [].
Proof.
  unfold for_each. generalize (seqZ 0 count) as l. intros l. revert s.
  induction l as [|i l IH]; intros s; [done |].
  cbn [foldr]. rewrite M_bind_eq. by rewrite IH.
Qed.

Lemma for_each_emit {S} count (g : Z → event) (s : S) :
  for_each count (λ i s, Ret tt s [g i]) s = Ret tt s (g <$> seqZ 0 count).
Proof.
  unfold for_each. generalize (seqZ 0 count) as l. intros l.
  induction l as [|i l IH]; [done |].
  cbn [foldr]. rewrite M_bind_eq. by rewrite IH.
Qed.

(** ** The shift of the wait queue *)

(** The loop of [mpsc_shift_producer_wait_queue] on the array alone. *)
Lemma shift_loop_list (q : list Z) m :
  foldl (λ q i, <[Z.to_nat i := q !!! Z.to_nat (i + 1)]> q) q (seqZ 0 m)
  = foldl (λ q i, <[i := q !!! S i]> q) q (seq 0 (Z.to_nat m)).
Proof.
  unfold seqZ. generalize (Z.to_nat m) as k. intros k.
  induction k as [|k IH]; [done |].
  rewrite seq_S, fmap_app, !foldl_app, IH. cbn.
  replace (Z.to_nat (Z.of_nat k + 0)) with k by lia.
  by replace (Z.to_nat (Z.of_nat k + 0 + 1)) with (S k) by lia.
Qed.

Lemma shift_list (q : list Z) (k : nat) :
  (k < length q)%nat →
  foldl (λ q i, <[i := q !!! S i]> q) q (seq 0 k)
  = take k (drop 1 q) ++ drop k q.
Proof.
  induction k as [|k IH]; intros Hk; [by rewrite drop_0 |].
  rewrite seq_S, foldl_app. cbn [foldl Nat.add]. rewrite IH by lia.
  assert (length (take k (drop 1 q)) = k) as Hlen
    by (rewrite length_take, length_drop; lia).
  destruct (lookup_lt_is_Some_2 q (S k) Hk) as [x Hx].
  rewrite lookup_total_app_r by lia. rewrite Hlen.
  replace (S k - k)%nat with 1%nat by lia.
  rewrite (list_lookup_total_correct (drop k q) 1 x)
    by (rewrite lookup_drop; by replace (k + 1)%nat with (S k) by lia).
  rewrite <- Hlen at 1. rewrite <- (Nat.add_0_r (length _)), insert_app_r.
  rewrite (take_S_r _ k x) by (by rewrite lookup_drop).
  rewrite <- app_assoc. f_equal.
  destruct (lookup_lt_is_Some_2 q k ltac:(lia)) as [y Hy].
  rewrite (drop_S q y k Hy). done.
Qed.

(** Evaluation of a critical section: the primitives are unfolded, then
    the tests are decided one at a time, the outermost first. *)
Ltac run_monad :=
  cbv beta iota delta
    [mbind M_bind mret M_ret get modify emit abort store_errno mpsc_errno
     creation_errno
     my_mutex_set_lock_state my_condition_variable_signal
     my_thread_create my_malloc my_condition_variable_init my_mutex_init
     my_mutex_destroy my_condition_variable_destroy];
  cbn [app negb andb orb].

(** Projections of updated records. *)
Ltac fields :=
  cbn [buffer_size n_max_producers buffer n pending_message joined closed
       n_producers_closed error_handling_enabled
       create_and_join_thread_safety_disabled parent_thread_id
       n_producers_waiting next_waiting_producer_id producers producer_count
       producer_waiting_ids_queue
       set_buffer set_n set_pending_message set_joined set_closed
       set_n_producers_closed set_error_handling_enabled
       set_n_producers_waiting set_next_waiting_producer_id set_producers
       set_producer_count set_producer_waiting_ids_queue
       errno self_pointer self_buffer self_producer_thread_ids self_producers
       self_producer_condition_variables self_producer_waiting_ids_queue
       self_n_max_producers set_errno set_self_buffer
       set_self_producer_thread_ids set_self_producers
       set_self_producer_condition_variables
       set_self_producer_waiting_ids_queue set_self_n_max_producers
       application_context done callback set_done
       chan main_thread consumer_thread producer_threads
       set_chan set_main_thread set_consumer_thread set_producer_status].

Ltac fields_in H :=
  cbn [buffer_size n_max_producers buffer n pending_message joined closed
       n_producers_closed error_handling_enabled
       create_and_join_thread_safety_disabled parent_thread_id
       n_producers_waiting next_waiting_producer_id producers producer_count
       producer_waiting_ids_queue
       set_buffer set_n set_pending_message set_joined set_closed
       set_n_producers_closed set_error_handling_enabled
       set_n_producers_waiting set_next_waiting_producer_id set_producers
       set_producer_count set_producer_waiting_ids_queue
       errno self_pointer self_buffer self_producer_thread_ids self_producers
       self_producer_condition_variables self_producer_waiting_ids_queue
       self_n_max_producers set_errno set_self_buffer
       set_self_producer_thread_ids set_self_producers
       set_self_producer_condition_variables
       set_self_producer_waiting_ids_queue set_self_n_max_producers
       application_context done callback set_done
       chan main_thread consumer_thread producer_threads
       set_chan set_main_thread set_consumer_thread set_producer_status] in H.

Ltac case_if :=
  match goal with
  | |- context [if ?b then _ else _] =>
      lazymatch b with
      | context [if _ then _ else _] => fail
      | _ => destruct b eqn:?; cbv beta iota; cbn [app negb andb orb]
      end
  end.

Lemma mpsc_register_producer_unfold cb ctx code c :
  mpsc_register_producer cb ctx code c
  = if n_max_producers c =? producer_count c then
      Ret MPSC_REGISTER_PRODUCER_ERROR_N_MAX_PRODUCERS_REACHED c [EvLock; EvUnlock]
    else if closed c then
      Ret MPSC_REGISTER_PRODUCER_ERROR_CLOSED c [EvLock; EvUnlock]
    else
      let c1 := set_producers
        (<[Z.to_nat (producer_count c) := MkProducer ctx false cb]> (producers c)) c in
      if code =? 0 then
        Ret MPSC_REGISTER_PRODUCER_ERROR_NONE
          (set_producer_count (size_wrap (producer_count c + 1)) c1)
          [EvLock; EvAcquire (ResProducerThread (producer_count c)); EvUnlock]
      else if error_handling_enabled c && (code =? EAGAIN) then
        Ret MPSC_REGISTER_PRODUCER_ERROR_EAGAIN c1 [EvLock; EvErrno code; EvUnlock]
      else Abort (FatalThreadCreate code).
Proof.
  unfold mpsc_register_producer. run_monad. repeat case_if; reflexivity.
Qed.

Lemma mpsc_join_unfold tid c :
  mpsc_join tid c
  = if negb (create_and_join_thread_safety_disabled c)
       && negb (tid =? parent_thread_id c)
    then Abort FatalJoinWrongThread
    else if joined c then Abort FatalJoinTwice
    else if producer_count c =? 0 then Abort FatalJoinNoProducer
    else if producer_count c =? n_producers_closed c then
      Ret tt (set_closed true (set_joined true c))
        [EvLock; EvSignal MainCondVar; EvUnlock]
    else Ret tt (set_joined true c) [EvLock; EvUnlock].
Proof.
  unfold mpsc_join. run_monad. repeat case_if; try discriminate; reflexivity.
Qed.

Lemma mpsc_join_resume_unfold c :
  mpsc_join_resume c = Ret tt (set_closed true c) [EvLock; EvUnlock].
Proof. reflexivity. Qed.

Lemma mpsc_consumer_close_unfold c :
  mpsc_consumer_close c
  = Ret tt (set_closed true c)
      ([EvLock; EvSignal MainCondVar]
       ++ ((λ i, EvSignal (ProducerCondVar
                   (producer_waiting_ids_queue c !!! Z.to_nat i)))
           <$> seqZ 0 (n_producers_waiting c))
       ++ [EvUnlock]).
Proof.
  unfold mpsc_consumer_close. run_monad. fields.
  by rewrite (for_each_emit _ (λ i, EvSignal (ProducerCondVar
    (producer_waiting_ids_queue c !!! Z.to_nat i)))).
Qed.

Lemma mpsc_producer_ping_unfold c :
  mpsc_producer_ping c = Ret (negb (closed c)) c [EvLock; EvUnlock].
Proof. unfold mpsc_producer_ping. run_monad. by destruct (closed c). Qed.

Lemma mpsc_producer_subscribe_to_wait_queue_unfold self c :
  mpsc_producer_subscribe_to_wait_queue self c
  = let index :=
      match find (λ i, i =? self) (seqZ 0 (n_max_producers c)) with
      | Some i => to_ssize i
      | None => -1
      end in
    if index =? -1 then Abort FatalProducerNotFound
    else if n_producers_waiting c =? n_max_producers c
    then Abort FatalWaitQueueFull
    else Ret (size_wrap index)
           (set_n_producers_waiting (size_wrap (n_producers_waiting c + 1))
             (set_producer_waiting_ids_queue
                (<[Z.to_nat (n_producers_waiting c) := size_wrap index]>
                   (producer_waiting_ids_queue c)) c))
           [EvEnqueue (size_wrap index)].
Proof.
  unfold mpsc_producer_subscribe_to_wait_queue. run_monad.
  repeat case_if; reflexivity.
Qed.

Lemma shift_loop_state c (l : list Z) :
  foldl (λ s i, set_producer_waiting_ids_queue
      (<[Z.to_nat i := producer_waiting_ids_queue s !!! Z.to_nat (i + 1)]>
         (producer_waiting_ids_queue s)) s) c l
  = set_producer_waiting_ids_queue
      (foldl (λ q i, <[Z.to_nat i := q !!! Z.to_nat (i + 1)]> q)
         (producer_waiting_ids_queue c) l) c.
Proof.
  revert c. induction l as [|i l IH]; intros c; [by destruct c |].
  cbn [foldl]. rewrite IH. fields. reflexivity.
Qed.

Lemma mpsc_shift_producer_wait_queue_unfold c :
  mpsc_shift_producer_wait_queue c
  = if n_producers_waiting c =? 0 then Abort FatalWaitQueueEmpty
    else Ret tt
      (set_next_waiting_producer_id (-1)
        (set_n_producers_waiting (size_wrap (n_producers_waiting c - 1))
          (set_producer_waiting_ids_queue
            (foldl (λ q i, <[Z.to_nat i := q !!! Z.to_nat (i + 1)]> q)
               (producer_waiting_ids_queue c)
               (seqZ 0 (size_wrap (n_producers_waiting c - 1)))) c)))
      [EvDequeue (producer_waiting_ids_queue c !!! 0%nat)].
Proof.
  unfold mpsc_shift_producer_wait_queue. run_monad. case_if; [done |].
  rewrite (for_each_modify _ (λ i s, set_producer_waiting_ids_queue
      (<[Z.to_nat i := producer_waiting_ids_queue s !!! Z.to_nat (i + 1)]>
         (producer_waiting_ids_queue s)) s)).
  rewrite shift_loop_state. reflexivity.
Qed.

Lemma send_deposit_unfold data len c :
  send_deposit data len c
  = Ret (SendReturned true)
      (set_pending_message true (set_n len
        (if 0 <? len then set_buffer (memcpy (buffer c) data len) c else c)))
      [EvSignal MainCondVar; EvUnlock].
Proof. unfold send_deposit. run_monad. by case_if. Qed.

Lemma send_wait_loop_unfold id data len c :
  send_wait_loop id data len c
  = if negb (closed c) && negb (next_waiting_producer_id c =? to_ssize id)
    then Ret (SendWaiting id) c [EvWait (ProducerCondVar id)]
    else if closed c then Ret (SendReturned false) c [EvUnlock]
    else
      match mpsc_shift_producer_wait_queue c with
      | Ret _ c1 e1 =>
          match send_deposit data len c1 with
          | Ret r c2 e2 => Ret r c2 (e1 ++ e2)
          | Abort f => Abort f
          end
      | Abort f => Abort f
      end.
Proof.
  unfold send_wait_loop. run_monad. repeat case_if; try reflexivity.
  destruct (mpsc_shift_producer_wait_queue c); [|done].
  by destruct (send_deposit _ _ _).
Qed.

Lemma mpsc_producer_send_unfold self data len c :
  mpsc_producer_send self data len c
  = if buffer_size c <? len then Abort FatalSendTooLarge
    else if closed c then Ret (SendReturned false) c [EvLock; EvUnlock]
    else if pending_message c || negb (next_waiting_producer_id c =? -1) then
      match mpsc_producer_subscribe_to_wait_queue self c with
      | Ret id c1 e1 =>
          match send_wait_loop id data len c1 with
          | Ret r c2 e2 => Ret r c2 (EvLock :: e1 ++ e2)
          | Abort f => Abort f
          end
      | Abort f => Abort f
      end
    else
      match send_deposit data len c with
      | Ret r c2 e2 => Ret r c2 (EvLock :: e2)
      | Abort f => Abort f
      end.
Proof.
  unfold mpsc_producer_send. run_monad. repeat case_if; try reflexivity.
  - destruct (mpsc_producer_subscribe_to_wait_queue self c); [|done].
    by destruct (send_wait_loop _ _ _ _).
  - by destruct (send_deposit _ _ _).
Qed.

Lemma mpsc_producer_send_resume_unfold id data len c :
  mpsc_producer_send_resume id data len c
  = match send_wait_loop id data len c with
    | Ret r c2 e2 => Ret r c2 (EvWake (ProducerCondVar id) :: e2)
    | Abort f => Abort f
    end.
Proof.
  unfold mpsc_producer_send_resume. run_monad.
  by destruct (send_wait_loop _ _ _ _).
Qed.

Lemma mpsc_producer_done_unfold self c :
  mpsc_producer_done self c
  = if negb (done (producers c !!! Z.to_nat self)) then
      let c1 :=
        set_n_producers_closed (size_wrap (n_producers_closed c + 1))
          (set_producers
             (<[Z.to_nat self := set_done true (producers c !!! Z.to_nat self)]>
                (producers c)) c) in
      if (n_producers_closed c1 =? producer_count c1) && joined c1 then
        Ret tt (set_closed true c1) [EvLock; EvSignal MainCondVar; EvUnlock]
      else Ret tt c1 [EvLock; EvUnlock]
    else Ret tt c [EvLock; EvUnlock].
Proof.
  unfold mpsc_producer_done. run_monad. cbv zeta. fields.
  repeat case_if; reflexivity.
Qed.

Lemma consumer_deliver_unfold data len c :
  consumer_deliver data len c
  = let c1 := set_pending_message false (set_n 0 c) in
    if (0 <? n_producers_waiting c) && negb (closed c) then
      let id := producer_waiting_ids_queue c !!! 0%nat in
      Ret ConsumerContinue (set_next_waiting_producer_id (to_ssize id) c1)
        [EvElect id; EvSignal (ProducerCondVar id); EvUnlock;
         EvConsumerCallback data len false]
    else Ret ConsumerContinue c1 [EvUnlock; EvConsumerCallback data len false].
Proof.
  unfold consumer_deliver. run_monad. fields. repeat case_if; reflexivity.
Qed.

Lemma consumer_loop_body_unfold heap c :
  consumer_loop_body heap c
  = if negb (pending_message c) && negb (closed c) then
      Ret ConsumerWaiting c [EvWait MainCondVar]
    else if closed c && negb (pending_message c) then
      Ret ConsumerReturned c [EvUnlock; EvConsumerCallback None 0 true]
    else if 0 <? n c then
      match heap with
      | MallocOk =>
          match consumer_deliver (Some (take (Z.to_nat (n c)) (buffer c))) (n c) c with
          | Ret r c2 e2 => Ret r c2 (EvAcquire ResDelivery :: e2)
          | Abort f => Abort f
          end
      | MallocNull e =>
          if error_handling_enabled c && (e =? ENOMEM) then
            Ret ConsumerContinue (set_pending_message false (set_n 0 c))
              [EvErrno e; EvUnlock; EvConsumerErrorCallback]
          else Abort FatalMalloc
      end
    else consumer_deliver None (n c) c.
Proof.
  unfold consumer_loop_body. run_monad. repeat case_if; try reflexivity.
  - destruct heap; run_monad; repeat case_if; try reflexivity.
    by destruct (consumer_deliver _ _ _).
  - by destruct (consumer_deliver _ _ _).
Qed.

Lemma my_consumer_thread_callback_unfold heap c :
  my_consumer_thread_callback heap c
  = match consumer_loop_body heap c with
    | Ret r c2 e2 => Ret r c2 (EvLock :: e2)
    | Abort f => Abort f
    end.
Proof.
  unfold my_consumer_thread_callback. run_monad.
  by destruct (consumer_loop_body _ _).
Qed.

Lemma my_consumer_thread_callback_resume_unfold heap c :
  my_consumer_thread_callback_resume heap c
  = match consumer_loop_body heap c with
    | Ret r c2 e2 => Ret r c2 (EvWake MainCondVar :: e2)
    | Abort f => Abort f
    end.
Proof.
  unfold my_consumer_thread_callback_resume. run_monad.
  by destruct (consumer_loop_body _ _).
Qed.

(** ** Lists of producers and of waiting producers *)

Lemma take_S_insert {A} (l : list A) (k : nat) (x : A) :
  (k < length l)%nat → take (S k) (<[k := x]> l) = take k l ++ [x].
Proof.
  intros Hk. rewrite (take_S_r _ k x) by (by apply list_lookup_insert_eq).
  by rewrite take_insert_ge by lia.
Qed.

Lemma filter_done_insert (l : list mpsc_producer_t) (i : nat) :
  (i < length l)%nat →
  done (l !!! i) = false →
  length (filter (λ p, done p = true) (<[i := set_done true (l !!! i)]> l))
  = S (length (filter (λ p, done p = true) l)).
Proof.
  intros Hi Hd. destruct (lookup_lt_is_Some_2 l i Hi) as [p Hp].
  rewrite (list_lookup_total_correct l i p Hp) in *.
  rewrite <- (take_drop_middle l i p Hp) at 2.
  rewrite insert_take_drop by done.
  rewrite !filter_app, !filter_cons, !length_app.
  destruct (decide (done (set_done true p) = true)) as [_|Hn]; [|by destruct Hn].
  destruct (decide (done p = true)) as [Hy|_]; [congruence |].
  cbn [length]. lia.
Qed.

Lemma arrivals_app l1 l2 : arrivals (l1 ++ l2) = arrivals l1 ++ arrivals l2.
Proof. apply omap_app. Qed.
Lemma elected_app l1 l2 : elected (l1 ++ l2) = elected l1 ++ elected l2.
Proof. apply omap_app. Qed.
Lemma served_app l1 l2 : served (l1 ++ l2) = served l1 ++ served l2.
Proof. apply omap_app. Qed.

Lemma queue_events_signals (g : Z → cond_var) (l : list Z) :
  arrivals ((λ i, EvSignal (g i)) <$> l) = []
  ∧ elected ((λ i, EvSignal (g i)) <$> l) = []
  ∧ served ((λ i, EvSignal (g i)) <$> l) = [].
Proof. induction l as [|i l (? & ? & ?)]; [done |]. by cbn. Qed.

(** ** The invariant of the channel record *)

Section chan_invariant.
Context (arr ele srv : list Z) (c : mpsc_t).
Hypothesis Hinv : chan_inv arr ele srv c.

Lemma wait_queue_head_total id :
  head (wait_queue c) = Some id →
  0 < n_producers_waiting c ∧ producer_waiting_ids_queue c !!! 0%nat = id
  ∧ wait_queue c = id :: drop 1 (wait_queue c).
Proof.
  unfold wait_queue. intros Hh.
  destruct (Z.to_nat (n_producers_waiting c)) as [|k] eqn:Hk;
    [by rewrite take_0 in Hh |].
  split; [lia |].
  destruct (producer_waiting_ids_queue c) as [|x q]; [done |].
  cbn in Hh. injection Hh as ->. split; [done |]. cbn. by rewrite drop_0.
Qed.

Lemma wait_queue_nonempty_head :
  0 < n_producers_waiting c →
  head (wait_queue c) = Some (producer_waiting_ids_queue c !!! 0%nat)
  ∧ 0 ≤ producer_waiting_ids_queue c !!! 0%nat < n_max_producers c.
Proof.
  intros Hn. pose proof (inv_queue_range _ _ _ _ Hinv) as Hr.
  pose proof (inv_queue_length _ _ _ _ Hinv) as Hl.
  pose proof (inv_waiting _ _ _ _ Hinv) as Hw.
  unfold wait_queue in *.
  destruct (Z.to_nat (n_producers_waiting c)) as [|k] eqn:Hk; [lia |].
  destruct (producer_waiting_ids_queue c) as [|x q]; [cbn in Hl; lia |].
  cbn in *. split; [done |]. by inversion Hr.
Qed.
End chan_invariant.

(** Each operation keeps the invariant of the record. *)

Ltac inv_fields H :=
  destruct H as [Hmax Hpl Hql Hpc Hdc Hw Hqr Hh Hp Hj Ha He];
  unfold wait_queue, handoff, done_count in *.

Ltac inv_split H :=
  inv_fields H; constructor; unfold wait_queue, handoff, done_count; fields.

Ltac trace_nil :=
  unfold arrivals, elected, served in *; cbn [omap list_omap app];
  rewrite ?omap_app; cbn [omap list_omap app]; rewrite ?app_nil_r.

Ltac solve_dequeue :=
  intros ?; rewrite ?elem_of_cons, ?elem_of_nil;
  intuition (try discriminate; try congruence; auto).

(** Tests turned into the facts they decide. *)
Ltac bool_facts :=
  repeat match goal with
  | H : (_ && _) = true |- _ => apply andb_true_iff in H as [? ?]
  | H : (_ || _) = false |- _ => apply orb_false_iff in H as [? ?]
  | H : negb _ = true |- _ => apply negb_true_iff in H
  | H : negb _ = false |- _ => apply negb_false_iff in H
  | H : (_ =? _) = true |- _ => apply Z.eqb_eq in H
  | H : (_ =? _) = false |- _ => apply Z.eqb_neq in H
  | H : (_ <? _) = true |- _ => apply Z.ltb_lt in H
  | H : (_ <? _) = false |- _ => apply Z.ltb_ge in H
  | H : (_ <=? _) = true |- _ => apply Z.leb_le in H
  | H : (_ <=? _) = false |- _ => apply Z.leb_gt in H
  end.

Lemma done_count_le c : 0 ≤ producer_count c → done_count c ≤ producer_count c.
Proof.
  intros Hc. unfold done_count.
  pose proof (length_filter (λ p, done p = true)
    (take (Z.to_nat (producer_count c)) (producers c))) as Hf.
  rewrite length_take in Hf. lia.
Qed.

Lemma size_max_eq : SIZE_MAX = 18446744073709551615.
Proof. reflexivity. Qed.

Lemma mpsc_register_producer_inv arr ele srv cb ctx code c r c' evs :
  chan_inv arr ele srv c →
  mpsc_register_producer cb ctx code c = Ret r c' evs →
  chan_inv (arr ++ arrivals evs) (ele ++ elected evs) (srv ++ served evs) c'
  ∧ producer_count c'
    = match r with
      | MPSC_REGISTER_PRODUCER_ERROR_NONE => producer_count c + 1
      | _ => producer_count c
      end
  ∧ served evs = [].
Proof.
  intros Hinv. rewrite mpsc_register_producer_unfold. cbv zeta.
  pose proof size_max_eq.
  repeat case_if; intros [= <- <- <-]; trace_nil; try done.
  - assert (producer_count c < n_max_producers c)
      by (inv_fields Hinv; lia).
    assert (size_wrap (producer_count c + 1) = producer_count c + 1) as ->
      by (apply size_wrap_small; inv_fields Hinv; lia).
    split; [| done].
    pose proof (done_count_le c ltac:(inv_fields Hinv; lia)) as Hle.
    rewrite <- (inv_done_count _ _ _ _ Hinv) in Hle.
    inv_split Hinv; try done; try lia.
    + by rewrite length_insert.
    + replace (Z.to_nat (producer_count c + 1))
        with (S (Z.to_nat (producer_count c))) by lia.
      rewrite take_S_insert by lia.
      rewrite filter_app, length_app. rewrite filter_cons_False by done.
      rewrite filter_nil. cbn [length]. lia.
  - split; [| done].
    inv_split Hinv; try done.
    + by rewrite length_insert.
    + by rewrite take_insert_ge by lia.
Qed.

Lemma mpsc_join_inv arr ele srv tid c r c' evs :
  chan_inv arr ele srv c →
  mpsc_join tid c = Ret r c' evs →
  chan_inv (arr ++ arrivals evs) (ele ++ elected evs) (srv ++ served evs) c'
  ∧ producer_count c' = producer_count c
  ∧ served evs = [].
Proof.
  intros Hinv. rewrite mpsc_join_unfold.
  repeat case_if; intros [= <- <- <-]; trace_nil; bool_facts;
    (split; [by inv_split Hinv | done]).
Qed.

Lemma mpsc_join_resume_inv arr ele srv c r c' evs :
  chan_inv arr ele srv c →
  mpsc_join_resume c = Ret r c' evs →
  chan_inv (arr ++ arrivals evs) (ele ++ elected evs) (srv ++ served evs) c'
  ∧ producer_count c' = producer_count c
  ∧ served evs = [].
Proof.
  intros Hinv. rewrite mpsc_join_resume_unfold.
  intros [= <- <- <-]; trace_nil. split; [by inv_split Hinv | done].
Qed.

Lemma mpsc_consumer_close_inv arr ele srv c r c' evs :
  chan_inv arr ele srv c →
  mpsc_consumer_close c = Ret r c' evs →
  chan_inv (arr ++ arrivals evs) (ele ++ elected evs) (srv ++ served evs) c'
  ∧ producer_count c' = producer_count c
  ∧ served evs = [].
Proof.
  intros Hinv. rewrite mpsc_consumer_close_unfold.
  intros [= <- <- <-].
  destruct (queue_events_signals
    (λ i, ProducerCondVar (producer_waiting_ids_queue c !!! Z.to_nat i))
    (seqZ 0 (n_producers_waiting c))) as (Hx & Hy & Hz).
  unfold arrivals, elected, served in *. cbn [omap list_omap].
  rewrite !omap_app, Hx, Hy, Hz. cbn [omap list_omap app].
  rewrite !app_nil_r. split; [by inv_split Hinv | done].
Qed.

Lemma mpsc_producer_ping_inv arr ele srv c r c' evs :
  chan_inv arr ele srv c →
  mpsc_producer_ping c = Ret r c' evs →
  chan_inv (arr ++ arrivals evs) (ele ++ elected evs) (srv ++ served evs) c'
  ∧ producer_count c' = producer_count c
  ∧ served evs = [].
Proof.
  intros Hinv. rewrite mpsc_producer_ping_unfold.
  by intros [= <- <- <-]; trace_nil.
Qed.

Lemma mpsc_producer_done_inv arr ele srv self c r c' evs :
  chan_inv arr ele srv c →
  0 ≤ self < producer_count c →
  mpsc_producer_done self c = Ret r c' evs →
  chan_inv (arr ++ arrivals evs) (ele ++ elected evs) (srv ++ served evs) c'
  ∧ producer_count c' = producer_count c
  ∧ served evs = [].
Proof.
  intros Hinv Hself. rewrite mpsc_producer_done_unfold. cbv zeta. fields.
  pose proof size_max_eq.
  destruct (negb (done (producers c !!! Z.to_nat self))) eqn:Hd;
    [| by intros [= <- <- <-]; trace_nil].
  apply negb_true_iff in Hd.
  assert (done_count
            (set_producers
               (<[Z.to_nat self := set_done true (producers c !!! Z.to_nat self)]>
                  (producers c)) c) = done_count c + 1) as Hcount.
  { inv_fields Hinv. fields. rewrite take_insert_lt by lia.
    assert (Z.to_nat self < length (take (Z.to_nat (producer_count c)) (producers c)))%nat
      as Hlt by (rewrite length_take; lia).
    rewrite <- (lookup_total_take_lt (producers c) (Z.to_nat (producer_count c))) by lia.
    rewrite filter_done_insert; [lia | done |].
    by rewrite lookup_total_take_lt by lia. }
  assert (done_count c + 1 ≤ producer_count c) as Hle.
  { rewrite <- Hcount. unfold done_count. fields.
    pose proof (length_filter (λ p, done p = true)
      (take (Z.to_nat (producer_count c))
         (<[Z.to_nat self := set_done true (producers c !!! Z.to_nat self)]>
            (producers c)))) as Hf.
    rewrite length_take in Hf. lia. }
  assert (size_wrap (n_producers_closed c + 1) = done_count c + 1) as ->.
  { rewrite (inv_done_count _ _ _ _ Hinv). apply size_wrap_small.
    inv_fields Hinv. lia. }
  unfold done_count in Hcount, Hle. fields_in Hcount.
  destruct ((done_count c + 1 =? producer_count c) && joined c) eqn:Hall;
    intros [= <- <- <-]; trace_nil;
    (split; [| done]); inv_split Hinv;
    try done; try (by rewrite length_insert); try lia.
  intros Hjoined Heq. rewrite Hjoined, andb_true_r in Hall.
  unfold done_count in Hall. lia.
Qed.

Lemma mpsc_producer_subscribe_to_wait_queue_inv arr ele srv self c id c' evs :
  chan_inv arr ele srv c →
  mpsc_producer_subscribe_to_wait_queue self c = Ret id c' evs →
  id = self ∧ 0 ≤ self < n_max_producers c
  ∧ evs = [EvEnqueue self]
  ∧ chan_inv (arr ++ [self]) ele srv c'
  ∧ producer_count c' = producer_count c
  ∧ closed c' = closed c
  ∧ next_waiting_producer_id c' = next_waiting_producer_id c.
Proof.
  intros Hinv. rewrite mpsc_producer_subscribe_to_wait_queue_unfold. cbv zeta.
  pose proof size_max_eq as HM.
  destruct (find _ _) as [i|] eqn:Hfind; [| done].
  apply find_seqZ_inv in Hfind as [-> Hself].
  assert (to_ssize self = self) as ->
    by (apply to_ssize_small; unfold SSIZE_MAX; inv_fields Hinv; lia).
  assert (size_wrap self = self) as ->
    by (apply size_wrap_small; inv_fields Hinv; lia).
  destruct (Z.eqb_spec self (-1)); [lia |].
  destruct (Z.eqb_spec (n_producers_waiting c) (n_max_producers c)); [done |].
  assert (size_wrap (n_producers_waiting c + 1) = n_producers_waiting c + 1) as ->
    by (apply size_wrap_small; inv_fields Hinv; lia).
  intros [= <- <- <-]. do 3 (split; [done |]). split; [| done].
  assert (take (Z.to_nat (n_producers_waiting c + 1))
            (<[Z.to_nat (n_producers_waiting c) := self]>
               (producer_waiting_ids_queue c))
          = wait_queue c ++ [self]) as Hq.
  { unfold wait_queue.
    replace (Z.to_nat (n_producers_waiting c + 1))
      with (S (Z.to_nat (n_producers_waiting c)))
      by (inv_fields Hinv; lia).
    apply take_S_insert. inv_fields Hinv. lia. }
  inv_split Hinv; rewrite ?Hq; try done; try lia.
  - by rewrite length_insert.
  - apply Forall_app. split; [done |]. by apply Forall_singleton.
  - destruct Hh as [? | Hh]; [by left | right].
    rewrite head_app. unfold wait_queue. by rewrite Hh.
  - by rewrite Ha, app_assoc.
Qed.

Lemma shifted_wait_queue (q : list Z) (k : Z) :
  0 < k → (Z.to_nat k ≤ length q)%nat →
  let q' := foldl (λ q i, <[Z.to_nat i := q !!! Z.to_nat (i + 1)]> q) q
              (seqZ 0 (k - 1)) in
  take (Z.to_nat (k - 1)) q' = drop 1 (take (Z.to_nat k) q)
  ∧ length q' = length q.
Proof.
  intros Hk Hlen q'. subst q'. rewrite shift_loop_list.
  rewrite shift_list by lia.
  assert (length (take (Z.to_nat (k - 1)) (drop 1 q)) = Z.to_nat (k - 1)) as Hl
    by (rewrite length_take, length_drop; lia).
  split.
  - rewrite take_app_le by lia. rewrite take_take, Nat.min_id.
    rewrite take_drop_commute. by replace (1 + Z.to_nat (k - 1))%nat
      with (Z.to_nat k) by lia.
  - rewrite length_app, Hl, length_drop. lia.
Qed.

Lemma mpsc_shift_producer_wait_queue_inv arr ele srv id c r c' evs :
  chan_inv arr ele srv c →
  next_waiting_producer_id c = id → id ≠ -1 →
  mpsc_shift_producer_wait_queue c = Ret r c' evs →
  evs = [EvDequeue id]
  ∧ chan_inv arr ele (srv ++ [id]) c'
  ∧ next_waiting_producer_id c' = -1
  ∧ producer_count c' = producer_count c.
Proof.
  intros Hinv Hnext Hid. rewrite mpsc_shift_producer_wait_queue_unfold.
  pose proof size_max_eq as HM.
  destruct (inv_handoff _ _ _ _ Hinv) as [? | Hhead]; [congruence |].
  rewrite Hnext in Hhead.
  destruct (wait_queue_head_total c id Hhead) as (Hpos & Hq0 & Hwq).
  destruct (Z.eqb_spec (n_producers_waiting c) 0); [lia |].
  assert (size_wrap (n_producers_waiting c - 1) = n_producers_waiting c - 1) as ->
    by (apply size_wrap_small; inv_fields Hinv; lia).
  rewrite Hq0. intros [= <- <- <-]. split; [done |].
  destruct (shifted_wait_queue (producer_waiting_ids_queue c)
              (n_producers_waiting c) Hpos) as [Htake Hlen];
    [inv_fields Hinv; lia |].
  split; [| done].
  assert (Forall (λ x, 0 ≤ x < n_max_producers c) (drop 1 (wait_queue c)))
    by (apply Forall_drop, Hinv).
  inv_split Hinv; rewrite ?Htake; try done; try lia.
  all: try (by left).
  - rewrite Ha, Hwq at 1. by rewrite <- app_assoc.
  - rewrite He, Hnext. destruct (Z.eqb_spec id (-1)); [done |].
    by rewrite app_nil_r.
Qed.

Lemma send_deposit_inv arr ele srv data len c r c' evs :
  chan_inv arr ele srv c →
  next_waiting_producer_id c = -1 →
  send_deposit data len c = Ret r c' evs →
  r = SendReturned true
  ∧ evs = [EvSignal MainCondVar; EvUnlock]
  ∧ chan_inv arr ele srv c'
  ∧ producer_count c' = producer_count c.
Proof.
  intros Hinv Hnext. rewrite send_deposit_unfold. intros [= <- <- <-].
  do 2 (split; [done |]).
  destruct (0 <? len); (split; [by inv_split Hinv | done]).
Qed.

Lemma send_wait_loop_inv arr ele srv id data len c r c' evs :
  chan_inv arr ele srv c →
  0 ≤ id < n_max_producers c →
  send_wait_loop id data len c = Ret r c' evs →
  chan_inv (arr ++ arrivals evs) (ele ++ elected evs) (srv ++ served evs) c'
  ∧ producer_count c' = producer_count c
  ∧ (∀ id', r = SendWaiting id' → id' = id)
  ∧ (∀ id', EvDequeue id' ∈ evs → id' = id).
Proof.
  intros Hinv Hid. rewrite send_wait_loop_unfold.
  assert (to_ssize id = id) as ->
    by (apply to_ssize_small; unfold SSIZE_MAX; pose proof size_max_eq;
        inv_fields Hinv; lia).
  destruct (negb (closed c) && negb (next_waiting_producer_id c =? id)) eqn:Hloop.
  { intros [= <- <- <-]; trace_nil. split_and!; try done.
    - by intros ? [= <-].
    - solve_dequeue. }
  destruct (closed c) eqn:Hclosed.
  { intros [= <- <- <-]; trace_nil. split_and!; try done.
    solve_dequeue. }
  cbn in Hloop. apply negb_false_iff, Z.eqb_eq in Hloop.
  destruct (mpsc_shift_producer_wait_queue c) as [[] c1 e1|] eqn:Hshift; [| done].
  destruct (mpsc_shift_producer_wait_queue_inv _ _ _ id _ _ _ _ Hinv Hloop
              ltac:(lia) Hshift) as (-> & Hinv1 & Hnext1 & Hcount1).
  destruct (send_deposit data len c1) as [r2 c2 e2|] eqn:Hdep; [| done].
  destruct (send_deposit_inv _ _ _ _ _ _ _ _ _ Hinv1 Hnext1 Hdep)
    as (-> & -> & Hinv2 & Hcount2).
  intros [= <- <- <-]. cbn [app]. trace_nil.
  split_and!; try done; try congruence.
  solve_dequeue.
Qed.

Lemma mpsc_producer_send_inv arr ele srv self data len c r c' evs :
  chan_inv arr ele srv c →
  mpsc_producer_send self data len c = Ret r c' evs →
  chan_inv (arr ++ arrivals evs) (ele ++ elected evs) (srv ++ served evs) c'
  ∧ producer_count c' = producer_count c
  ∧ (∀ id', r = SendWaiting id' → id' = self)
  ∧ (∀ id', EvDequeue id' ∈ evs → id' = self).
Proof.
  intros Hinv. rewrite mpsc_producer_send_unfold.
  destruct (buffer_size c <? len); [done |].
  destruct (closed c) eqn:Hclosed.
  { intros [= <- <- <-]; trace_nil. split_and!; try done.
    solve_dequeue. }
  destruct (pending_message c || negb (next_waiting_producer_id c =? -1))
    eqn:Hbusy.
  - destruct (mpsc_producer_subscribe_to_wait_queue self c)
      as [id c1 e1|] eqn:Hsub; [| done].
    destruct (mpsc_producer_subscribe_to_wait_queue_inv _ _ _ _ _ _ _ _ Hinv Hsub)
      as (-> & Hself & -> & Hinv1 & Hcount1 & Hclosed1 & Hnext1).
    destruct (send_wait_loop self data len c1) as [r2 c2 e2|] eqn:Hloop; [| done].
    assert (0 ≤ self < n_max_producers c1) as Hself1.
    { rewrite mpsc_producer_subscribe_to_wait_queue_unfold in Hsub.
      cbv zeta in Hsub. repeat case_match; try done.
      by injection Hsub as _ <- _. }
    destruct (send_wait_loop_inv _ _ _ _ _ _ _ _ _ _ Hinv1 Hself1 Hloop)
      as (Hinv2 & Hcount2 & Hid & Hdeq).
    intros [= <- <- <-]. trace_nil. rewrite <- (app_assoc arr) in Hinv2.
    split_and!; try done; try congruence. solve_dequeue.
  - apply orb_false_iff in Hbusy as [_ Hnext].
    apply negb_false_iff, Z.eqb_eq in Hnext.
    destruct (send_deposit data len c) as [r2 c2 e2|] eqn:Hdep; [| done].
    destruct (send_deposit_inv _ _ _ _ _ _ _ _ _ Hinv Hnext Hdep)
      as (-> & -> & Hinv2 & Hcount2).
    intros [= <- <- <-]. trace_nil. split_and!; try done.
    solve_dequeue.
Qed.

Lemma mpsc_producer_send_resume_inv arr ele srv id data len c r c' evs :
  chan_inv arr ele srv c →
  0 ≤ id < n_max_producers c →
  mpsc_producer_send_resume id data len c = Ret r c' evs →
  chan_inv (arr ++ arrivals evs) (ele ++ elected evs) (srv ++ served evs) c'
  ∧ producer_count c' = producer_count c
  ∧ (∀ id', r = SendWaiting id' → id' = id)
  ∧ (∀ id', EvDequeue id' ∈ evs → id' = id).
Proof.
  intros Hinv Hid. rewrite mpsc_producer_send_resume_unfold.
  destruct (send_wait_loop id data len c) as [r2 c2 e2|] eqn:Hloop; [| done].
  destruct (send_wait_loop_inv _ _ _ _ _ _ _ _ _ _ Hinv Hid Hloop)
    as (Hinv2 & Hcount2 & Hid2 & Hdeq).
  intros [= <- <- <-]. trace_nil. split_and!; try done. solve_dequeue.
Qed.

Lemma consumer_loop_body_inv arr ele srv heap c r c' evs :
  chan_inv arr ele srv c →
  consumer_loop_body heap c = Ret r c' evs →
  chan_inv (arr ++ arrivals evs) (ele ++ elected evs) (srv ++ served evs) c'
  ∧ producer_count c' = producer_count c
  ∧ served evs = [].
Proof.
  intros Hinv. rewrite consumer_loop_body_unfold.
  destruct (negb (pending_message c) && negb (closed c)) eqn:Hidle;
    [by intros [= <- <- <-]; trace_nil |].
  destruct (closed c && negb (pending_message c)) eqn:Hend;
    [by intros [= <- <- <-]; trace_nil |].
  assert (pending_message c = true) as Hpending
    by (destruct (pending_message c), (closed c); done).
  pose proof (inv_pending _ _ _ _ Hinv Hpending) as Hnext.
  assert (∀ data, ∀ r c' evs,
    consumer_deliver data (n c) c = Ret r c' evs →
    chan_inv (arr ++ arrivals evs) (ele ++ elected evs) (srv ++ served evs) c'
    ∧ producer_count c' = producer_count c ∧ served evs = []) as Hdeliver.
  { clear r c' evs. intros data r c' evs.
    rewrite consumer_deliver_unfold. cbv zeta.
    destruct ((0 <? n_producers_waiting c) && negb (closed c)) eqn:Helect;
      intros [= <- <- <-]; trace_nil; (split; [| done]).
    - apply andb_true_iff in Helect as [Hpos _]. apply Z.ltb_lt in Hpos.
      destruct (wait_queue_nonempty_head _ _ _ _ Hinv Hpos) as [Hhead Hrange].
      assert (to_ssize (producer_waiting_ids_queue c !!! 0%nat)
              = producer_waiting_ids_queue c !!! 0%nat) as ->
        by (apply to_ssize_small; unfold SSIZE_MAX; pose proof size_max_eq;
            inv_fields Hinv; lia).
      unfold wait_queue in Hhead.
      inv_split Hinv; try done.
      + by right.
      + rewrite He, Hnext. cbn.
        destruct (Z.eqb_spec (producer_waiting_ids_queue c !!! 0%nat) (-1));
          [lia |]. by rewrite app_nil_r.
    - by inv_split Hinv. }
  destruct (0 <? n c); [| apply Hdeliver].
  destruct heap as [|e].
  - destruct (consumer_deliver _ _ _) as [r2 c2 e2|] eqn:Hd; [| done].
    destruct (Hdeliver _ _ _ _ Hd) as (Hinv2 & Hcount2 & Hs2).
    by intros [= <- <- <-]; trace_nil.
  - destruct (error_handling_enabled c && (e =? ENOMEM)); [| done].
    intros [= <- <- <-]; trace_nil. split; [| done].
    by inv_split Hinv.
Qed.

(** ** Construction returns the channel described by its parameters *)

Lemma M_bind_inv {S A B} (m : M S A) (k : A → M S B) s b s2 e :
  (m ≫= k) s = Ret b s2 e →
  ∃ a s1 e1 e2, m s = Ret a s1 e1 ∧ k a s1 = Ret b s2 e2 ∧ e = e1 ++ e2.
Proof.
  rewrite M_bind_eq. destruct (m s) as [a s1 e1|]; [| done].
  destruct (k a s1) as [b' s2' e2|] eqn:Hk; [| done].
  intros [= <- <- <-]. by exists a, s1, e1, e2.
Qed.

Lemma returns_only_bind {A} x (m : M creation A) k :
  (∀ a, returns_only x (k a)) → returns_only x (m ≫= k).
Proof.
  intros Hk s r s' e Hrun.
  apply M_bind_inv in Hrun as (a & s1 & e1 & e2 & _ & Hrun & _).
  by eapply Hk.
Qed.

Lemma returns_only_if x (b : bool) m1 m2 :
  returns_only x m1 → returns_only x m2 →
  returns_only x (if b then m1 else m2).
Proof. by destruct b. Qed.

Lemma returns_only_handler x type index :
  returns_only x (mpsc_handle_creation_failure type index).
Proof.
  unfold mpsc_handle_creation_failure.
  repeat (apply returns_only_bind; intros ?).
  by intros s r s' e [=].
Qed.

Lemma returns_only_init_producer_condition_variables x env handle_errors l rest :
  returns_only x rest →
  returns_only x (init_producer_condition_variables env handle_errors l rest).
Proof.
  intros Hrest. induction l as [|i l IH]; [done |].
  cbn [init_producer_condition_variables].
  apply returns_only_bind. intros ok.
  apply returns_only_if; [apply returns_only_handler | done].
Qed.

Lemma returns_only_allocate x env handle_errors block store rest :
  returns_only x rest →
  returns_only x (allocate env handle_errors block store rest).
Proof.
  intros Hrest. unfold allocate.
  apply returns_only_bind. intros ok. apply returns_only_bind. intros _.
  apply returns_only_if; [apply returns_only_handler | done].
Qed.

Lemma mpsc_create_returns params env c0 st c log :
  mpsc_create params env c0 = Ret (Some st) c log →
  st = created_channel params env.
Proof.
  revert c0 st c log. change (returns_only (created_channel params env)
                                (mpsc_create params env)).
  unfold mpsc_create. cbv zeta.
  apply returns_only_bind. intros _. apply returns_only_bind. intros ok.
  apply returns_only_if; [apply returns_only_handler |].
  apply returns_only_bind. intros _. apply returns_only_bind. intros _.
  do 5 apply returns_only_allocate. unfold create_primitives. cbv zeta.
  apply returns_only_bind. intros ok1.
  apply returns_only_if; [apply returns_only_handler |].
  apply returns_only_init_producer_condition_variables.
  apply returns_only_bind. intros ok2.
  apply returns_only_if; [apply returns_only_handler |].
  apply returns_only_bind. intros ok3.
  apply returns_only_if; [apply returns_only_handler |].
  by intros s r s' e [= <-].
Qed.

Lemma created_channel_inv params env :
  valid_params params → chan_inv [] [] [] (created_channel params env).
Proof.
  intros (Hb & Hn & Hfit).
  constructor; unfold wait_queue, handoff, done_count; cbn;
    rewrite ?length_fmap, ?length_seqZ; try done; try lia; by left.
Qed.

(** ** The invariant of the system *)

Lemma snd_tagged (t : thread) (evs : list event) :
  ((λ e, (t, e)) <$> evs).*2 = evs.
Proof. induction evs as [|e evs IH]; [done |]. cbn. by rewrite IH. Qed.

Lemma served_nil_not_in (evs : list event) (h : Z) :
  served evs = [] → EvDequeue h ∉ evs.
Proof.
  induction evs as [|e evs IH]; [intros _; apply not_elem_of_nil |].
  unfold served in *. cbn [omap list_omap].
  intros Hs [Heq | Hin]%elem_of_cons; [by subst e |].
  destruct e; try done; by apply IH.
Qed.

Lemma producer_status_lookup s id st :
  producer_status s id = Some st →
  0 ≤ id ∧ producer_threads s !! Z.to_nat id = Some st
  ∧ (Z.to_nat id < length (producer_threads s))%nat.
Proof.
  unfold producer_status. destruct (Z.leb_spec 0 id); [| done].
  intros Hl. split; [done |]. split; [done |]. by eapply lookup_lt_Some.
Qed.

Lemma sys_inv_step tr s t evs c' m' k' threads' :
  sys_inv tr s →
  chan_inv (arrivals tr.*2 ++ arrivals evs) (elected tr.*2 ++ elected evs)
    (served tr.*2 ++ served evs) c' →
  length threads' = Z.to_nat (producer_count c') →
  (∀ i id data len,
     threads' !! i = Some (ProducerAsleep id data len) → id = Z.of_nat i) →
  (∀ id, EvDequeue id ∈ evs → t = ProducerThread id) →
  sys_inv (tr ++ ((λ e, (t, e)) <$> evs)) (MkSystem c' m' k' threads').
Proof.
  intros [Hc Hlen Hsleep Hserved] Hc' Hlen' Hsleep' Hserved'.
  constructor; cbn [chan producer_threads].
  - by rewrite fmap_app, snd_tagged, arrivals_app, elected_app, served_app.
  - done.
  - done.
  - intros t' id. rewrite elem_of_app, list_elem_of_fmap.
    intros [Hin | (e & [= -> <-] & Hin)]; [by apply Hserved | by apply Hserved'].
Qed.

Lemma asleep_insert (threads : list producer_thread_status) (k : nat) st :
  (∀ i id data len,
     threads !! i = Some (ProducerAsleep id data len) → id = Z.of_nat i) →
  (∀ id data len, st = ProducerAsleep id data len → id = Z.of_nat k) →
  ∀ i id data len,
    <[k := st]> threads !! i = Some (ProducerAsleep id data len) →
    id = Z.of_nat i.
Proof.
  intros Hold Hnew i id data len.
  destruct (decide (k = i)) as [<- | Hne].
  - destruct (decide (k < length threads)%nat) as [Hlt | Hge].
    + rewrite list_lookup_insert_eq by done. intros [= ->]. by eapply Hnew.
    + rewrite list_insert_ge by lia. apply Hold.
  - rewrite list_lookup_insert_ne by done. apply Hold.
Qed.

Lemma after_send_asleep id data len r :
  0 ≤ id →
  (∀ id', r = SendWaiting id' → id' = id) →
  ∀ id' data' len',
    after_send id data len r = ProducerAsleep id' data' len' →
    id' = Z.of_nat (Z.to_nat id).
Proof.
  intros Hid Hr id' data' len'. destruct r as [b | id'']; [done |].
  cbn. intros [= <- _ _]. rewrite (Hr id'') by done. lia.
Qed.

Lemma run_inv tr s a evs s' :
  sys_inv tr s →
  run a s = Some (evs, s') →
  sys_inv (tr ++ ((λ e, (actor a, e)) <$> evs)) s'.
Proof.
  intros Hinv. pose proof Hinv as [Hc Hlen Hsleep Hserved].
  destruct a as [caller cb ctx code | tid | | heap | heap | | | id data len
                | id | id | id]; cbn [run actor].
  - (* register *)
    destruct (can_call s caller); [| done].
    destruct (mpsc_register_producer cb ctx code (chan s))
      as [r c' e'|] eqn:Hrun; [| done].
    destruct (mpsc_register_producer_inv _ _ _ _ _ _ _ _ _ _ Hc Hrun)
      as (Hc' & Hcount & Hs).
    pose proof (inv_producer_count _ _ _ _ Hc).
    intros [= <- <-].
    destruct r; unfold set_chan;
      (eapply sys_inv_step; [done | done | | |
         by intros ? ?%(served_nil_not_in _ _ Hs)]);
      cbn [chan producer_threads]; rewrite ?Hcount; try done.
    + rewrite length_app, Hlen. cbn. lia.
    + intros i id data len [Hl | [_ Hl]]%lookup_app_Some; [by eapply Hsleep |].
      by destruct (i - length (producer_threads s))%nat as [|[|?]].
  - (* join *)
    destruct (can_call s MainThread); [| done].
    destruct (mpsc_join tid (chan s)) as [r c' e'|] eqn:Hrun; [| done].
    destruct (mpsc_join_inv _ _ _ _ _ _ _ _ Hc Hrun) as (Hc' & Hcount & Hs).
    intros [= <- <-]. unfold set_chan, set_main_thread. fields.
    eapply sys_inv_step; rewrite ?Hcount; try done.
    by intros ? ?%(served_nil_not_in _ _ Hs).
  - (* join, after the consumer thread *)
    destruct (main_thread s); try done. destruct (consumer_thread s); try done.
    destruct (mpsc_join_resume (chan s)) as [r c' e'|] eqn:Hrun; [| done].
    destruct (mpsc_join_resume_inv _ _ _ _ _ _ _ Hc Hrun) as (Hc' & Hcount & Hs).
    intros [= <- <-]. unfold set_chan, set_main_thread. fields.
    eapply sys_inv_step; rewrite ?Hcount; try done.
    by intros ? ?%(served_nil_not_in _ _ Hs).
  - (* consumer, from the top of the loop *)
    destruct (consumer_thread s); try done.
    rewrite my_consumer_thread_callback_unfold.
    destruct (consumer_loop_body heap (chan s)) as [r c' e'|] eqn:Hrun; [| done].
    destruct (consumer_loop_body_inv _ _ _ _ _ _ _ _ Hc Hrun)
      as (Hc' & Hcount & Hs).
    intros [= <- <-]. unfold set_chan, set_consumer_thread. fields.
    eapply sys_inv_step; rewrite ?Hcount; try done.
    intros ? [[=] | ?%(served_nil_not_in _ _ Hs)]%elem_of_cons. done.
  - (* consumer, from its sleep *)
    destruct (consumer_thread s); try done.
    rewrite my_consumer_thread_callback_resume_unfold.
    destruct (consumer_loop_body heap (chan s)) as [r c' e'|] eqn:Hrun; [| done].
    destruct (consumer_loop_body_inv _ _ _ _ _ _ _ _ Hc Hrun)
      as (Hc' & Hcount & Hs).
    intros [= <- <-]. unfold set_chan, set_consumer_thread. fields.
    eapply sys_inv_step; rewrite ?Hcount; try done.
    intros ? [[=] | ?%(served_nil_not_in _ _ Hs)]%elem_of_cons. done.
  - (* the application's callback returns *)
    destruct (consumer_thread s); try done.
    intros [= <- <-]. unfold set_consumer_thread.
    eapply sys_inv_step; try done.
    + trace_nil. by destruct Hinv.
    + intros ? []%elem_of_nil.
  - (* close *)
    destruct (can_call s ConsumerThread); [| done].
    destruct (mpsc_consumer_close (chan s)) as [r c' e'|] eqn:Hrun; [| done].
    destruct (mpsc_consumer_close_inv _ _ _ _ _ _ _ Hc Hrun) as (Hc' & Hcount & Hs).
    intros [= <- <-]. unfold set_chan. fields.
    eapply sys_inv_step; rewrite ?Hcount; try done.
    by intros ? ?%(served_nil_not_in _ _ Hs).
  - (* send *)
    destruct (can_call s (ProducerThread id) && send_arguments_ok data len)
      eqn:Hcall; [| done].
    apply andb_true_iff in Hcall as [Hcall _]. cbn in Hcall.
    destruct (producer_status s id) as [st|] eqn:Hst; [| done].
    apply producer_status_lookup in Hst as (Hid & Hst & Hlt).
    destruct (mpsc_producer_send id data len (chan s))
      as [r c' e'|] eqn:Hrun; [| done].
    destruct (mpsc_producer_send_inv _ _ _ _ _ _ _ _ _ _ Hc Hrun)
      as (Hc' & Hcount & Hr & Hd).
    intros [= <- <-]. unfold set_chan, set_producer_status. fields.
    eapply sys_inv_step; rewrite ?Hcount; try done.
    + by rewrite length_insert.
    + apply asleep_insert; [done |]. by apply after_send_asleep.
    + by intros ? ->%Hd.
  - (* send, from its sleep *)
    destruct (producer_status s id) as [[| id' data len |]|] eqn:Hst; try done.
    apply producer_status_lookup in Hst as (Hid & Hst & Hlt).
    pose proof (Hsleep _ _ _ _ Hst) as Hid'.
    assert (id' = id) as -> by lia.
    destruct (mpsc_producer_send_resume id data len (chan s))
      as [r c' e'|] eqn:Hrun; [| done].
    pose proof (inv_producer_count _ _ _ _ Hc).
    assert (0 ≤ id < n_max_producers (chan s)) as Hrange by lia.
    destruct (mpsc_producer_send_resume_inv _ _ _ _ _ _ _ _ _ _ Hc
                Hrange Hrun) as (Hc' & Hcount & Hr & Hd).
    intros [= <- <-]. unfold set_chan, set_producer_status. fields.
    eapply sys_inv_step; rewrite ?Hcount; try done.
    + by rewrite length_insert.
    + apply asleep_insert; [done |]. by apply after_send_asleep.
    + by intros ? ->%Hd.
  - (* ping *)
    destruct (can_call s (ProducerThread id)); [| done].
    destruct (mpsc_producer_ping (chan s)) as [r c' e'|] eqn:Hrun; [| done].
    destruct (mpsc_producer_ping_inv _ _ _ _ _ _ _ Hc Hrun) as (Hc' & Hcount & Hs).
    intros [= <- <-]. unfold set_chan. fields.
    eapply sys_inv_step; rewrite ?Hcount; try done.
    by intros ? ?%(served_nil_not_in _ _ Hs).
  - (* the producer's callback returns *)
    destruct (can_call s (ProducerThread id)) eqn:Hcall; [| done].
    cbn in Hcall.
    destruct (producer_status s id) as [st|] eqn:Hst; [| done].
    apply producer_status_lookup in Hst as (Hid & Hst & Hlt).
    destruct (mpsc_producer_done id (chan s)) as [r c' e'|] eqn:Hrun; [| done].
    assert (0 ≤ id < producer_count (chan s)) as Hrange by lia.
    destruct (mpsc_producer_done_inv _ _ _ _ _ _ _ _ Hc Hrange Hrun)
      as (Hc' & Hcount & Hs).
    intros [= <- <-]. unfold set_chan, set_producer_status. fields.
    eapply sys_inv_step; rewrite ?Hcount; try done.
    + by rewrite length_insert.
    + apply asleep_insert; [done |]. done.
    + by intros ? ?%(served_nil_not_in _ _ Hs).
Qed.

Lemma execution_inv tr s : execution tr s → sys_inv tr s.
Proof.
  induction 1 as [params env e0 c log st Hvalid Hcreate | tr s a evs s' _ IH Hrun].
  - apply mpsc_create_returns in Hcreate as ->.
    constructor; cbn; try done.
    + by apply created_channel_inv.
    + intros ? ? []%elem_of_nil.
  - by eapply run_inv.
Qed.

(** ** Who elects *)

(** An event of one kind is not in a list of events of other kinds. *)
Ltac not_elected :=
  repeat first
    [ rewrite elem_of_app | rewrite elem_of_cons | rewrite elem_of_nil
    | rewrite list_elem_of_fmap ];
  let H := fresh "Hin" in
  intros H;
  repeat first
    [ discriminate H
    | destruct H as [H | H]
    | destruct H as (? & H & ?)
    | destruct H ].

Lemma send_wait_loop_elects_nobody id data len c r c' evs h :
  send_wait_loop id data len c = Ret r c' evs → EvElect h ∉ evs.
Proof.
  rewrite send_wait_loop_unfold.
  destruct (negb (closed c) && _); [intros [= <- <- <-]; not_elected |].
  destruct (closed c); [intros [= <- <- <-]; not_elected |].
  rewrite mpsc_shift_producer_wait_queue_unfold.
  destruct (n_producers_waiting c =? 0); [done |].
  rewrite send_deposit_unfold. intros [= <- <- <-]. not_elected.
Qed.

Lemma elections_by_consumer a s evs s' h :
  run a s = Some (evs, s') → EvElect h ∈ evs → actor a = ConsumerThread.
Proof.
  destruct a as [caller cb ctx code | tid | | heap | heap | | | id data len
                | id | id | id]; cbn [run actor]; try done; intros Hrun Hin;
    exfalso; revert Hrun Hin.
  - destruct (can_call s caller); [| done].
    rewrite mpsc_register_producer_unfold. cbv zeta.
    repeat case_if; intros [= <- <-]; not_elected.
  - destruct (can_call s MainThread); [| done].
    rewrite mpsc_join_unfold.
    repeat case_if; intros [= <- <-]; not_elected.
  - destruct (main_thread s); try done. destruct (consumer_thread s); try done.
    rewrite mpsc_join_resume_unfold. intros [= <- <-]. not_elected.
  - destruct (can_call s (ProducerThread id) && send_arguments_ok data len);
      [| done].
    rewrite mpsc_producer_send_unfold.
    destruct (buffer_size (chan s) <? len); [done |].
    destruct (closed (chan s)); [intros [= <- <-]; not_elected |].
    destruct (pending_message (chan s) || _).
    + rewrite mpsc_producer_subscribe_to_wait_queue_unfold. cbv zeta.
      repeat case_if; try done.
      destruct (send_wait_loop _ _ _ _) as [r c2 e2|] eqn:Hloop; [| done].
      pose proof (send_wait_loop_elects_nobody _ _ _ _ _ _ _ h Hloop).
      intros [= <- <-]. cbn [app]. rewrite !elem_of_cons.
      intuition discriminate.
    + rewrite send_deposit_unfold. intros [= <- <-]. not_elected.
  - destruct (producer_status s id) as [[| id' data len |]|]; try done.
    rewrite mpsc_producer_send_resume_unfold.
    destruct (send_wait_loop _ _ _ _) as [r c2 e2|] eqn:Hloop; [| done].
    pose proof (send_wait_loop_elects_nobody _ _ _ _ _ _ _ h Hloop).
    intros [= <- <-]. rewrite elem_of_cons. intuition discriminate.
  - destruct (can_call s (ProducerThread id)); [| done].
    rewrite mpsc_producer_ping_unfold. intros [= <- <-]. not_elected.
  - destruct (can_call s (ProducerThread id)); [| done].
    rewrite mpsc_producer_done_unfold. cbv zeta.
    repeat case_if; intros [= <- <-]; not_elected.
Qed.

Lemma execution_elections tr s t h :
  execution tr s → (t, EvElect h) ∈ tr → t = ConsumerThread.
Proof.
  induction 1 as [| tr s a evs s' _ IH Hrun]; [by intros ?%elem_of_nil |].
  rewrite elem_of_app, list_elem_of_fmap.
  intros [Hin | (e & [= -> <-] & Hin)]; [by apply IH |].
  by eapply elections_by_consumer.
Qed.

(** ** A departure from the queue is a deposit *)

Ltac not_served := not_elected.

Lemma send_wait_loop_departure id data len c r c' evs h :
  send_wait_loop id data len c = Ret r c' evs →
  EvDequeue h ∈ evs →
  r = SendReturned true ∧ pending_message c' = true
  ∧ EvSignal MainCondVar ∈ evs.
Proof.
  rewrite send_wait_loop_unfold.
  destruct (negb (closed c) && _); [intros [= <- <- <-]; not_served |].
  destruct (closed c); [intros [= <- <- <-]; not_served |].
  rewrite mpsc_shift_producer_wait_queue_unfold.
  destruct (n_producers_waiting c =? 0); [done |].
  rewrite send_deposit_unfold. intros [= <- <- <-] _.
  split_and!; try done. rewrite !elem_of_cons. auto.
Qed.

Lemma consumer_deliver_serves_nobody data len c r c' evs h :
  consumer_deliver data len c = Ret r c' evs → EvDequeue h ∉ evs.
Proof.
  rewrite consumer_deliver_unfold. cbv zeta.
  case_if; intros [= <- <- <-]; not_served.
Qed.

Lemma consumer_loop_body_serves_nobody heap c r c' evs h :
  consumer_loop_body heap c = Ret r c' evs → EvDequeue h ∉ evs.
Proof.
  rewrite consumer_loop_body_unfold.
  destruct (negb (pending_message c) && _); [intros [= <- <- <-]; not_served |].
  destruct (closed c && _); [intros [= <- <- <-]; not_served |].
  destruct (0 <? n c); [| apply consumer_deliver_serves_nobody].
  destruct heap as [|e].
  - destruct (consumer_deliver _ _ _) as [r2 c2 e2|] eqn:Hd; [| done].
    intros [= <- <- <-]. rewrite elem_of_cons. intros [[=] | Hin].
    by destruct (consumer_deliver_serves_nobody _ _ _ _ _ _ h Hd).
  - case_if; [| done]. intros [= <- <- <-]. not_served.
Qed.

Lemma departure_is_deposit a s evs s' h :
  run a s = Some (evs, s') →
  EvDequeue h ∈ evs →
  pending_message (chan s') = true ∧ EvSignal MainCondVar ∈ evs.
Proof.
  destruct a as [caller cb ctx code | tid | | heap | heap | | | id data len
                | id | id | id]; cbn [run].
  - destruct (can_call s caller); [| done].
    rewrite mpsc_register_producer_unfold. cbv zeta.
    repeat case_if; intros [= <- <-]; not_served.
  - destruct (can_call s MainThread); [| done].
    rewrite mpsc_join_unfold.
    repeat case_if; intros [= <- <-]; not_served.
  - destruct (main_thread s); try done. destruct (consumer_thread s); try done.
    rewrite mpsc_join_resume_unfold. intros [= <- <-]. not_served.
  - destruct (consumer_thread s); try done.
    rewrite my_consumer_thread_callback_unfold.
    destruct (consumer_loop_body _ _) as [r c2 e2|] eqn:Hbody; [| done].
    intros [= <- <-]. rewrite elem_of_cons. intros [[=] | Hin].
    by destruct (consumer_loop_body_serves_nobody _ _ _ _ _ h Hbody).
  - destruct (consumer_thread s); try done.
    rewrite my_consumer_thread_callback_resume_unfold.
    destruct (consumer_loop_body _ _) as [r c2 e2|] eqn:Hbody; [| done].
    intros [= <- <-]. rewrite elem_of_cons. intros [[=] | Hin].
    by destruct (consumer_loop_body_serves_nobody _ _ _ _ _ h Hbody).
  - destruct (consumer_thread s); try done. intros [= <- <-]. not_served.
  - destruct (can_call s ConsumerThread); [| done].
    rewrite mpsc_consumer_close_unfold. cbv beta iota.
    intros [= <- <-]. not_served.
  - destruct (can_call s (ProducerThread id) && send_arguments_ok data len);
      [| done].
    rewrite mpsc_producer_send_unfold.
    destruct (buffer_size (chan s) <? len); [done |].
    destruct (closed (chan s)); [intros [= <- <-]; not_served |].
    destruct (pending_message (chan s) || _).
    + rewrite mpsc_producer_subscribe_to_wait_queue_unfold. cbv zeta.
      repeat case_if; try done.
      destruct (send_wait_loop _ _ _ _) as [r c2 e2|] eqn:Hloop; [| done].
      intros [= <- <-] Hin. cbn [app] in *.
      apply elem_of_cons in Hin as [[=] | Hin].
      apply elem_of_cons in Hin as [[=] | Hin].
      destruct (send_wait_loop_departure _ _ _ _ _ _ _ _ Hloop Hin)
        as (_ & Hp & Hs).
      split; [done |]. by do 2 apply list_elem_of_further.
    + rewrite send_deposit_unfold. intros [= <- <-]. not_served.
  - destruct (producer_status s id) as [[| id' data len |]|]; try done.
    rewrite mpsc_producer_send_resume_unfold.
    destruct (send_wait_loop _ _ _ _) as [r c2 e2|] eqn:Hloop; [| done].
    intros [= <- <-] Hin.
    apply elem_of_cons in Hin as [[=] | Hin].
    destruct (send_wait_loop_departure _ _ _ _ _ _ _ _ Hloop Hin)
      as (_ & Hp & Hs).
    split; [done |]. by apply list_elem_of_further.
  - destruct (can_call s (ProducerThread id)); [| done].
    rewrite mpsc_producer_ping_unfold. intros [= <- <-]. not_served.
  - destruct (can_call s (ProducerThread id)); [| done].
    rewrite mpsc_producer_done_unfold. cbv zeta.
    repeat case_if; intros [= <- <-]; not_served.
Qed.

(** * The claims *)

(** ** [mpsc_producer_send] *)

Lemma send_deposit_deposited data len c :
  Z.of_nat (length data) = len →
  ∃ c', send_deposit data len c
        = Ret (SendReturned true) c' [EvSignal MainCondVar; EvUnlock]
      ∧ take (Z.to_nat len) (buffer c') = data
      ∧ n c' = len ∧ pending_message c' = true.
Proof.
  intros Hlen. rewrite send_deposit_unfold. eexists. split; [done |].
  fields. split; [| done].
  destruct (Z.ltb_spec 0 len); fields.
  - unfold memcpy. rewrite take_app_le by (rewrite length_take; lia).
    rewrite take_take, Nat.min_id. apply take_ge. lia.
  - assert (length data = 0%nat) as ->%nil_length_inv by lia.
    by replace (Z.to_nat len) with 0%nat by lia.
Qed.

Lemma deposited_signal data len c evs :
  deposited data len c evs → EvSignal MainCondVar ∈ evs.
Proof. by intros (_ & _ & _ & ?). Qed.

Ltac no_signal :=
  intros Hin%deposited_signal; revert Hin;
  rewrite ?elem_of_cons, ?elem_of_nil; intuition discriminate.

Lemma send_wait_loop_returns id data len c r c' evs :
  Z.of_nat (length data) = len →
  send_wait_loop id data len c = Ret r c' evs →
  (r = SendReturned false ↔ closed c = true)
  ∧ (r = SendReturned false → c' = c)
  ∧ (r = SendReturned true ↔ deposited data len c' evs).
Proof.
  intros Hlen. rewrite send_wait_loop_unfold.
  destruct (closed c) eqn:Hclosed; cbn [negb andb].
  { intros [= <- <- <-]. split; [done |]. split; [done |].
    split; [done | no_signal]. }
  destruct (negb (next_waiting_producer_id c =? to_ssize id)).
  { intros [= <- <- <-]. split; [done |]. split; [done |].
    split; [done | no_signal]. }
  destruct (mpsc_shift_producer_wait_queue c) as [[] c1 e1|]; [| done].
  destruct (send_deposit_deposited data len c1 Hlen) as (c2 & -> & Hb & Hn & Hp).
  intros [= <- <- <-]. split; [done |]. split; [done |]. split; [| done].
  intros _. split_and!; try done.
  rewrite elem_of_app, !elem_of_cons. auto.
Qed.

(** C1.  A call of [mpsc_producer_send] with [len <= buffer_size], on its
    entry as on each return from its wait, returns [false] exactly when
    it finds the channel closed, and it does return then, leaving the
    channel as it is; it returns [true] exactly when it has copied the
    [len] bytes into the slot, set the length to [len] and the pending
    flag, and signalled the consumer's condition variable. *)
Theorem send_result_characterised self id data len c :
  len ≤ buffer_size c →
  Z.of_nat (length data) = len →
  (closed c = true →
     mpsc_producer_send self data len c
       = Ret (SendReturned false) c [EvLock; EvUnlock]
     ∧ mpsc_producer_send_resume id data len c
       = Ret (SendReturned false) c [EvWake (ProducerCondVar id); EvUnlock])
  ∧ (∀ r c' evs,
       mpsc_producer_send self data len c = Ret r c' evs →
       (r = SendReturned false ↔ closed c = true)
       ∧ (r = SendReturned true ↔ deposited data len c' evs))
  ∧ (∀ r c' evs,
       mpsc_producer_send_resume id data len c = Ret r c' evs →
       (r = SendReturned false ↔ closed c = true)
       ∧ (r = SendReturned true ↔ deposited data len c' evs)).
Proof.
  intros Hsize Hlen. split_and!.
  - intros Hclosed.
    rewrite mpsc_producer_send_unfold, mpsc_producer_send_resume_unfold,
      send_wait_loop_unfold, Hclosed.
    by destruct (Z.ltb_spec (buffer_size c) len); [lia |].
  - intros r c' evs. rewrite mpsc_producer_send_unfold.
    destruct (Z.ltb_spec (buffer_size c) len); [lia |].
    destruct (closed c) eqn:Hclosed.
    { intros [= <- <- <-]. split; [done |]. split; [done | no_signal]. }
    destruct (pending_message c || negb (next_waiting_producer_id c =? -1)).
    + destruct (mpsc_producer_subscribe_to_wait_queue self c)
        as [id1 c1 e1|] eqn:Hsub; [| done].
      assert (closed c1 = false ∧ e1 = [EvEnqueue id1]) as [Hclosed1 ->].
      { rewrite mpsc_producer_subscribe_to_wait_queue_unfold in Hsub.
        cbv zeta in Hsub. repeat case_match; try done.
        by injection Hsub as <- <- <-. }
      destruct (send_wait_loop id1 data len c1) as [r2 c2 e2|] eqn:Hloop;
        [| done].
      destruct (send_wait_loop_returns _ _ _ _ _ _ _ Hlen Hloop)
        as (Hfalse & _ & Htrue).
      intros [= <- <- <-]. rewrite Hfalse, Htrue, Hclosed1.
      split; [done |]. unfold deposited. cbn [app].
      rewrite !elem_of_cons. intuition discriminate.
    + destruct (send_deposit_deposited data len c Hlen)
        as (c2 & -> & Hb & Hn & Hp).
      intros [= <- <- <-]. split; [done |]. split; [| done].
      intros _. unfold deposited. split_and!; try done.
      rewrite !elem_of_cons. auto.
  - intros r c' evs. rewrite mpsc_producer_send_resume_unfold.
    destruct (send_wait_loop id data len c) as [r2 c2 e2|] eqn:Hloop; [| done].
    destruct (send_wait_loop_returns _ _ _ _ _ _ _ Hlen Hloop)
      as (Hfalse & _ & Htrue).
    intros [= <- <- <-]. rewrite Hfalse, Htrue. split; [done |].
    unfold deposited. rewrite elem_of_cons. intuition discriminate.
Qed.

(** The call [send(data = [3], n = 1)] on the created example channel. *)
Lemma send_result_characterised_witness :
  1 ≤ buffer_size example_channel
  ∧ ∀ r c' evs,
      mpsc_producer_send 0 [3] 1 example_channel = Ret r c' evs →
      (r = SendReturned false ↔ closed example_channel = true)
      ∧ (r = SendReturned true ↔ deposited [3] 1 c' evs).
Proof.
  split; [vm_compute; discriminate |].
  apply (send_result_characterised 0 0 [3] 1 example_channel).
  - vm_compute. discriminate.
  - reflexivity.
Defined.

(** C7.  Whatever the error policy, [mpsc_producer_send] stops the
    process for the size of the message exactly when [len] exceeds
    [buffer_size]; the part of the call that runs after a wait never
    does. *)
Theorem send_aborts_on_size_only self id data len policy c :
  (mpsc_producer_send self data len (set_error_handling_enabled policy c)
     = Abort FatalSendTooLarge
   ↔ buffer_size c < len)
  ∧ mpsc_producer_send_resume id data len (set_error_handling_enabled policy c)
    ≠ Abort FatalSendTooLarge.
Proof.
  split.
  - rewrite mpsc_producer_send_unfold. fields.
    destruct (Z.ltb_spec (buffer_size c) len) as [Hlt | Hge]; [done |].
    split; [| lia]. intros Habs. exfalso. revert Habs.
    destruct (closed c); [done |].
    destruct (pending_message c || negb (next_waiting_producer_id c =? -1)).
    + rewrite mpsc_producer_subscribe_to_wait_queue_unfold. cbv zeta.
      repeat case_if; try done.
      rewrite send_wait_loop_unfold.
      repeat case_if; try done.
      rewrite mpsc_shift_producer_wait_queue_unfold.
      repeat case_if; try done. by rewrite send_deposit_unfold.
    + by rewrite send_deposit_unfold.
  - rewrite mpsc_producer_send_resume_unfold, send_wait_loop_unfold.
    repeat case_if; try done.
    rewrite mpsc_shift_producer_wait_queue_unfold.
    repeat case_if; try done. by rewrite send_deposit_unfold.
Qed.

(** ** [mpsc_register_producer] *)

(** C9.  When [producer_count] has reached [n_max_producers], the
    registration is refused for that reason whatever the closed flag
    says, on a closed channel in particular, and nothing is changed. *)
Theorem register_full_before_closed cb ctx code is_closed c :
  producer_count c = n_max_producers c →
  mpsc_register_producer cb ctx code (set_closed is_closed c)
  = Ret MPSC_REGISTER_PRODUCER_ERROR_N_MAX_PRODUCERS_REACHED
      (set_closed is_closed c) [EvLock; EvUnlock].
Proof.
  intros Hfull. rewrite mpsc_register_producer_unfold. fields.
  by rewrite Hfull, Z.eqb_refl.
Qed.

(** A closed channel with its single place taken. *)
Lemma register_full_before_closed_witness :
  mpsc_register_producer 1 1 0
    (set_closed true (set_producer_count 2 example_channel))
  = Ret MPSC_REGISTER_PRODUCER_ERROR_N_MAX_PRODUCERS_REACHED
      (set_closed true (set_producer_count 2 example_channel))
      [EvLock; EvUnlock].
Proof.
  apply (register_full_before_closed 1 1 0 true
           (set_producer_count 2 example_channel)).
  reflexivity.
Defined.

(** ** The consumer thread *)

(** C6.  Under the report policy, a pass of the consumer loop in which
    the allocation of the delivery buffer for a pending message of
    [n > 0] bytes fails drops the message (the pending flag is cleared
    and the length set to 0), calls the error callback after the mutex
    has been released, leaves the closed flag as it is, and goes round
    the loop again; from the top of the loop as well as after a wait. *)
Theorem consumer_allocation_failure_drops c :
  error_handling_enabled c = true →
  pending_message c = true →
  0 < n c →
  let c' := set_pending_message false (set_n 0 c) in
  my_consumer_thread_callback malloc_out_of_memory c
    = Ret ConsumerContinue c'
        ([EvLock; EvErrno ENOMEM; EvUnlock] ++ [EvConsumerErrorCallback])
  ∧ my_consumer_thread_callback_resume malloc_out_of_memory c
    = Ret ConsumerContinue c'
        ([EvWake MainCondVar; EvErrno ENOMEM; EvUnlock]
         ++ [EvConsumerErrorCallback])
  ∧ lock_held [EvLock; EvErrno ENOMEM; EvUnlock] = false
  ∧ lock_held [EvWake MainCondVar; EvErrno ENOMEM; EvUnlock] = false
  ∧ pending_message c' = false ∧ n c' = 0 ∧ closed c' = closed c.
Proof.
  intros Hpolicy Hpending Hlen c'.
  rewrite my_consumer_thread_callback_unfold,
    my_consumer_thread_callback_resume_unfold, consumer_loop_body_unfold.
  rewrite Hpolicy, Hpending. cbn [negb andb].
  rewrite andb_false_r.
  destruct (Z.ltb_spec 0 (n c)); [| lia].
  unfold malloc_out_of_memory. by rewrite Z.eqb_refl.
Qed.

(** The example channel with a pending message of one byte. *)
Lemma consumer_allocation_failure_drops_witness :
  let c := set_pending_message true (set_n 1 example_channel) in
  my_consumer_thread_callback malloc_out_of_memory c
  = Ret ConsumerContinue (set_pending_message false (set_n 0 c))
      ([EvLock; EvErrno ENOMEM; EvUnlock] ++ [EvConsumerErrorCallback]).
Proof.
  intros c.
  apply (consumer_allocation_failure_drops c); [reflexivity | reflexivity |].
  vm_compute. reflexivity.
Defined.

(** ** Executions of the examples *)

Lemma execution_run_all tr s acts tr' s' :
  execution tr s → run_all acts s = Some (tr', s') → execution (tr ++ tr') s'.
Proof.
  revert tr s tr'. induction acts as [|a acts IH]; intros tr s tr' Hexec; cbn.
  - intros [= <- <-]. by rewrite app_nil_r.
  - destruct (run a s) as [[evs s1]|] eqn:Hrun; [| done].
    destruct (run_all acts s1) as [[tr2 s2]|] eqn:Hrest; [| done].
    intros [= <- <-]. rewrite app_assoc.
    eapply IH; [| done]. by eapply exec_step.
Qed.

Lemma execution_schedule params env entry_errno c log st acts tr s :
  valid_params params →
  mpsc_create params env (creation_entry entry_errno) = Ret (Some st) c log →
  run_all acts (new_system st) = Some (tr, s) →
  execution tr s.
Proof.
  intros Hvalid Hcreate Hrun.
  change tr with ([] ++ tr). eapply execution_run_all; [| done].
  by eapply exec_created.
Qed.

Lemma example_params_valid : valid_params example_params.
Proof. unfold valid_params. vm_compute. intuition discriminate. Qed.

Lemma example_execution : execution example_trace example_system.
Proof.
  eapply (execution_schedule example_params example_env 0 _ _ _ example_schedule);
    [apply example_params_valid | vm_compute; reflexivity |].
  vm_compute. reflexivity.
Qed.

Lemma join_execution : execution join_trace join_system.
Proof.
  eapply (execution_schedule example_params example_env 0 _ _ _ join_schedule);
    [apply example_params_valid | vm_compute; reflexivity |].
  vm_compute. reflexivity.
Qed.

Lemma close_execution : execution close_trace close_system.
Proof.
  eapply (execution_schedule example_params example_env 0 _ _ _ close_schedule);
    [apply example_params_valid | vm_compute; reflexivity |].
  vm_compute. reflexivity.
Qed.

(** C3, as stated, fails: the channel of [close_schedule] has been closed
    while the message [3] was pending, and the next pass of the consumer
    loop, in which the allocation of the delivery buffer fails, makes no
    delivering callback. *)
Lemma pending_message_lost_on_allocation_failure :
  ¬ (∀ tr s heap,
       execution tr s →
       consumer_thread s = ConsumerAtLoop →
       closed (chan s) = true →
       pending_message (chan s) = true →
       ∃ evs s' data len,
         run (ActConsumerPass heap) s = Some (evs, s')
         ∧ EvConsumerCallback data len false ∈ evs).
Proof.
  intros Hclaim.
  destruct (Hclaim close_trace close_system malloc_out_of_memory
              close_execution eq_refl eq_refl eq_refl)
    as (evs & s' & data & len & Hrun & Hin).
  vm_compute in Hrun. injection Hrun as <- _.
  revert Hin. rewrite !elem_of_cons, elem_of_nil. intuition discriminate.
Qed.

(** The same pass on the same channel: the message is dropped, and the
    pass that follows makes the closing callback. *)
Lemma pending_message_lost_trace :
  run_all [ActConsumerPass malloc_out_of_memory; ActConsumerCallbackReturn;
           ActConsumerPass MallocOk] close_system
  = Some ((λ e, (ConsumerThread, e)) <$>
            [EvLock; EvErrno ENOMEM; EvUnlock; EvConsumerErrorCallback;
             EvLock; EvUnlock; EvConsumerCallback None 0 true],
          set_consumer_thread (ConsumerInCallback true)
            (set_chan (set_pending_message false (set_n 0 (chan close_system)))
               close_system)).
Proof. vm_compute. reflexivity. Qed.

(** C3, amended.  When the channel is closed while a message is pending,
    the next pass of the consumer loop (from the top of the loop or from
    the wait) delivers that message through a callback with
    [closed = false], provided the message is empty or the delivery
    buffer can be allocated; only the pass after it makes the closing
    callback. *)
Theorem closed_channel_delivers_pending heap c :
  closed c = true →
  pending_message c = true →
  n c ≤ 0 ∨ heap = MallocOk →
  let c' := set_pending_message false (set_n 0 c) in
  let data :=
    if 0 <? n c then Some (take (Z.to_nat (n c)) (buffer c)) else None in
  let copy := if 0 <? n c then [EvAcquire ResDelivery] else [] in
  my_consumer_thread_callback heap c
    = Ret ConsumerContinue c'
        (EvLock :: copy ++ [EvUnlock; EvConsumerCallback data (n c) false])
  ∧ my_consumer_thread_callback_resume heap c
    = Ret ConsumerContinue c'
        (EvWake MainCondVar :: copy
         ++ [EvUnlock; EvConsumerCallback data (n c) false])
  ∧ ∀ heap', my_consumer_thread_callback heap' c'
    = Ret ConsumerReturned c' [EvLock; EvUnlock; EvConsumerCallback None 0 true].
Proof.
  intros Hclosed Hpending Hheap c' data copy. subst c' data copy.
  rewrite !my_consumer_thread_callback_unfold,
    my_consumer_thread_callback_resume_unfold.
  split_and!.
  1, 2: rewrite consumer_loop_body_unfold, Hclosed, Hpending; cbn [negb andb];
    destruct (Z.ltb_spec 0 (n c));
    [destruct Hheap as [? | ->]; [lia |] |];
    rewrite consumer_deliver_unfold, Hclosed, andb_false_r; done.
  intros heap'.
  rewrite my_consumer_thread_callback_unfold, consumer_loop_body_unfold.
  fields. by rewrite Hclosed.
Qed.

(** The channel of [close_schedule], closed with [3] pending. *)
Lemma closed_channel_delivers_pending_witness :
  my_consumer_thread_callback MallocOk (chan close_system)
  = Ret ConsumerContinue
      (set_pending_message false (set_n 0 (chan close_system)))
      [EvLock; EvAcquire ResDelivery; EvUnlock;
       EvConsumerCallback (Some [3]) 1 false].
Proof.
  apply (closed_channel_delivers_pending MallocOk (chan close_system));
    [reflexivity | reflexivity | right; reflexivity].
Defined.

(** ** Registration after [mpsc_join] *)

(** C4, as stated, fails: in the channel of [join_schedule] the join has
    been entered while the only producer is still running, and a further
    registration succeeds. *)
Lemma registration_succeeds_after_join :
  ¬ (∀ tr s callback context code r c' evs,
       execution tr s →
       joined (chan s) = true →
       mpsc_register_producer callback context code (chan s) = Ret r c' evs →
       r ≠ MPSC_REGISTER_PRODUCER_ERROR_NONE).
Proof.
  intros Hclaim.
  by apply (Hclaim join_trace join_system 1 1 0
              MPSC_REGISTER_PRODUCER_ERROR_NONE
              (set_producer_count 2
                 (set_producers [MkProducer 1 false 1; MkProducer 1 false 1]
                    (chan join_system)))
              [EvLock; EvAcquire (ResProducerThread 1); EvUnlock]
              join_execution eq_refl eq_refl).
Qed.

(** The producer started before the join registers the second one. *)
Lemma registration_after_join_step :
  joined (chan join_system) = true
  ∧ ∃ evs s',
      run (ActRegister (ProducerThread 0) 1 1 0) join_system = Some (evs, s')
      ∧ producer_count (chan s') = 2
      ∧ producer_threads s' = [ProducerRunning; ProducerRunning].
Proof. split; [done |]. eexists _, _. by vm_compute. Qed.

(** C4, amended.  In a reachable state with [joined = true], a
    registration (through [mpsc_register_producer] or an alias of it)
    succeeds exactly when the channel is still open, a place is left and
    the thread can be started; once the channel is closed, which it is
    as soon as every registered producer has finished, every
    registration is refused and changes nothing. *)
Theorem registration_after_join tr s callback context code :
  execution tr s →
  joined (chan s) = true →
  (∀ r c' evs,
     mpsc_register_producer callback context code (chan s) = Ret r c' evs →
     (r = MPSC_REGISTER_PRODUCER_ERROR_NONE
      ↔ closed (chan s) = false
        ∧ producer_count (chan s) < n_max_producers (chan s)
        ∧ code = 0))
  ∧ (closed (chan s) = true
     ∨ n_producers_closed (chan s) = producer_count (chan s) →
     ∃ r,
       mpsc_register_producer callback context code (chan s)
         = Ret r (chan s) [EvLock; EvUnlock]
       ∧ mpsc_consumer_register_producer callback context code (chan s)
         = Ret r (chan s) [EvLock; EvUnlock]
       ∧ mpsc_producer_register_producer callback context code (chan s)
         = Ret r (chan s) [EvLock; EvUnlock]
       ∧ r ≠ MPSC_REGISTER_PRODUCER_ERROR_NONE).
Proof.
  intros Hexec Hjoined. apply execution_inv in Hexec as [Hc _ _ _].
  pose proof (inv_producer_count _ _ _ _ Hc) as Hcount.
  unfold mpsc_consumer_register_producer, mpsc_producer_register_producer.
  split.
  - intros r c' evs. rewrite mpsc_register_producer_unfold. cbv zeta.
    repeat case_if; intros [= <- <- <-]; bool_facts; split; try done;
      try (intros (? & ? & ?)); try lia; try congruence.
  - intros Hclosed.
    assert (closed (chan s) = true) as Hc'
      by (destruct Hclosed; [done | by eapply inv_joined]).
    rewrite mpsc_register_producer_unfold, Hc'.
    destruct (n_max_producers (chan s) =? producer_count (chan s));
      eexists; by split_and!.
Qed.

(** The channel of [join_schedule] after its producer has returned. *)
Lemma registration_after_join_witness :
  let s := system_of (run_all (join_schedule ++ [ActProducerReturn 0])
                        (new_system example_channel)) in
  ∃ r,
    mpsc_register_producer 1 1 0 (chan s) = Ret r (chan s) [EvLock; EvUnlock]
    ∧ mpsc_consumer_register_producer 1 1 0 (chan s)
      = Ret r (chan s) [EvLock; EvUnlock]
    ∧ mpsc_producer_register_producer 1 1 0 (chan s)
      = Ret r (chan s) [EvLock; EvUnlock]
    ∧ r ≠ MPSC_REGISTER_PRODUCER_ERROR_NONE.
Proof.
  intros s.
  apply (registration_after_join
           (trace_of (run_all (join_schedule ++ [ActProducerReturn 0])
                        (new_system example_channel))) s 1 1 0).
  - eapply (execution_schedule example_params example_env 0 _ _ _
           (join_schedule ++ [ActProducerReturn 0]));
      [apply example_params_valid | vm_compute; reflexivity |].
    vm_compute. reflexivity.
  - reflexivity.
  - left. reflexivity.
Defined.

(** ** The end of a producer *)

(** C10.  In a reachable state, [mpsc_producer_done] for a registered
    producer counts it once: a run that finds its done flag set changes
    nothing, a run that finds it clear sets it and adds one to
    [n_producers_closed]; the run after any run changes nothing and
    signals nothing; and [n_producers_closed] does not exceed
    [producer_count], before and after. *)
Theorem producer_done_counts_once tr s self :
  execution tr s →
  0 ≤ self < producer_count (chan s) →
  n_producers_closed (chan s) ≤ producer_count (chan s)
  ∧ ∃ c1 e1,
      mpsc_producer_done self (chan s) = Ret tt c1 e1
      ∧ mpsc_producer_done self c1 = Ret tt c1 [EvLock; EvUnlock]
      ∧ n_producers_closed c1 ≤ producer_count c1
      ∧ (done (producers (chan s) !!! Z.to_nat self) = true →
         c1 = chan s ∧ e1 = [EvLock; EvUnlock])
      ∧ (done (producers (chan s) !!! Z.to_nat self) = false →
         n_producers_closed c1 = n_producers_closed (chan s) + 1
         ∧ done (producers c1 !!! Z.to_nat self) = true).
Proof.
  intros Hexec Hself. apply execution_inv in Hexec as [Hc _ _ _].
  pose proof (done_count_le (chan s) ltac:(lia)) as Hle.
  rewrite <- (inv_done_count _ _ _ _ Hc) in Hle. split; [done |].
  destruct (mpsc_producer_done self (chan s)) as [[] c1 e1|] eqn:Hrun;
    [| by rewrite mpsc_producer_done_unfold in Hrun; cbv zeta in Hrun;
          repeat case_match].
  destruct (mpsc_producer_done_inv _ _ _ _ _ _ _ _ Hc Hself Hrun)
    as (Hc1 & Hcount1 & _).
  pose proof (done_count_le c1 ltac:(lia)) as Hle1.
  rewrite <- (inv_done_count _ _ _ _ Hc1) in Hle1.
  exists c1, e1. split; [done |].
  assert (Z.to_nat self < length (producers (chan s)))%nat as Hrange.
  { rewrite (inv_producers_length _ _ _ _ Hc).
    pose proof (inv_producer_count _ _ _ _ Hc). lia. }
  revert Hrun. rewrite mpsc_producer_done_unfold. cbv zeta. fields.
  destruct (done (producers (chan s) !!! Z.to_nat self)) eqn:Hdone;
    cbn [negb].
  - intros [= <- <-]. rewrite mpsc_producer_done_unfold, Hdone. by cbn.
  - assert (size_wrap (n_producers_closed (chan s) + 1)
            = n_producers_closed (chan s) + 1) as Hwrap.
    { apply size_wrap_small. pose proof size_max_eq.
      pose proof (inv_producer_count _ _ _ _ Hc).
      pose proof (inv_n_max _ _ _ _ Hc).
      pose proof (inv_done_count _ _ _ _ Hc) as Hd.
      unfold done_count in Hd. lia. }
    assert (∀ c2, producers c2
              = <[Z.to_nat self := set_done true
                    (producers (chan s) !!! Z.to_nat self)]>
                  (producers (chan s)) →
            n_producers_closed c2 = n_producers_closed (chan s) + 1 →
            mpsc_producer_done self c2 = Ret tt c2 [EvLock; EvUnlock]
            ∧ n_producers_closed c2 = n_producers_closed (chan s) + 1
            ∧ done (producers c2 !!! Z.to_nat self) = true) as Hsecond.
    { intros c2 Hp Hn.
      assert (done (producers c2 !!! Z.to_nat self) = true) as Hd2
        by (by rewrite Hp, list_lookup_total_insert_eq).
      by rewrite mpsc_producer_done_unfold, Hd2. }
    rewrite Hwrap.
    case_if; intros [= Hstate Hevs];
      (destruct (Hsecond c1) as (? & ? & ?);
         [by rewrite <- Hstate | by rewrite <- Hstate |]);
      by split_and!.
Qed.

(** Producer 1 of the example, which is still running. *)
Lemma producer_done_counts_once_witness :
  n_producers_closed (chan example_system) ≤ producer_count (chan example_system)
  ∧ ∃ c1 e1,
      mpsc_producer_done 1 (chan example_system) = Ret tt c1 e1
      ∧ mpsc_producer_done 1 c1 = Ret tt c1 [EvLock; EvUnlock]
      ∧ n_producers_closed c1 ≤ producer_count c1
      ∧ (done (producers (chan example_system) !!! Z.to_nat 1) = true →
         c1 = chan example_system ∧ e1 = [EvLock; EvUnlock])
      ∧ (done (producers (chan example_system) !!! Z.to_nat 1) = false →
         n_producers_closed c1 = n_producers_closed (chan example_system) + 1
         ∧ done (producers c1 !!! Z.to_nat 1) = true).
Proof.
  apply (producer_done_counts_once example_trace example_system 1).
  - eapply (execution_schedule example_params example_env 0 _ _ _
           example_schedule);
      [apply example_params_valid | vm_compute; reflexivity |].
    vm_compute. reflexivity.
  - vm_compute. split; [discriminate | reflexivity].
Defined.

(** ** The wait queue *)

(** C8.  In every reachable state [next_waiting_producer_id] is -1 or
    the entry at the head of the (then non-empty) wait queue, and every
    step of a thread leads to a state where this holds again. *)
Theorem handoff_is_queue_head tr s :
  execution tr s →
  (next_waiting_producer_id (chan s) = -1
   ∨ 0 < n_producers_waiting (chan s)
     ∧ producer_waiting_ids_queue (chan s) !! 0%nat
       = Some (next_waiting_producer_id (chan s)))
  ∧ ∀ a evs s',
      run a s = Some (evs, s') →
      next_waiting_producer_id (chan s') = -1
      ∨ 0 < n_producers_waiting (chan s')
        ∧ producer_waiting_ids_queue (chan s') !! 0%nat
          = Some (next_waiting_producer_id (chan s')).
Proof.
  assert (∀ tr s, execution tr s →
    next_waiting_producer_id (chan s) = -1
    ∨ 0 < n_producers_waiting (chan s)
      ∧ producer_waiting_ids_queue (chan s) !! 0%nat
        = Some (next_waiting_producer_id (chan s))) as Hany.
  { clear tr s. intros tr s [Hc _ _ _]%execution_inv.
    destruct (inv_handoff _ _ _ _ Hc) as [? | Hhead]; [by left | right].
    destruct (wait_queue_head_total _ _ Hhead) as (Hpos & _ & _).
    split; [done |]. revert Hhead. unfold wait_queue.
    rewrite head_lookup, lookup_take_lt by lia. done. }
  intros Hexec. split; [by eapply Hany |].
  intros a evs s' Hrun. eapply Hany. by eapply exec_step.
Qed.

(** The example, where producer 0 waits at the head of the queue. *)
Lemma handoff_is_queue_head_witness :
  next_waiting_producer_id (chan example_system) = -1
  ∨ 0 < n_producers_waiting (chan example_system)
    ∧ producer_waiting_ids_queue (chan example_system) !! 0%nat
      = Some (next_waiting_producer_id (chan example_system)).
Proof.
  apply (handoff_is_queue_head example_trace example_system).
  eapply (execution_schedule example_params example_env 0 _ _ _
           example_schedule);
    [apply example_params_valid | vm_compute; reflexivity |].
  vm_compute. reflexivity.
Defined.

(** C2.  In every execution the producers leave the wait queue in the
    order in which they entered it: the arrivals are the departures
    followed by the queue, so that an arrival goes to the tail and a
    departure comes from the head; the elections are the departures
    followed by the producer elected last if it has not deposited yet,
    and that one is at the head of the queue; the consumer thread alone
    elects, and a producer leaves the queue by its own hand, in the
    critical section in which it deposits its message.  Hence of two producers in the queue, the
    one that entered second is elected only after the first one has been
    elected and has made its deposit. *)
Theorem wait_queue_is_fifo tr s :
  execution tr s →
  arrivals tr.*2 = served tr.*2 ++ wait_queue (chan s)
  ∧ elected tr.*2 = served tr.*2 ++ handoff (chan s)
  ∧ (∀ id, handoff (chan s) = [id] → head (wait_queue (chan s)) = Some id)
  ∧ (∀ t id, (t, EvElect id) ∈ tr → t = ConsumerThread)
  ∧ (∀ t id, (t, EvDequeue id) ∈ tr → t = ProducerThread id)
  ∧ (∀ act evs s' id,
       run act s = Some (evs, s') → EvDequeue id ∈ evs →
       actor act = ProducerThread id
       ∧ pending_message (chan s') = true
       ∧ EvSignal MainCondVar ∈ evs)
  ∧ ∀ (i j : nat) (a b : Z),
      (i < j)%nat →
      arrivals tr.*2 !! i = Some a →
      arrivals tr.*2 !! j = Some b →
      (is_Some (elected tr.*2 !! j) →
         elected tr.*2 !! i = Some a ∧ elected tr.*2 !! j = Some b
         ∧ served tr.*2 !! i = Some a)
      ∧ (is_Some (served tr.*2 !! j) →
         served tr.*2 !! i = Some a ∧ served tr.*2 !! j = Some b).
Proof.
  intros Hexec. pose proof (execution_inv _ _ Hexec) as [Hc _ _ Hown].
  pose proof (inv_arrivals _ _ _ _ Hc) as Harr.
  pose proof (inv_elected _ _ _ _ Hc) as Hele.
  split; [done |]. split; [done |]. split.
  { intros id. unfold handoff.
    destruct (Z.eqb_spec (next_waiting_producer_id (chan s)) (-1)); [done |].
    intros [= <-]. by destruct (inv_handoff _ _ _ _ Hc). }
  split; [intros t id; by apply (execution_elections tr s) |].
  split; [done |]. split.
  { intros act evs s' id Hrun Hin.
    destruct (departure_is_deposit _ _ _ _ _ Hrun Hin) as [Hp Hs].
    split; [| done].
    pose proof (execution_inv _ _ (exec_step _ _ _ _ _ Hexec Hrun))
      as [_ _ _ Hown'].
    apply Hown'. rewrite elem_of_app, list_elem_of_fmap. right. by exists (EvDequeue id). }
  assert (∀ k x, served tr.*2 !! k = Some x → arrivals tr.*2 !! k = Some x)
    as Hserved.
  { intros k x Hk. rewrite Harr. by apply lookup_app_l_Some. }
  assert (length (elected tr.*2) ≤ S (length (served tr.*2)))%nat as Hlen.
  { rewrite Hele, length_app. unfold handoff. case_match; cbn; lia. }
  assert (∀ k x, elected tr.*2 !! k = Some x → arrivals tr.*2 !! k = Some x)
    as Helected.
  { intros k x. rewrite Hele, Harr.
    intros [Hk | [Hge Hk]]%lookup_app_Some; [by apply lookup_app_l_Some |].
    rewrite lookup_app_r by done.
    unfold handoff in Hk.
    destruct (Z.eqb_spec (next_waiting_producer_id (chan s)) (-1));
      [by rewrite lookup_nil in Hk |].
    destruct (inv_handoff _ _ _ _ Hc) as [? | Hhead]; [done |].
    apply list_lookup_singleton_Some in Hk as [Hk <-].
    rewrite Hk. by rewrite <- head_lookup. }
  assert (∀ k, (k < length (served tr.*2))%nat →
               served tr.*2 !! k = arrivals tr.*2 !! k) as Hprefix.
  { intros k Hk. rewrite Harr. by rewrite lookup_app_l. }
  intros i j a b Hij Ha Hb. split.
  - intros [y Hy]. pose proof (lookup_lt_Some _ _ _ Hy) as Hj.
    pose proof (Helected _ _ Hy) as Hy'. rewrite Hb in Hy'.
    injection Hy' as <-.
    assert (served tr.*2 !! i = Some a) as Hi
      by (rewrite Hprefix by lia; done).
    split_and!; try done. rewrite Hele. by apply lookup_app_l_Some.
  - intros [y Hy]. pose proof (lookup_lt_Some _ _ _ Hy) as Hj.
    rewrite !Hprefix by lia. done.
Qed.

(** The example: producer 1 entered the queue before producer 0, it has
    been elected and has deposited, producer 0 is still in the queue. *)
Lemma wait_queue_is_fifo_witness :
  arrivals example_trace.*2 = [1; 0]
  ∧ served example_trace.*2 = [1]
  ∧ wait_queue (chan example_system) = [0]
  ∧ arrivals example_trace.*2
    = served example_trace.*2 ++ wait_queue (chan example_system).
Proof.
  split; [reflexivity |]. split; [reflexivity |]. split; [reflexivity |].
  apply (wait_queue_is_fifo example_trace example_system).
  eapply (execution_schedule example_params example_env 0 _ _ _
           example_schedule);
    [apply example_params_valid | vm_compute; reflexivity |].
  vm_compute. reflexivity.
Defined.

(** ** Construction failures *)

Lemma acquired_app l1 l2 : acquired (l1 ++ l2) = acquired l1 ++ acquired l2.
Proof. apply omap_app. Qed.
Lemma released_app l1 l2 : released (l1 ++ l2) = released l1 ++ released l2.
Proof. apply omap_app. Qed.
Lemma wild_frees_app l1 l2 :
  wild_frees (l1 ++ l2) = wild_frees l1 ++ wild_frees l2.
Proof. apply omap_app. Qed.

Lemma acquired_cons e l :
  acquired (e :: l)
  = match e with EvAcquire r => [r] | _ => [] end ++ acquired l.
Proof. by destruct e. Qed.
Lemma released_cons e l :
  released (e :: l)
  = match e with EvRelease r => [r] | _ => [] end ++ released l.
Proof. by destruct e. Qed.
Lemma wild_frees_cons e l :
  wild_frees (e :: l)
  = match e with EvFreeWild a => [a] | _ => [] end ++ wild_frees l.
Proof. by destruct e. Qed.

Lemma acquired_acquisitions (l : list resource) : acquired (EvAcquire <$> l) = l.
Proof. induction l as [|r l IH]; [done |]. by rewrite fmap_cons, acquired_cons, IH. Qed.
Lemma released_acquisitions (l : list resource) : released (EvAcquire <$> l) = [].
Proof. induction l as [|r l IH]; [done |]. by rewrite fmap_cons, released_cons, IH. Qed.
Lemma wild_frees_acquisitions (l : list resource) :
  wild_frees (EvAcquire <$> l) = [].
Proof. induction l as [|r l IH]; [done |]. by rewrite fmap_cons, wild_frees_cons, IH. Qed.
Lemma acquired_releases (l : list resource) : acquired (EvRelease <$> l) = [].
Proof. induction l as [|r l IH]; [done |]. by rewrite fmap_cons, acquired_cons, IH. Qed.
Lemma released_releases (l : list resource) : released (EvRelease <$> l) = l.
Proof. induction l as [|r l IH]; [done |]. by rewrite fmap_cons, released_cons, IH. Qed.
Lemma wild_frees_releases (l : list resource) :
  wild_frees (EvRelease <$> l) = [].
Proof. induction l as [|r l IH]; [done |]. by rewrite fmap_cons, wild_frees_cons, IH. Qed.

(** What a log built from acquisitions, releases and single events
    obtained and gave back. *)
Ltac read_log :=
  repeat (first
    [ rewrite acquired_app | rewrite released_app | rewrite wild_frees_app
    | rewrite acquired_acquisitions | rewrite released_acquisitions
    | rewrite wild_frees_acquisitions
    | rewrite acquired_releases | rewrite released_releases
    | rewrite wild_frees_releases
    | rewrite acquired_cons | rewrite released_cons
    | rewrite wild_frees_cons ];
    cbv beta iota);
  change (acquired []) with (@nil resource);
  change (released []) with (@nil resource);
  change (wild_frees []) with (@nil Z);
  cbn [app]; rewrite ?app_nil_r.

(** The failure handler on a construction whose allocations succeeded. *)
Lemma mpsc_handle_creation_failure_allocated params c0 type index code :
  code = ENOMEM ∨ code = EAGAIN →
  let c := set_errno code (allocated params c0) in
  mpsc_handle_creation_failure type index c
  = Ret None c
      ((EvRelease <$>
          match type with
          | MPSC_HANDLE_CREATION_FAILURE_THREAD_CREATE =>
              ResMutex :: ResCond MainCondVar
              :: producer_cond_vars (param_n_max_producers params)
          | MPSC_HANDLE_CREATION_FAILURE_MUTEX_INIT =>
              ResCond MainCondVar
              :: producer_cond_vars (param_n_max_producers params)
          | MPSC_HANDLE_CREATION_FAILURE_COND_VAR_INIT =>
              if index =? -1 then []
              else ResCond MainCondVar :: producer_cond_vars (size_wrap index)
          | MPSC_HANDLE_CREATION_FAILURE_NONE => []
          end)
       ++ (EvRelease <$>
             [ResProducerConditionVariables; ResProducerWaitingIdsQueue;
              ResProducers; ResProducerThreadIds; ResBuffer; ResSelf])
       ++ [EvErrno code]).
Proof.
  intros Hcode c. subst c.
  unfold mpsc_handle_creation_failure, free_unless_null, my_free.
  run_monad. fields. cbn [is_null negb].
  replace (if code =? ENOMEM then _ else _)
    with (λ s : creation, Ret (A := Z) code s [])
    by (destruct Hcode as [-> | ->]; reflexivity).
  assert (∀ k (s : creation),
    for_each k (λ i s, Ret tt s [EvRelease (ResCond (ProducerCondVar i))]) s
    = Ret tt s (EvRelease <$> producer_cond_vars k)) as Hloop.
  { intros k s. rewrite (for_each_emit k
      (λ i, EvRelease (ResCond (ProducerCondVar i)))).
    unfold producer_cond_vars. by rewrite <- list_fmap_compose. }
  cbv beta iota.
  destruct type; cbv beta iota; rewrite ?Hloop; cbn [app fmap list_fmap];
    try reflexivity.
  destruct (index =? -1); cbv beta iota; cbn [negb];
    rewrite ?Hloop; reflexivity.
Qed.

(** Comparisons of error codes are computed. *)
Ltac decide_codes :=
  repeat match goal with
  | |- context [?a =? ?b] =>
      let v := eval vm_compute in (a =? b) in
      lazymatch v with
      | true => change (a =? b) with true
      | false => change (a =? b) with false
      end
  end.

Lemma mpsc_create_allocations params env c0 :
  accepted_params params →
  (∀ r, env_malloc env r = MallocOk) →
  mpsc_create params env c0
  = match create_primitives params env (allocated params c0) with
    | Ret r s e => Ret r s ((EvAcquire <$> allocated_blocks) ++ e)
    | Abort f => Abort f
    end.
Proof.
  intros (Hcb & Hecb & Hmax & Hpolicy) Hmalloc.
  unfold mpsc_create, allocate, mpsc_create_params_validate.
  apply Z.eqb_neq in Hcb, Hecb, Hmax. rewrite Hcb, Hecb, Hmax, Hpolicy.
  run_monad. rewrite !Hmalloc. cbv beta iota. cbn [negb app].
  unfold fresh_self, malloc_pointer. fields.
  by destruct (create_primitives params env _).
Qed.

Lemma init_producer_condition_variables_succeed env handle_errors l rest s :
  (∀ i, i ∈ l → env_cond_init env (ProducerCondVar i) = 0) →
  init_producer_condition_variables env handle_errors l rest s
  = match rest s with
    | Ret r s' e =>
        Ret r s' ((EvAcquire <$> ((λ i, ResCond (ProducerCondVar i)) <$> l)) ++ e)
    | Abort f => Abort f
    end.
Proof.
  induction l as [|i l IH]; intros Hok.
  - cbn. by destruct (rest s).
  - cbn [init_producer_condition_variables].
    rewrite M_bind_eq. unfold my_condition_variable_init.
    rewrite (Hok i) by apply list_elem_of_here. decide_codes. run_monad.
    rewrite IH by (intros j Hj; apply Hok; by apply list_elem_of_further).
    by destruct (rest s).
Qed.

Lemma init_producer_condition_variables_fail env l1 k l2 rest s code :
  (∀ i, i ∈ l1 → env_cond_init env (ProducerCondVar i) = 0) →
  env_cond_init env (ProducerCondVar k) = code →
  code = ENOMEM ∨ code = EAGAIN →
  init_producer_condition_variables env true (l1 ++ k :: l2) rest s
  = match mpsc_handle_creation_failure
            MPSC_HANDLE_CREATION_FAILURE_COND_VAR_INIT (to_ssize k)
            (set_errno code s) with
    | Ret r s' e =>
        Ret r s' ((EvAcquire <$> ((λ i, ResCond (ProducerCondVar i)) <$> l1))
                  ++ EvErrno code :: e)
    | Abort f => Abort f
    end.
Proof.
  intros Hok Hk Hcode. induction l1 as [|i l1 IH].
  - cbn [init_producer_condition_variables app].
    rewrite M_bind_eq. unfold my_condition_variable_init. rewrite Hk.
    destruct Hcode as [-> | ->]; decide_codes; run_monad;
      by destruct (mpsc_handle_creation_failure _ _ _).
  - cbn [init_producer_condition_variables app].
    rewrite M_bind_eq. unfold my_condition_variable_init.
    rewrite (Hok i) by apply list_elem_of_here. decide_codes. run_monad.
    rewrite IH by (intros j Hj; apply Hok; by apply list_elem_of_further).
    by destruct (mpsc_handle_creation_failure _ _ _).
Qed.

Lemma unwound_permutation n_max fp :
  unwound n_max fp ≡ₚ completed_before n_max fp.
Proof.
  unfold unwound, completed_before. rewrite (Permutation_app_comm allocated_blocks).
  apply Permutation_app.
  - destruct fp; try done.
    rewrite (Permutation_app_comm _ [ResMutex]). cbn [app].
    by rewrite perm_swap.
  - unfold allocated_blocks.
    rewrite (perm_swap ResProducerWaitingIdsQueue ResProducerConditionVariables).
    change ([ResProducerWaitingIdsQueue; ResProducerConditionVariables;
             ResProducers; ResProducerThreadIds; ResBuffer; ResSelf])
      with (rev [ResSelf; ResBuffer; ResProducerThreadIds; ResProducers;
                 ResProducerConditionVariables; ResProducerWaitingIdsQueue]).
    symmetry. apply Permutation_rev.
Qed.

Lemma producer_cond_vars_ok env (k : Z) :
  (∀ i, 0 ≤ i < k → env_cond_init env (ProducerCondVar i) = 0) →
  ∀ i, i ∈ seqZ 0 k → env_cond_init env (ProducerCondVar i) = 0.
Proof. intros Hok i Hi%elem_of_seqZ. apply Hok. lia. Qed.

(** C5, as stated, fails: when the start of the consumer thread of a
    channel for one producer fails, what had been set up is undone, but
    not in the reverse of the order in which it had been set up. *)
Lemma creation_failure_not_in_reverse_order :
  ¬ (∀ params env entry_errno c log,
       accepted_params params →
       mpsc_create params env (creation_entry entry_errno) = Ret None c log →
       released log = rev (acquired log)).
Proof.
  intros Hclaim.
  specialize (Hclaim (MkParams 4 1 1 1 true false) no_thread_env 0).
  assert (accepted_params (MkParams 4 1 1 1 true false)) as Hparams
    by (by unfold accepted_params; cbn).
  pose proof (λ c log, Hclaim c log Hparams) as Hrev. clear Hclaim.
  specialize (Hrev _ _ eq_refl). vm_compute in Hrev. discriminate.
Qed.

(** C5, amended.  Under the report policy, when a construction fails
    after its allocations, at the initialisation of a condition variable
    (with ENOMEM or EAGAIN), at that of the mutex (with ENOMEM) or at the
    start of the consumer thread (with EAGAIN), [mpsc_create] returns
    null with that code in [errno], and it has undone every step
    completed before the failing one, each once and nothing else: first
    the synchronisation objects (the mutex, the main condition variable,
    the producers' condition variables from the first on), then the
    blocks (the condition variables, the wait queue, the producers, the
    thread handles, the slot, the channel). *)
Theorem creation_failure_unwinds params env entry_errno fp code :
  valid_params params →
  accepted_params params →
  fails_at (param_n_max_producers params) env fp code →
  ∃ c log,
    mpsc_create params env (creation_entry entry_errno) = Ret None c log
    ∧ errno c = code
    ∧ (code = ENOMEM ∨ code = EAGAIN)
    ∧ acquired log = completed_before (param_n_max_producers params) fp
    ∧ released log = unwound (param_n_max_producers params) fp
    ∧ wild_frees log = []
    ∧ unwound (param_n_max_producers params) fp
      ≡ₚ completed_before (param_n_max_producers params) fp.
Proof.
  intros (Hsize & Hmax & Hfit) Haccept [Hmalloc Hfail].
  pose proof Haccept as (_ & _ & _ & Hpolicy).
  pose proof size_max_eq as HM.
  rewrite (mpsc_create_allocations _ _ _ Haccept Hmalloc).
  unfold create_primitives. cbv zeta. rewrite Hpolicy.
  rewrite M_bind_eq. unfold my_condition_variable_init.
  set (n_max := param_n_max_producers params) in *.
  assert (∀ type index, code = ENOMEM ∨ code = EAGAIN →
    mpsc_handle_creation_failure type index
      (set_errno code (allocated params (creation_entry entry_errno)))
    = _) as Hhandler
    by (intros type index Hcode;
        exact (mpsc_handle_creation_failure_allocated params
                 (creation_entry entry_errno) type index code Hcode)).
  destruct fp as [| k | |]; cbn [fails_at] in Hfail.
  - (* the main condition variable *)
    destruct Hfail as [Hmain Hcode]. rewrite Hmain.
    assert (code ≠ 0) by (destruct Hcode as [-> | ->]; done).
    destruct (Z.eqb_spec code 0); [done |].
    replace ((code =? ENOMEM) || (code =? EAGAIN)) with true
      by (destruct Hcode as [-> | ->]; done).
    run_monad. fields. rewrite (Hhandler _ _ Hcode).
    eexists _, _. split; [reflexivity |].
    split; [done |]. split; [done |].
    split_and!; [| | | apply unwound_permutation];
      unfold completed_before, unwound; read_log; done.
  - (* the condition variable of producer [k] *)
    destruct Hfail as (Hk & Hmain & Hbefore & Hfailed & Hcode). rewrite Hmain.
    decide_codes. run_monad.
    assert (seqZ 0 n_max = seqZ 0 k ++ k :: seqZ (k + 1) (n_max - k - 1))
      as ->.
    { replace n_max with (k + (n_max - k)) at 1 by lia.
      rewrite seqZ_app by lia. f_equal.
      rewrite seqZ_cons by lia. repeat (f_equal; try lia). }
    rewrite (init_producer_condition_variables_fail _ _ _ _ _ _ code
               (producer_cond_vars_ok env k Hbefore) Hfailed Hcode).
    rewrite (Hhandler _ _ Hcode).
    rewrite (to_ssize_small k) by (unfold SSIZE_MAX; lia).
    rewrite (size_wrap_small k) by lia.
    destruct (Z.eqb_spec k (-1)); [lia |].
    eexists _, _. split; [reflexivity |].
    split; [done |]. split; [done |].
    change ((λ i, ResCond (ProducerCondVar i)) <$> seqZ 0 k)
      with (producer_cond_vars k).
    split_and!; [| | | apply unwound_permutation];
      unfold completed_before, unwound; read_log; done.
  - (* the mutex *)
    destruct Hfail as (Hmain & Hconds & Hmutex & ->). rewrite Hmain.
    decide_codes. run_monad.
    rewrite (init_producer_condition_variables_succeed _ _ _ _ _
               (producer_cond_vars_ok env n_max Hconds)).
    unfold my_mutex_init. rewrite Hmutex.
    decide_codes. run_monad. rewrite (Hhandler _ _ (or_introl eq_refl)).
    eexists _, _. split; [reflexivity |].
    split; [done |]. split; [by left |].
    change ((λ i, ResCond (ProducerCondVar i)) <$> seqZ 0 n_max)
      with (producer_cond_vars n_max).
    split_and!; [| | | apply unwound_permutation];
      unfold completed_before, unwound; read_log; done.
  - (* the consumer thread *)
    destruct Hfail as (Hmain & Hconds & Hmutex & Hthread & ->). rewrite Hmain.
    decide_codes. run_monad.
    rewrite (init_producer_condition_variables_succeed _ _ _ _ _
               (producer_cond_vars_ok env n_max Hconds)).
    unfold my_mutex_init. rewrite Hmutex.
    decide_codes. run_monad. fields.
    unfold my_thread_create. rewrite Hthread.
    decide_codes. run_monad. rewrite (Hhandler _ _ (or_intror eq_refl)).
    eexists _, _. split; [reflexivity |].
    split; [done |]. split; [by right |].
    change ((λ i, ResCond (ProducerCondVar i)) <$> seqZ 0 n_max)
      with (producer_cond_vars n_max).
    split_and!; [| | | apply unwound_permutation];
      unfold completed_before, unwound; read_log; done.
Qed.

(** The construction of a channel for two producers on which the
    condition variable of producer 1 cannot be initialised. *)
Lemma creation_failure_unwinds_witness :
  let env :=
    MkEnv (λ _, MallocOk)
      (λ cv, match cv with ProducerCondVar 1 => ENOMEM | _ => 0 end)
      0 0 7 (λ _, PtrWild 3735928559) 99 (λ _, 170)
      (λ _, MkProducer 5 true 5) (λ _, 77) in
  ∃ c log,
    mpsc_create example_params env (creation_entry 0) = Ret None c log
    ∧ errno c = ENOMEM
    ∧ (ENOMEM = ENOMEM ∨ ENOMEM = EAGAIN)
    ∧ acquired log = completed_before 2 (FailProducerCond 1)
    ∧ released log = unwound 2 (FailProducerCond 1)
    ∧ wild_frees log = []
    ∧ unwound 2 (FailProducerCond 1) ≡ₚ completed_before 2 (FailProducerCond 1).
Proof.
  intros env.
  apply (creation_failure_unwinds example_params env 0 (FailProducerCond 1) ENOMEM).
  - unfold valid_params. vm_compute. intuition discriminate.
  - unfold accepted_params. vm_compute. intuition discriminate.
  - split; [reflexivity |]. cbn.
    split; [lia |]. split; [reflexivity |].
    split; [intros i Hi; by assert (i = 0) as -> by lia |].
    split; [reflexivity | by left].
Defined.

(** The slips that the amended claim leaves out: when the first
    allocation fails, the handler reads a member of the channel through
    the null pointer; when a later one fails, it passes to [free] what
    the members not yet assigned happen to hold. *)
Lemma creation_failure_first_allocation :
  mpsc_create example_params no_memory_env (creation_entry 0)
  = Abort CrashNullDereference.
Proof. reflexivity. Qed.

Lemma creation_failure_later_allocation :
  ∃ c log,
    mpsc_create example_params no_buffer_env (creation_entry 0) = Ret None c log
    ∧ acquired log = [ResSelf]
    ∧ released log = [ResSelf]
    ∧ wild_frees log
      = [3735928559; 3735928559; 3735928559; 3735928559].
Proof. eexists _, _. by vm_compute. Qed.

(** * Further properties *)

(** ** The cases of a step *)

(** Unfolds the operation that a step runs and goes through its
    branches. *)
Ltac run_cases H :=
  repeat first
    [ discriminate H
    | progress (rewrite ?mpsc_register_producer_unfold, ?mpsc_join_unfold,
        ?mpsc_join_resume_unfold, ?mpsc_consumer_close_unfold,
        ?mpsc_producer_ping_unfold, ?mpsc_producer_done_unfold,
        ?my_consumer_thread_callback_unfold,
        ?my_consumer_thread_callback_resume_unfold,
        ?consumer_loop_body_unfold, ?consumer_deliver_unfold,
        ?mpsc_producer_send_unfold, ?mpsc_producer_send_resume_unfold,
        ?mpsc_producer_subscribe_to_wait_queue_unfold,
        ?send_wait_loop_unfold, ?mpsc_shift_producer_wait_queue_unfold,
        ?send_deposit_unfold in H)
    | progress (cbv zeta beta iota in H)
    | progress (cbn [run andb negb orb app] in H)
    | match type of H with
      | context [if ?b then _ else _] =>
          lazymatch b with
          | context [if _ then _ else _] => fail
          | _ => destruct b eqn:?
          end
      end
    | match type of H with
      | context [match ?x with _ => _ end] =>
          lazymatch x with
          | context [match _ with _ => _ end] => fail
          | _ => destruct x eqn:?
          end
      end ].

(** One branch: the step's events and state are known. *)
Ltac leaf H := injection H as <- <-; fields.

(** ** What no step undoes *)

Lemma run_frame a s evs s' :
  run a s = Some (evs, s') →
  buffer_size (chan s') = buffer_size (chan s)
  ∧ n_max_producers (chan s') = n_max_producers (chan s)
  ∧ error_handling_enabled (chan s') = error_handling_enabled (chan s)
  ∧ create_and_join_thread_safety_disabled (chan s')
    = create_and_join_thread_safety_disabled (chan s)
  ∧ parent_thread_id (chan s') = parent_thread_id (chan s)
  ∧ (closed (chan s) = true → closed (chan s') = true)
  ∧ (joined (chan s) = true → joined (chan s') = true).
Proof.
  intros H. destruct a; run_cases H; leaf H; split_and!; try done.
Qed.

Lemma run_all_frame acts s tr s' :
  run_all acts s = Some (tr, s') →
  buffer_size (chan s') = buffer_size (chan s)
  ∧ n_max_producers (chan s') = n_max_producers (chan s)
  ∧ error_handling_enabled (chan s') = error_handling_enabled (chan s)
  ∧ create_and_join_thread_safety_disabled (chan s')
    = create_and_join_thread_safety_disabled (chan s)
  ∧ parent_thread_id (chan s') = parent_thread_id (chan s)
  ∧ (closed (chan s) = true → closed (chan s') = true)
  ∧ (joined (chan s) = true → joined (chan s') = true).
Proof.
  revert s tr. induction acts as [|a acts IH]; intros s tr; cbn [run_all].
  - by intros [= <- <-].
  - destruct (run a s) as [[evs s1]|] eqn:Hrun; [| done].
    destruct (run_all acts s1) as [[tr2 s2]|] eqn:Hrest; [| done].
    intros [= <- <-].
    destruct (run_frame _ _ _ _ Hrun) as (? & ? & ? & ? & ? & Hc & Hj).
    destruct (IH _ _ Hrest) as (? & ? & ? & ? & ? & Hc' & Hj').
    split_and!; auto; congruence.
Qed.

Lemma run_counts tr s a evs s' :
  sys_inv tr s →
  run a s = Some (evs, s') →
  producer_count (chan s) ≤ producer_count (chan s')
  ∧ n_producers_closed (chan s) ≤ n_producers_closed (chan s').
Proof.
  intros [Hc _ _ _] H.
  pose proof (inv_producer_count _ _ _ _ Hc) as Hcount.
  pose proof (inv_n_max _ _ _ _ Hc) as Hmax.
  pose proof (done_count_le (chan s) ltac:(lia)) as Hdone.
  rewrite <- (inv_done_count _ _ _ _ Hc) in Hdone.
  assert (0 ≤ n_producers_closed (chan s)) as Hpos
    by (rewrite (inv_done_count _ _ _ _ Hc); unfold done_count; lia).
  pose proof size_max_eq as HM.
  destruct a; run_cases H; leaf H; bool_facts;
    rewrite ?size_wrap_small by lia; lia.
Qed.

Lemma run_all_counts tr s acts tr' s' :
  execution tr s →
  run_all acts s = Some (tr', s') →
  producer_count (chan s) ≤ producer_count (chan s')
  ∧ n_producers_closed (chan s) ≤ n_producers_closed (chan s').
Proof.
  revert tr s tr'. induction acts as [|a acts IH];
    intros tr s tr' Hexec; cbn [run_all]; [by intros [= <- <-] |].
  destruct (run a s) as [[evs s1]|] eqn:Hrun; [| done].
  destruct (run_all acts s1) as [[tr2 s2]|] eqn:Hrest; [| done].
  intros [= <- <-].
  destruct (run_counts _ _ _ _ _ (execution_inv _ _ Hexec) Hrun).
  pose proof (IH _ _ _ (exec_step _ _ _ _ _ Hexec Hrun) Hrest). lia.
Qed.

(** An execution of the example channel under a schedule. *)
Ltac schedule_execution sched :=
  eapply (execution_schedule example_params example_env 0 _ _ _ sched);
    [apply example_params_valid | vm_compute; reflexivity
    | vm_compute; reflexivity].

(** X1.  In every execution, whatever the threads do next, a closed channel
    stays closed and a joined channel stays joined; the number of
    registered producers and the number of producers counted as closed
    never decrease; and the size of the slot, the maximal number of
    producers and the error policy never change. *)
Theorem closure_is_permanent tr s acts tr' s' :
  execution tr s →
  run_all acts s = Some (tr', s') →
  (closed (chan s) = true → closed (chan s') = true)
  ∧ (joined (chan s) = true → joined (chan s') = true)
  ∧ producer_count (chan s) ≤ producer_count (chan s')
  ∧ n_producers_closed (chan s) ≤ n_producers_closed (chan s')
  ∧ buffer_size (chan s') = buffer_size (chan s)
  ∧ n_max_producers (chan s') = n_max_producers (chan s)
  ∧ error_handling_enabled (chan s') = error_handling_enabled (chan s).
Proof.
  intros Hexec Hrun.
  destruct (run_all_frame _ _ _ _ Hrun) as (? & ? & ? & _ & _ & ? & ?).
  destruct (run_all_counts _ _ _ _ _ Hexec Hrun).
  by split_and!.
Qed.

(** The channel of [close_schedule], already closed, when the consumer goes
    round its loop once more. *)
Lemma closure_is_permanent_witness :
  let s' := system_of (run_all [ActConsumerPass MallocOk] close_system) in
  (closed (chan close_system) = true → closed (chan s') = true)
  ∧ (joined (chan close_system) = true → joined (chan s') = true)
  ∧ producer_count (chan close_system) ≤ producer_count (chan s')
  ∧ n_producers_closed (chan close_system) ≤ n_producers_closed (chan s')
  ∧ buffer_size (chan s') = buffer_size (chan close_system)
  ∧ n_max_producers (chan s') = n_max_producers (chan close_system)
  ∧ error_handling_enabled (chan s') = error_handling_enabled (chan close_system).
Proof.
  intros s'.
  apply (closure_is_permanent close_trace close_system
           [ActConsumerPass MallocOk]
           (trace_of (run_all [ActConsumerPass MallocOk] close_system)) s').
  - schedule_execution close_schedule.
  - vm_compute. reflexivity.
Defined.

(** X2.  Once [mpsc_consumer_close] has run, at any later time:
    [mpsc_producer_ping] answers [false], a call of [mpsc_producer_send]
    with a message that fits the slot returns [false] at once, a producer
    that wakes up in [mpsc_producer_send] returns [false], and every
    registration is refused; none of them changes the channel. *)
Theorem close_refuses_everything s evs s1 acts tr s2 :
  run ActConsumerClose s = Some (evs, s1) →
  run_all acts s1 = Some (tr, s2) →
  closed (chan s2) = true
  ∧ mpsc_producer_ping (chan s2) = Ret false (chan s2) [EvLock; EvUnlock]
  ∧ (∀ self data len,
       len ≤ buffer_size (chan s2) →
       mpsc_producer_send self data len (chan s2)
       = Ret (SendReturned false) (chan s2) [EvLock; EvUnlock])
  ∧ (∀ id data len,
       mpsc_producer_send_resume id data len (chan s2)
       = Ret (SendReturned false) (chan s2)
           [EvWake (ProducerCondVar id); EvUnlock])
  ∧ (∀ callback context code,
       ∃ r, mpsc_register_producer callback context code (chan s2)
            = Ret r (chan s2) [EvLock; EvUnlock]
          ∧ r ≠ MPSC_REGISTER_PRODUCER_ERROR_NONE).
Proof.
  intros Hclose Hrun.
  assert (closed (chan s1) = true) as Hc1.
  { cbn [run] in Hclose. destruct (can_call s ConsumerThread); [| done].
    rewrite mpsc_consumer_close_unfold in Hclose. by injection Hclose as <- <-. }
  destruct (run_all_frame _ _ _ _ Hrun) as (_ & _ & _ & _ & _ & Hc & _).
  specialize (Hc Hc1). split; [done |]. split_and!.
  - by rewrite mpsc_producer_ping_unfold, Hc.
  - intros self data len Hlen. rewrite mpsc_producer_send_unfold, Hc.
    by destruct (Z.ltb_spec (buffer_size (chan s2)) len); [lia |].
  - intros id data len.
    by rewrite mpsc_producer_send_resume_unfold, send_wait_loop_unfold, Hc.
  - intros cb ctx code. rewrite mpsc_register_producer_unfold, Hc.
    destruct (n_max_producers (chan s2) =? producer_count (chan s2));
      eexists; by split.
Qed.

(** The close of [close_schedule], made from the consumer callback, followed
    by the return of that callback. *)
Lemma close_refuses_everything_witness :
  closed (chan close_system) = true
  ∧ mpsc_producer_ping (chan close_system)
    = Ret false (chan close_system) [EvLock; EvUnlock]
  ∧ (∀ self data len,
       len ≤ buffer_size (chan close_system) →
       mpsc_producer_send self data len (chan close_system)
       = Ret (SendReturned false) (chan close_system) [EvLock; EvUnlock])
  ∧ (∀ id data len,
       mpsc_producer_send_resume id data len (chan close_system)
       = Ret (SendReturned false) (chan close_system)
           [EvWake (ProducerCondVar id); EvUnlock])
  ∧ (∀ callback context code,
       ∃ r, mpsc_register_producer callback context code (chan close_system)
            = Ret r (chan close_system) [EvLock; EvUnlock]
          ∧ r ≠ MPSC_REGISTER_PRODUCER_ERROR_NONE).
Proof.
  eapply (close_refuses_everything
            (system_of (run_all (take 4 close_schedule)
                          (new_system example_channel)))
            _ _ [ActConsumerCallbackReturn] _ close_system).
  - vm_compute. reflexivity.
  - vm_compute. reflexivity.
Defined.



(** ** The mutex *)

Lemma disciplined_app held l1 l2 :
  disciplined held (l1 ++ l2)
  = disciplined held l1 && disciplined (foldl lock_after held l1) l2.
Proof.
  revert held. induction l1 as [|e l1 IH]; intros held; [done |].
  cbn [app disciplined foldl]. rewrite IH. by rewrite !andb_assoc.
Qed.

Lemma disciplined_sound held evs pre e post :
  disciplined held evs = true →
  evs = pre ++ e :: post →
  (is_callback e = true → foldl lock_after held pre = false)
  ∧ (needs_mutex e = true → foldl lock_after held pre = true)
  ∧ (e = EvLock → foldl lock_after held pre = false).
Proof.
  intros Hd ->. rewrite disciplined_app in Hd.
  apply andb_true_iff in Hd as [_ Hd]. cbn [disciplined] in Hd.
  destruct (foldl lock_after held pre); split_and!; try done; intros He.
  - by rewrite He in Hd.
  - by subst e.
  - rewrite He in Hd. by destruct (is_callback e).
Qed.

Lemma signals_disciplined (g : Z → cond_var) (l : list Z) :
  disciplined true ((λ i, EvSignal (g i)) <$> l) = true
  ∧ foldl lock_after true ((λ i, EvSignal (g i)) <$> l) = true.
Proof. induction l as [|i l [? ?]]; [done |]. by cbn. Qed.

Lemma run_disciplined a s evs s' :
  run a s = Some (evs, s') →
  disciplined false evs = true ∧ lock_held evs = false.
Proof.
  intros H. destruct a.
  7: { cbn [run] in H. destruct (can_call s ConsumerThread); [| done].
       rewrite mpsc_consumer_close_unfold in H. injection H as <- <-.
       destruct (signals_disciplined
         (λ i, ProducerCondVar (producer_waiting_ids_queue (chan s) !!! Z.to_nat i))
         (seqZ 0 (n_producers_waiting (chan s)))) as [Hd Hl].
       unfold lock_held. cbn [app disciplined foldl lock_after is_callback
         needs_mutex andb negb].
       rewrite !disciplined_app, !foldl_app. cbn [foldl lock_after].
       rewrite Hd, Hl. done. }
  all: run_cases H; injection H as <- <-; done.
Qed.

(** X4.  In every step of every thread, the mutex is not held at the end
    (the critical section has released it or waits on a condition
    variable); the consumer callback and the error callback are called
    with the mutex released; every write of the wait queue or of the
    hand-off, every signal, every unlock and every wait happens with the
    mutex held; and the mutex is never locked while held. *)
Theorem callbacks_run_unlocked a s evs s' :
  run a s = Some (evs, s') →
  lock_held evs = false
  ∧ ∀ pre e post,
      evs = pre ++ e :: post →
      (is_callback e = true → lock_held pre = false)
      ∧ (needs_mutex e = true → lock_held pre = true)
      ∧ (e = EvLock → lock_held pre = false).
Proof.
  intros [Hd Hl]%run_disciplined. split; [done |].
  intros pre e post. by apply disciplined_sound.
Qed.

(** The pass of the consumer loop that delivers [1; 2]. *)
Lemma callbacks_run_unlocked_witness :
  let evs := [EvLock; EvAcquire ResDelivery; EvUnlock;
              EvConsumerCallback (Some [1; 2]) 2 false] in
  lock_held evs = false
  ∧ ∀ pre e post,
      evs = pre ++ e :: post →
      (is_callback e = true → lock_held pre = false)
      ∧ (needs_mutex e = true → lock_held pre = true)
      ∧ (e = EvLock → lock_held pre = false).
Proof.
  intros evs.
  eapply (callbacks_run_unlocked (ActConsumerPass MallocOk)
            (system_of (run_all (take 2 close_schedule)
                          (new_system example_channel))) evs).
  vm_compute. reflexivity.
Defined.

(** ** What a send does to the channel *)

Lemma range_is_small c arr ele srv id :
  chan_inv arr ele srv c → 0 ≤ id < n_max_producers c →
  to_ssize id = id ∧ size_wrap id = id ∧ id ≠ -1.
Proof.
  intros Hinv Hid. pose proof (inv_n_max _ _ _ _ Hinv). pose proof size_max_eq.
  split; [apply to_ssize_small; unfold SSIZE_MAX; lia |].
  split; [apply size_wrap_small; lia | lia].
Qed.

Lemma send_wait_loop_effect arr ele srv id data len c r c' evs :
  chan_inv arr ele srv c →
  0 ≤ id < n_max_producers c →
  send_wait_loop id data len c = Ret r c' evs →
  match r with
  | SendWaiting id' =>
      id' = id ∧ c' = c ∧ closed c = false
      ∧ next_waiting_producer_id c ≠ id
      ∧ evs = [EvWait (ProducerCondVar id)]
  | SendReturned false => c' = c ∧ closed c = true ∧ evs = [EvUnlock]
  | SendReturned true =>
      closed c = false ∧ next_waiting_producer_id c = id
      ∧ wait_queue c = id :: wait_queue c'
      ∧ evs = [EvDequeue id; EvSignal MainCondVar; EvUnlock]
      ∧ ∃ q,
          let c1 := set_next_waiting_producer_id (-1)
                      (set_n_producers_waiting (n_producers_waiting c - 1)
                         (set_producer_waiting_ids_queue q c)) in
          c' = set_pending_message true (set_n len
                 (if 0 <? len then set_buffer (memcpy (buffer c) data len) c1
                  else c1))
  end.
Proof.
  intros Hinv Hid. rewrite send_wait_loop_unfold.
  destruct (range_is_small _ _ _ _ _ Hinv Hid) as (-> & _ & Hne).
  destruct (closed c) eqn:Hclosed; cbn [negb andb].
  { by intros [= <- <- <-]. }
  destruct (Z.eqb_spec (next_waiting_producer_id c) id) as [Hnext | Hnext];
    cbn [negb]; [| by intros [= <- <- <-]].
  destruct (mpsc_shift_producer_wait_queue c) as [[] c1 e1|] eqn:Hshift; [| done].
  destruct (mpsc_shift_producer_wait_queue_inv _ _ _ id _ _ _ _ Hinv Hnext
              Hne Hshift) as (-> & Hinv1 & Hnext1 & Hcount1).
  rewrite send_deposit_unfold. intros [= <- <- <-].
  split; [done |]. split; [done |].
  pose proof (inv_arrivals _ _ _ _ Hinv) as Ha.
  pose proof (inv_arrivals _ _ _ _ Hinv1) as Ha1.
  rewrite Ha, <- app_assoc in Ha1. apply app_inv_head in Ha1.
  split.
  { rewrite Ha1. cbn [app]. f_equal. unfold wait_queue. by destruct (0 <? len). }
  split; [done |].
  revert Hshift. rewrite mpsc_shift_producer_wait_queue_unfold.
  destruct (Z.eqb_spec (n_producers_waiting c) 0); [done |].
  pose proof (inv_waiting _ _ _ _ Hinv). pose proof (inv_n_max _ _ _ _ Hinv).
  pose proof size_max_eq.
  rewrite (size_wrap_small (n_producers_waiting c - 1)) by lia.
  intros [= <-]. eexists. cbv zeta. fields. reflexivity.
Qed.

Lemma mpsc_producer_send_effect arr ele srv self data len c r c' evs :
  chan_inv arr ele srv c →
  mpsc_producer_send self data len c = Ret r c' evs →
  len ≤ buffer_size c
  ∧ match r with
    | SendReturned false => c' = c ∧ closed c = true ∧ evs = [EvLock; EvUnlock]
    | SendWaiting id' =>
        id' = self ∧ closed c = false
        ∧ (pending_message c = true ∨ next_waiting_producer_id c ≠ -1)
        ∧ next_waiting_producer_id c ≠ self
        ∧ 0 ≤ self < n_max_producers c
        ∧ wait_queue c' = wait_queue c ++ [self]
        ∧ evs = [EvLock; EvEnqueue self; EvWait (ProducerCondVar self)]
        ∧ c' = set_n_producers_waiting (n_producers_waiting c + 1)
                 (set_producer_waiting_ids_queue
                    (<[Z.to_nat (n_producers_waiting c) := self]>
                       (producer_waiting_ids_queue c)) c)
    | SendReturned true =>
        closed c = false
        ∧ (pending_message c = false ∧ next_waiting_producer_id c = -1
           ∧ evs = [EvLock; EvSignal MainCondVar; EvUnlock]
           ∧ c' = set_pending_message true (set_n len
                    (if 0 <? len then set_buffer (memcpy (buffer c) data len) c
                     else c))
           ∨ next_waiting_producer_id c = self
             ∧ 0 ≤ self < n_max_producers c
             ∧ wait_queue c ++ [self] = self :: wait_queue c'
             ∧ closed c' = false)
    end.
Proof.
  intros Hinv. rewrite mpsc_producer_send_unfold.
  destruct (Z.ltb_spec (buffer_size c) len); [done |]. split; [lia |].
  revert H0. destruct (closed c) eqn:Hclosed; [by intros [= <- <- <-] |].
  destruct (pending_message c || negb (next_waiting_producer_id c =? -1))
    eqn:Hbusy.
  - destruct (mpsc_producer_subscribe_to_wait_queue self c)
      as [id c1 e1|] eqn:Hsub; [| done].
    destruct (mpsc_producer_subscribe_to_wait_queue_inv _ _ _ _ _ _ _ _ Hinv Hsub)
      as (-> & Hself & -> & Hinv1 & Hcount1 & Hclosed1 & Hnext1).
    assert (c1 = set_n_producers_waiting (n_producers_waiting c + 1)
                   (set_producer_waiting_ids_queue
                      (<[Z.to_nat (n_producers_waiting c) := self]>
                         (producer_waiting_ids_queue c)) c)) as Hc1.
    { revert Hsub. rewrite mpsc_producer_subscribe_to_wait_queue_unfold.
      cbv zeta. destruct (find _ _) as [i|] eqn:Hfind; [| done].
      apply find_seqZ_inv in Hfind as [-> _].
      destruct (range_is_small _ _ _ _ _ Hinv Hself) as (-> & -> & ?).
      destruct (Z.eqb_spec self (-1)); [done |].
      destruct (Z.eqb_spec (n_producers_waiting c) (n_max_producers c)); [done |].
      pose proof (inv_waiting _ _ _ _ Hinv). pose proof (inv_n_max _ _ _ _ Hinv).
      pose proof size_max_eq.
      rewrite (size_wrap_small (n_producers_waiting c + 1)) by lia.
      by intros [= <-]. }
    assert (wait_queue c1 = wait_queue c ++ [self]) as Hq.
    { pose proof (inv_arrivals _ _ _ _ Hinv) as Ha.
      pose proof (inv_arrivals _ _ _ _ Hinv1) as Ha1.
      rewrite Ha, <- app_assoc in Ha1. by apply app_inv_head in Ha1. }
    assert (0 ≤ self < n_max_producers c1) as Hself1 by (by rewrite Hc1).
    destruct (send_wait_loop self data len c1) as [r2 c2 e2|] eqn:Hloop; [| done].
    pose proof (send_wait_loop_effect _ _ _ _ _ _ _ _ _ _ Hinv1 Hself1 Hloop)
      as Heff.
    intros [= <- <- <-].
    destruct r2 as [[] | id'].
    + destruct Heff as (_ & Hn & Hwq & -> & q & Hc2). split; [done |]. right.
      split; [congruence |]. split; [done |]. split; [by rewrite <- Hq |].
      cbv zeta in Hc2. rewrite Hc2. destruct (0 <? len); fields; congruence.
    + destruct Heff as (_ & ? & _). congruence.
    + destruct Heff as (-> & -> & _ & Hn & ->).
      split_and!; try done; try congruence; try lia.
      apply orb_true_iff in Hbusy as [? | Hn1]; [by left | right].
      by apply negb_true_iff, Z.eqb_neq in Hn1.
  - apply orb_false_iff in Hbusy as [Hp Hnext].
    apply negb_false_iff, Z.eqb_eq in Hnext.
    rewrite send_deposit_unfold. intros [= <- <- <-].
    split; [done |]. by left.
Qed.

(** ** The steps of a sending producer *)

Lemma run_send tr s id data len evs s' :
  sys_inv tr s →
  run (ActSend id data len) s = Some (evs, s') →
  ∃ r c',
    producer_threads s !! Z.to_nat id = Some ProducerRunning
    ∧ 0 ≤ id < producer_count (chan s)
    ∧ Z.of_nat (length data) = len
    ∧ mpsc_producer_send id data len (chan s) = Ret r c' evs
    ∧ s' = MkSystem c' (main_thread s) (consumer_thread s)
             (<[Z.to_nat id := after_send id data len r]> (producer_threads s)).
Proof.
  intros [Hc Hlen Hsleep _]. cbn [run].
  destruct (can_call s (ProducerThread id) && send_arguments_ok data len)
    eqn:Hcall; [| done].
  apply andb_true_iff in Hcall as [Hcall Hargs]. cbn in Hcall.
  destruct (producer_status s id) as [[| |]|] eqn:Hst; try done.
  apply producer_status_lookup in Hst as (Hid & Hst & Hlt).
  rewrite Hlen in Hlt.
  unfold send_arguments_ok in Hargs. bool_facts.
  destruct (mpsc_producer_send id data len (chan s)) as [r c' e'|] eqn:Hsend;
    [| done].
  intros [= <- <-]. exists r, c'. split_and!; try done; lia.
Qed.

Lemma run_send_wake tr s id evs s' :
  sys_inv tr s →
  run (ActSendWake id) s = Some (evs, s') →
  ∃ data len r c' e,
    producer_threads s !! Z.to_nat id = Some (ProducerAsleep id data len)
    ∧ 0 ≤ id < producer_count (chan s)
    ∧ send_wait_loop id data len (chan s) = Ret r c' e
    ∧ evs = EvWake (ProducerCondVar id) :: e
    ∧ s' = MkSystem c' (main_thread s) (consumer_thread s)
             (<[Z.to_nat id := after_send id data len r]> (producer_threads s)).
Proof.
  intros [Hc Hlen Hsleep _]. cbn [run].
  destruct (producer_status s id) as [[| id' data len |]|] eqn:Hst; try done.
  apply producer_status_lookup in Hst as (Hid & Hst & Hlt).
  pose proof (Hsleep _ _ _ _ Hst) as Hid'.
  assert (id' = id) as -> by lia. rewrite Hlen in Hlt.
  rewrite mpsc_producer_send_resume_unfold.
  destruct (send_wait_loop id data len (chan s)) as [r c' e|] eqn:Hloop;
    [| done].
  intros [= <- <-]. exists data, len, r, c', e. split_and!; try done; lia.
Qed.

(** ** A pending message stays in the slot *)



(** ** The callbacks of the consumer thread *)

Lemma signals_no_callback (g : Z → cond_var) (l : list Z) :
  Forall (λ e, is_callback e = false) ((λ i, EvSignal (g i)) <$> l).
Proof. induction l as [|i l IH]; by constructor. Qed.

Ltac thread_facts :=
  unfold consumer_finished; fields;
  cbn [after_consumer_pass];
  repeat match goal with
  | H : consumer_thread _ = _ |- _ => rewrite H
  end.

Lemma run_callbacks a s evs s' :
  run a s = Some (evs, s') →
  (Forall (λ e, is_callback e = false) evs
   ∧ consumer_finished s' = consumer_finished s)
  ∨ (consumer_finished s = false
     ∧ is_consumer_pass a = true
     ∧ ∃ pre cb,
         evs = pre ++ [cb]
         ∧ Forall (λ e, is_callback e = false) pre
         ∧ (cb = EvConsumerCallback None 0 true
            ∧ consumer_finished s' = true
            ∧ closed (chan s') = true
            ∧ pending_message (chan s') = false
            ∨ is_callback cb = true
              ∧ cb ≠ EvConsumerCallback None 0 true
              ∧ (∀ d l, cb ≠ EvConsumerCallback d l true)
              ∧ consumer_finished s' = false)).
Proof.
  intros H. destruct a.
  7: { cbn [run] in H. destruct (can_call s ConsumerThread); [| done].
       rewrite mpsc_consumer_close_unfold in H. injection H as <- <-.
       left. split; [| done].
       repeat (first [apply Forall_app; split | apply Forall_cons; split
                     | apply Forall_nil | apply signals_no_callback]); done. }
  all: run_cases H; injection H as <- <-.
  all: first
    [ left; split; [by repeat constructor | by thread_facts]
    | right; split; [by thread_facts |]; split; [done |];
      match goal with
      | |- ∃ pre cb, ?l = _ ∧ _ =>
          exists (removelast l), (List.last l EvLock)
      end;
      cbn [removelast List.last app];
      split; [done |]; split; [by repeat constructor |];
      first [ left; split; [done |]; split; [by thread_facts |];
              fields; bool_facts; by split
            | right; split; [done |]; split; [done |];
              split; [done |]; by thread_facts ] ].
Qed.

Lemma closed_empty_stays a s evs s' :
  closed (chan s) = true →
  pending_message (chan s) = false →
  run a s = Some (evs, s') →
  closed (chan s') = true ∧ pending_message (chan s') = false.
Proof.
  intros Hc Hp H. destruct a; run_cases H; leaf H; bool_facts;
    try done; congruence.
Qed.

Lemma run_finished a s evs s' :
  (consumer_finished s = true →
   closed (chan s) = true ∧ pending_message (chan s) = false) →
  run a s = Some (evs, s') →
  consumer_finished s' = true →
  closed (chan s') = true ∧ pending_message (chan s') = false.
Proof.
  intros Hinv Hrun Hfin.
  destruct (run_callbacks _ _ _ _ Hrun)
    as [[_ Heq] | (_ & _ & pre & cb & _ & _ & [(_ & _ & ? & ?) | (_ & _ & _ & ?)])];
    [| done | congruence].
  rewrite Heq in Hfin. destruct (Hinv Hfin).
  by eapply closed_empty_stays.
Qed.

Lemma execution_finished tr s :
  execution tr s →
  consumer_finished s = true →
  closed (chan s) = true ∧ pending_message (chan s) = false.
Proof.
  induction 1 as [| tr s a evs s' _ IH Hrun]; [done |].
  by eapply run_finished.
Qed.

Lemma last_or_before {A} (l1 l : list A) (x y : A) (l2 : list A) :
  l1 ++ [y] = l ++ x :: l2 → l2 = [] ∧ x = y ∧ l = l1 ∨ x ∈ l1.
Proof.
  revert l. induction l1 as [|z l1 IH]; intros l; cbn [app].
  - destruct l as [|? [|? ?]]; cbn; intros [= ]; subst; by left.
  - destruct l as [|z' l]; cbn [app].
    + intros [= <- _]. right. apply list_elem_of_here.
    + intros [= <- Heq]. destruct (IH _ Heq) as [(-> & -> & ->) | Hin];
        [by left | right; by apply list_elem_of_further].
Qed.

(** What follows a closing callback in the events of one step. *)
Lemma run_closing a s evs s' l t d len tr2 :
  run a s = Some (evs, s') →
  (λ e, (actor a, e)) <$> evs = l ++ (t, EvConsumerCallback d len true) :: tr2 →
  t = ConsumerThread ∧ d = None ∧ len = 0 ∧ tr2 = []
  ∧ consumer_finished s' = true.
Proof.
  intros Hrun Heq.
  assert (∀ evs0 : list event,
    Forall (λ e, is_callback e = false) evs0 →
    (t, EvConsumerCallback d len true) ∉ (λ e, (actor a, e)) <$> evs0)
    as Hnot.
  { intros evs0 Hall (e & [= _ <-] & Hin)%list_elem_of_fmap.
    by apply (proj1 (Forall_forall _ _) Hall) in Hin. }
  destruct (run_callbacks _ _ _ _ Hrun)
    as [[Hall _] | (_ & Ha & pre & cb & -> & Hpre & Hcb)].
  - destruct (Hnot _ Hall). rewrite Heq.
    apply elem_of_app. right. apply list_elem_of_here.
  - rewrite fmap_app in Heq. cbn [fmap list_fmap] in Heq.
    apply last_or_before in Heq as [(-> & [= -> Hcbk] & _) | Hin];
      [| by destruct (Hnot _ Hpre)].
    destruct Hcb as [(-> & ? & _) | (_ & _ & Hne & _)];
      [| by destruct (Hne d len)].
    injection Hcbk as -> ->. by destruct a.
Qed.

(** Once the closing callback has been made, it stays the last
    callback, and the channel stays closed and empty. *)
Lemma execution_closing tr s tr1 t d len tr2 :
  execution tr s →
  tr = tr1 ++ (t, EvConsumerCallback d len true) :: tr2 →
  t = ConsumerThread ∧ d = None ∧ len = 0
  ∧ Forall (λ x, is_callback x.2 = false) tr2
  ∧ consumer_finished s = true.
Proof.
  intros Hexec. revert tr1 tr2.
  induction Hexec as [| tr s a evs s' Hexec IH Hrun]; intros tr1 tr2 Heq.
  { by destruct tr1. }
  apply app_eq_app in Heq as [l [[-> Heq] | [-> Heq]]].
  - destruct l as [|x l]; cbn [app] in Heq.
    + symmetry in Heq. change (?x :: ?l) with ([] ++ x :: l) in Heq.
      destruct (run_closing _ _ _ _ _ _ _ _ _ Hrun Heq)
        as (? & ? & ? & -> & ?).
      by split_and!.
    + injection Heq as <- ->.
      destruct (IH _ _ eq_refl) as (? & ? & ? & Hl & Hfin).
      destruct (run_callbacks _ _ _ _ Hrun)
        as [[Hall Hsame] | (? & _)]; [| congruence].
      split_and!; try done; [| congruence].
      apply Forall_app. split; [done |].
      apply Forall_fmap. by eapply Forall_impl.
  - destruct (run_closing _ _ _ _ _ _ _ _ _ Hrun Heq) as (? & ? & ? & -> & ?).
    by split_and!.
Qed.

(** X6.  In every execution, a callback with [closed = true] is made by
    the consumer thread, with no data and length 0, and it is the last
    callback: nothing that follows it in the trace is a call of the
    consumer callback or of the error callback.  From then on the
    consumer thread is in that callback or has returned, and the channel
    is closed with no message pending. *)
Theorem closing_callback_is_last tr s tr1 t d len tr2 :
  execution tr s →
  tr = tr1 ++ (t, EvConsumerCallback d len true) :: tr2 →
  t = ConsumerThread ∧ d = None ∧ len = 0
  ∧ Forall (λ x, is_callback x.2 = false) tr2
  ∧ consumer_finished s = true
  ∧ closed (chan s) = true
  ∧ pending_message (chan s) = false.
Proof.
  intros Hexec Heq.
  destruct (execution_closing _ _ _ _ _ _ _ Hexec Heq) as (? & ? & ? & ? & Hfin).
  destruct (execution_finished _ _ Hexec Hfin). by split_and!.
Qed.

(** The life of a channel, followed by the part of [mpsc_join] that runs
    after the consumer thread has returned. *)
Lemma closing_callback_is_last_witness :
  let s := system_of (run_all [ActJoinResume] life_system) in
  ConsumerThread = ConsumerThread ∧ @None (list Z) = None ∧ 0 = 0
  ∧ Forall (λ x, is_callback x.2 = false)
      [(MainThread, EvLock); (MainThread, EvUnlock)]
  ∧ consumer_finished s = true
  ∧ closed (chan s) = true
  ∧ pending_message (chan s) = false.
Proof.
  intros s.
  apply (closing_callback_is_last
           (trace_of (run_all (life_schedule ++ [ActJoinResume])
                        (new_system example_channel)))
           s (removelast life_trace) ConsumerThread None 0
           [(MainThread, EvLock); (MainThread, EvUnlock)]).
  - schedule_execution (life_schedule ++ [ActJoinResume]).
  - vm_compute. reflexivity.
Defined.

(** ** The producers that sleep and the wait queue *)

Lemma run_quiet a s evs s' :
  is_send a = false →
  run a s = Some (evs, s') →
  wait_queue (chan s') = wait_queue (chan s)
  ∧ (closed (chan s') = false → closed (chan s) = false)
  ∧ buffer_size (chan s') = buffer_size (chan s)
  ∧ ∀ i id data len,
      producer_threads s' !! i = Some (ProducerAsleep id data len)
      ↔ producer_threads s !! i = Some (ProducerAsleep id data len).
Proof.
  intros Ha H. destruct a; try done.
  all: try (run_cases H; leaf H; unfold wait_queue; fields;
            split_and!; try done; congruence).
  - (* register *)
    run_cases H; leaf H; unfold wait_queue; fields;
      (split; [done |]); (split; [congruence |]); (split; [done |]); try done.
    intros i id data len. split.
    + intros [Hl | [_ Hl]]%lookup_app_Some; [done |].
      by destruct (i - length (producer_threads s))%nat as [|[|?]].
    + intros Hl. by apply lookup_app_l_Some.
  - (* the producer returns *)
    cbn [run] in H. destruct (can_call s (ProducerThread id)) eqn:Hcall; [| done].
    cbn in Hcall. destruct (producer_status s id) as [[| |]|] eqn:Hst; try done.
    apply producer_status_lookup in Hst as (Hid & Hst & Hlt).
    run_cases H; leaf H; unfold wait_queue; fields;
      (split; [done |]); (split; [congruence |]); (split; [done |]).
    all: intros i id' data len;
      (destruct (decide (Z.to_nat id = i)) as [<- | Hne];
       [rewrite list_lookup_insert_eq by done; rewrite Hst; split; done
       | by rewrite list_lookup_insert_ne by done]).
Qed.

Lemma sleepers_same_threads s c' :
  wait_queue c' = wait_queue (chan s) →
  closed c' = closed (chan s) →
  buffer_size c' = buffer_size (chan s) →
  sleepers_inv s →
  sleepers_inv (MkSystem c' (main_thread s) (consumer_thread s)
                  (producer_threads s)).
Proof.
  intros Hq Hc Hb [H1 H2 H3 H4].
  constructor; cbn [chan producer_threads]; rewrite ?Hq, ?Hc, ?Hb; done.
Qed.

Lemma run_sleepers tr s a evs s' :
  sys_inv tr s →
  sleepers_inv s →
  run a s = Some (evs, s') →
  sleepers_inv s'.
Proof.
  intros Hinv Hs Hrun. pose proof Hinv as [Hc Hlen Hsleep _].
  pose proof Hs as [Hqueued Hmsg Hnodup Hasleep].
  pose proof (inv_producer_count _ _ _ _ Hc) as Hcount.
  destruct (is_send a) eqn:Ha.
  2: { destruct (run_quiet _ _ _ _ Ha Hrun) as (Hq & Hcl & Hb & Hth).
       constructor; rewrite ?Hq, ?Hb.
       - intros i id data len Hl%Hth. by eapply Hqueued.
       - intros i id data len Hl%Hth. by eapply Hmsg.
       - intros Hopen%Hcl. by apply Hnodup.
       - intros id Hopen%Hcl Hin.
         destruct (Hasleep _ Hopen Hin) as (data & len & Hl).
         exists data, len. by apply Hth. }
  destruct a as [| | | | | | | id data len | id | |]; try done.
  - (* send *)
    destruct (run_send _ _ _ _ _ _ _ Hinv Hrun)
      as (r & c' & Hst & Hid & Hdata & Hsend & ->).
    destruct (mpsc_producer_send_effect _ _ _ _ _ _ _ _ _ _ Hc Hsend)
      as [Hsize Heff].
    assert (closed (chan s) = false → id ∉ wait_queue (chan s)) as Hout.
    { intros Hopen Hin. destruct (Hasleep _ Hopen Hin) as (? & ? & Hl).
      congruence. }
    destruct r as [[] | id']; cbn [after_send].
    + (* deposited *)
      destruct Heff as (Hopen & [(_ & _ & _ & ->) | (Hnext & Hrange & _)]).
      * rewrite list_insert_id by done.
        apply sleepers_same_threads; [| | | done];
          unfold wait_queue; fields; by destruct (0 <? len).
      * destruct (inv_handoff _ _ _ _ Hc) as [? | Hhead]; [lia |].
        destruct (Hout Hopen). rewrite Hnext in Hhead.
        apply head_Some_elem_of in Hhead. done.
    + (* closed *)
      destruct Heff as (-> & _). rewrite list_insert_id by done.
      by destruct s.
    + (* asleep *)
      destruct Heff as (-> & Hopen & _ & _ & Hrange & Hq & _ & Hc').
      assert (closed c' = false ∧ buffer_size c' = buffer_size (chan s))
        as [Hopen' Hb] by (by rewrite Hc').
      assert (Z.to_nat id < length (producer_threads s))%nat as Hlt by lia.
      constructor; cbn [chan producer_threads]; rewrite ?Hq, ?Hb.
      * intros i id0 data0 len0.
        destruct (decide (Z.to_nat id = i)) as [<- | Hne].
        -- rewrite list_lookup_insert_eq by done. intros [= <- _ _].
           apply elem_of_app. right. apply list_elem_of_here.
        -- rewrite list_lookup_insert_ne by done. intros Hl.
           apply elem_of_app. left. by eapply Hqueued.
      * intros i id0 data0 len0.
        destruct (decide (Z.to_nat id = i)) as [<- | Hne].
        -- rewrite list_lookup_insert_eq by done. by intros [= _ <- <-].
        -- rewrite list_lookup_insert_ne by done. apply Hmsg.
      * intros _. apply NoDup_app. split; [by apply Hnodup |].
        split; [| apply NoDup_singleton].
        intros x Hx ->%list_elem_of_singleton. by destruct (Hout Hopen).
      * intros j _ [Hin | ->%list_elem_of_singleton]%elem_of_app.
        -- destruct (Hasleep _ Hopen Hin) as (data0 & len0 & Hl).
           exists data0, len0. rewrite list_lookup_insert_ne; [done |].
           intros Heq. rewrite <- Heq in Hl. congruence.
        -- exists data, len. by rewrite list_lookup_insert_eq.
  - (* send, from its sleep *)
    destruct (run_send_wake _ _ _ _ _ Hinv Hrun)
      as (data & len & r & c' & e & Hst & Hid & Hloop & _ & ->).
    assert (0 ≤ id < n_max_producers (chan s)) as Hrange by lia.
    pose proof (send_wait_loop_effect _ _ _ _ _ _ _ _ _ _ Hc Hrange Hloop)
      as Heff.
    assert (Z.to_nat id < length (producer_threads s))%nat as Hlt by lia.
    destruct r as [[] | id']; cbn [after_send].
    + (* deposited *)
      destruct Heff as (Hopen & Hnext & Hq & _ & q & Hc').
      cbv zeta in Hc'.
      assert (closed c' = false ∧ buffer_size c' = buffer_size (chan s))
        as [Hopen' Hb] by (rewrite Hc'; by destruct (0 <? len)).
      specialize (Hnodup Hopen). rewrite Hq in Hnodup.
      apply NoDup_cons in Hnodup as [Hfresh Hnodup].
      constructor; cbn [chan producer_threads]; rewrite ?Hb.
      * intros i id0 data0 len0.
        destruct (decide (Z.to_nat id = i)) as [<- | Hne];
          [by rewrite list_lookup_insert_eq by done |].
        rewrite list_lookup_insert_ne by done. intros Hl.
        pose proof (Hqueued _ _ _ _ Hl) as Hin. rewrite Hq in Hin.
        apply elem_of_cons in Hin as [-> | Hin]; [| done].
        pose proof (Hsleep _ _ _ _ Hl). lia.
      * intros i id0 data0 len0.
        destruct (decide (Z.to_nat id = i)) as [<- | Hne];
          [by rewrite list_lookup_insert_eq by done |].
        rewrite list_lookup_insert_ne by done. apply Hmsg.
      * done.
      * intros j _ Hin.
        destruct (Hasleep j Hopen) as (data0 & len0 & Hl);
          [rewrite Hq; by apply list_elem_of_further |].
        exists data0, len0. rewrite list_lookup_insert_ne; [done |].
        intros Heq. pose proof (Hsleep _ _ _ _ Hl).
        assert (j = id) as -> by lia. done.
    + (* closed *)
      destruct Heff as (-> & Hclosed & _).
      constructor; cbn [chan producer_threads].
      * intros i id0 data0 len0.
        destruct (decide (Z.to_nat id = i)) as [<- | Hne];
          [by rewrite list_lookup_insert_eq by done |].
        rewrite list_lookup_insert_ne by done. apply Hqueued.
      * intros i id0 data0 len0.
        destruct (decide (Z.to_nat id = i)) as [<- | Hne];
          [by rewrite list_lookup_insert_eq by done |].
        rewrite list_lookup_insert_ne by done. apply Hmsg.
      * congruence.
      * congruence.
    + (* asleep again *)
      destruct Heff as (-> & -> & _). rewrite list_insert_id by done.
      by destruct s.
Qed.

Lemma execution_sleepers tr s : execution tr s → sleepers_inv s.
Proof.
  induction 1 as [params env e0 c log st Hvalid Hcreate | tr s a evs s' Hexec IH Hrun].
  - apply mpsc_create_returns in Hcreate as ->.
    constructor; cbn; try done.
    + intros _. unfold wait_queue. cbn. apply NoDup_nil. done.
    + intros id _. unfold wait_queue. cbn. by intros ?%elem_of_nil.
  - eapply run_sleepers; [by apply execution_inv | done | done].
Qed.

Lemma lookups_are_take (q : list Z) (m : Z) :
  (Z.to_nat m ≤ length q)%nat →
  (λ i, q !!! Z.to_nat i) <$> seqZ 0 m = take (Z.to_nat m) q.
Proof.
  intros Hm. apply list_eq. intros k. rewrite list_lookup_fmap.
  destruct (decide (k < Z.to_nat m)%nat) as [Hk | Hk].
  - rewrite lookup_take_lt by done. rewrite lookup_seqZ_lt by lia.
    destruct (lookup_lt_is_Some_2 q k ltac:(lia)) as [x Hx].
    rewrite Hx. cbn. f_equal.
    apply list_lookup_total_correct.
    by replace (Z.to_nat (0 + Z.of_nat k)) with k by lia.
  - rewrite lookup_take_ge by lia. by rewrite lookup_seqZ_ge by lia.
Qed.

Lemma close_signals c arr ele srv :
  chan_inv arr ele srv c →
  mpsc_consumer_close c
  = Ret tt (set_closed true c)
      ([EvLock; EvSignal MainCondVar]
       ++ ((λ id, EvSignal (ProducerCondVar id)) <$> wait_queue c)
       ++ [EvUnlock]).
Proof.
  intros Hinv. rewrite mpsc_consumer_close_unfold. do 3 f_equal.
  unfold wait_queue. rewrite <- lookups_are_take.
  - by rewrite <- list_fmap_compose.
  - pose proof (inv_waiting _ _ _ _ Hinv).
    rewrite (inv_queue_length _ _ _ _ Hinv). lia.
Qed.

(** X7.  In every execution, [mpsc_consumer_close] closes the channel and
    signals the main condition variable and then the condition variable
    of each producer in the wait queue, in the order of the queue; every
    producer that sleeps in [mpsc_producer_send] is among them, and when
    it then wakes up it only releases the mutex and leaves
    [mpsc_producer_send], with the channel as it is. *)
Theorem close_wakes_every_sleeper tr s evs s' :
  execution tr s →
  run ActConsumerClose s = Some (evs, s') →
  evs = [EvLock; EvSignal MainCondVar]
        ++ ((λ id, EvSignal (ProducerCondVar id)) <$> wait_queue (chan s))
        ++ [EvUnlock]
  ∧ closed (chan s') = true
  ∧ ∀ i id data len,
      producer_threads s !! i = Some (ProducerAsleep id data len) →
      EvSignal (ProducerCondVar id) ∈ evs
      ∧ run (ActSendWake id) s'
        = Some ([EvWake (ProducerCondVar id); EvUnlock],
                set_producer_status id ProducerRunning s').
Proof.
  intros Hexec Hrun.
  pose proof (execution_inv _ _ Hexec) as [Hc Hlen Hsleep _].
  pose proof (execution_sleepers _ _ Hexec) as [Hqueued _ _ _].
  cbn [run] in Hrun. destruct (can_call s ConsumerThread); [| done].
  rewrite (close_signals _ _ _ _ Hc) in Hrun. injection Hrun as <- <-.
  split; [done |]. split; [done |].
  intros i id data len Hl. split.
  - cbn [app]. do 2 apply list_elem_of_further.
    apply elem_of_app. left. apply list_elem_of_fmap.
    exists id. split; [done |]. by eapply Hqueued.
  - pose proof (Hsleep _ _ _ _ Hl) as ->.
    cbn [run]. unfold producer_status, set_chan. fields.
    destruct (Z.leb_spec 0 (Z.of_nat i)); [| lia].
    rewrite Nat2Z.id, Hl.
    rewrite mpsc_producer_send_resume_unfold, send_wait_loop_unfold.
    fields. cbn [negb andb after_send]. unfold set_producer_status. fields.
    by rewrite Nat2Z.id.
Qed.

(** The consumer callback closes the channel while producer 1, elected,
    still sleeps. *)
Lemma close_wakes_every_sleeper_witness :
  ∃ evs s',
    run ActConsumerClose elect_system = Some (evs, s')
    ∧ evs = [EvLock; EvSignal MainCondVar]
            ++ ((λ id, EvSignal (ProducerCondVar id))
                <$> wait_queue (chan elect_system))
            ++ [EvUnlock]
    ∧ closed (chan s') = true
    ∧ ∀ i id data len,
        producer_threads elect_system !! i = Some (ProducerAsleep id data len) →
        EvSignal (ProducerCondVar id) ∈ evs
        ∧ run (ActSendWake id) s'
          = Some ([EvWake (ProducerCondVar id); EvUnlock],
                  set_producer_status id ProducerRunning s').
Proof.
  eexists _, _. split; [vm_compute; reflexivity |].
  eapply (close_wakes_every_sleeper elect_trace elect_system).
  - schedule_execution elect_schedule.
  - vm_compute. reflexivity.
Defined.

Lemma find_seqZ_some id m :
  0 ≤ id < m → find (λ i, i =? id) (seqZ 0 m) = Some id.
Proof.
  intros Hid.
  destruct (find (λ i, i =? id) (seqZ 0 m)) as [i|] eqn:Hfind.
  - by apply find_seqZ_inv in Hfind as [-> _].
  - assert (In id (seqZ 0 m)) as Hin
      by (apply list_elem_of_In, elem_of_seqZ; lia).
    pose proof (find_none _ _ Hfind id Hin) as Hne. cbn in Hne.
    by rewrite Z.eqb_refl in Hne.
Qed.

(** A running producer finds room in the wait queue. *)
Lemma running_producer_has_room tr s id :
  sys_inv tr s →
  sleepers_inv s →
  closed (chan s) = false →
  producer_threads s !! Z.to_nat id = Some ProducerRunning →
  0 ≤ id →
  n_producers_waiting (chan s) < producer_count (chan s).
Proof.
  intros [Hc Hlen Hsleep _] [_ _ Hnodup Hasleep] Hopen Hst Hid.
  pose proof (inv_waiting _ _ _ _ Hc) as Hw.
  pose proof (inv_queue_length _ _ _ _ Hc) as Hql.
  assert (length (wait_queue (chan s))
          = Z.to_nat (n_producers_waiting (chan s))) as Hwl
    by (unfold wait_queue; rewrite length_take; lia).
  assert (NoDup (id :: wait_queue (chan s))) as Hnd.
  { apply NoDup_cons. split; [| by apply Hnodup].
    intros Hin. destruct (Hasleep _ Hopen Hin) as (? & ? & Hl). congruence. }
  assert (id :: wait_queue (chan s) ⊆+ seqZ 0 (producer_count (chan s)))
    as Hsub.
  { apply NoDup_submseteq; [done |].
    intros j [-> | Hin]%elem_of_cons; apply elem_of_seqZ.
    - apply lookup_lt_Some in Hst. lia.
    - destruct (Hasleep _ Hopen Hin) as (? & ? & Hl).
      pose proof (Hsleep _ _ _ _ Hl). apply lookup_lt_Some in Hl. lia. }
  apply submseteq_length in Hsub. rewrite length_seqZ in Hsub.
  cbn [length] in Hsub. lia.
Qed.

(** X8.  In every execution, a call of [mpsc_producer_send] by the thread
    of a registered producer with a message that fits the slot does not
    stop the process, and neither does the part of a call that runs when
    a sleeping producer wakes up: the producer is found among the
    producers, the wait queue has room for it, and the queue is not
    empty when it is shifted. *)
Theorem send_stops_only_for_size tr s id :
  execution tr s →
  (can_call s (ProducerThread id) = true →
   ∀ data len,
     len ≤ buffer_size (chan s) →
     ∃ r c' evs, mpsc_producer_send id data len (chan s) = Ret r c' evs)
  ∧ (∀ data len,
       producer_status s id = Some (ProducerAsleep id data len) →
       ∃ r c' evs,
         mpsc_producer_send_resume id data len (chan s) = Ret r c' evs).
Proof.
  intros Hexec.
  pose proof (execution_inv _ _ Hexec) as Hinv.
  pose proof (execution_sleepers _ _ Hexec) as Hs.
  pose proof Hinv as [Hc Hlen Hsleep _].
  pose proof (inv_producer_count _ _ _ _ Hc) as Hcount.
  pose proof (inv_waiting _ _ _ _ Hc) as Hw.
  pose proof (inv_n_max _ _ _ _ Hc) as Hmax.
  pose proof size_max_eq as HM.
  split.
  - intros Hcall data len Hsize. cbn in Hcall.
    destruct (producer_status s id) as [[| |]|] eqn:Hst; try done.
    apply producer_status_lookup in Hst as (Hid & Hst & Hlt).
    rewrite Hlen in Hlt.
    assert (0 ≤ id < n_max_producers (chan s)) as Hrange by lia.
    rewrite mpsc_producer_send_unfold.
    destruct (Z.ltb_spec (buffer_size (chan s)) len); [lia |].
    destruct (closed (chan s)) eqn:Hopen; [by eexists _, _, _ |].
    destruct (pending_message (chan s) || _);
      [| rewrite send_deposit_unfold; by eexists _, _, _].
    pose proof (running_producer_has_room _ _ _ Hinv Hs Hopen Hst Hid) as Hroom.
    rewrite mpsc_producer_subscribe_to_wait_queue_unfold. cbv zeta.
    rewrite (find_seqZ_some _ _ Hrange).
    destruct (range_is_small _ _ _ _ _ Hc Hrange) as (-> & -> & Hne).
    destruct (Z.eqb_spec id (-1)); [done |].
    destruct (Z.eqb_spec (n_producers_waiting (chan s))
                (n_max_producers (chan s))); [lia |].
    rewrite send_wait_loop_unfold. fields.
    repeat case_if; try by eexists _, _, _.
    rewrite mpsc_shift_producer_wait_queue_unfold. fields.
    rewrite (size_wrap_small (n_producers_waiting (chan s) + 1)) by lia.
    destruct (Z.eqb_spec (n_producers_waiting (chan s) + 1) 0); [lia |].
    rewrite send_deposit_unfold. by eexists _, _, _.
  - intros data len Hst.
    apply producer_status_lookup in Hst as (Hid & Hst & Hlt).
    rewrite Hlen in Hlt.
    assert (0 ≤ id < n_max_producers (chan s)) as Hrange by lia.
    rewrite mpsc_producer_send_resume_unfold, send_wait_loop_unfold.
    destruct (range_is_small _ _ _ _ _ Hc Hrange) as (-> & _ & Hne).
    destruct (closed (chan s)) eqn:Hopen; cbn [negb andb];
      [by eexists _, _, _ |].
    destruct (Z.eqb_spec (next_waiting_producer_id (chan s)) id) as [Hnext | ?];
      cbn [negb]; [| by eexists _, _, _].
    destruct (inv_handoff _ _ _ _ Hc) as [? | Hhead]; [lia |].
    destruct (wait_queue_head_total _ _ Hhead) as (Hpos & _ & _).
    rewrite mpsc_shift_producer_wait_queue_unfold.
    destruct (Z.eqb_spec (n_producers_waiting (chan s)) 0); [lia |].
    rewrite send_deposit_unfold. by eexists _, _, _.
Qed.

(** The example: producer 1 runs and producer 0 sleeps. *)
Lemma send_stops_only_for_size_witness :
  (∃ r c' evs,
     mpsc_producer_send 1 [9] 1 (chan example_system) = Ret r c' evs)
  ∧ (∃ r c' evs,
       mpsc_producer_send_resume 0 [4] 1 (chan example_system) = Ret r c' evs).
Proof.
  assert (execution example_trace example_system) as Hexec
    by schedule_execution example_schedule.
  split.
  - apply (proj1 (send_stops_only_for_size example_trace example_system 1 Hexec)
             eq_refl [9] 1).
    vm_compute. discriminate.
  - apply (proj2 (send_stops_only_for_size example_trace example_system 0 Hexec)
             [4] 1).
    reflexivity.
Defined.

(** X9.  In every execution, a producer thread that sleeps in
    [mpsc_producer_send] sleeps for its own producer, is in the wait
    queue, and carries a message of the length it gave, which fits the
    slot; and as long as the channel is open, the wait queue holds no
    producer twice and only producers whose thread sleeps. *)
Theorem wait_queue_holds_the_sleepers tr s :
  execution tr s →
  (∀ i id data len,
     producer_threads s !! i = Some (ProducerAsleep id data len) →
     id = Z.of_nat i
     ∧ id ∈ wait_queue (chan s)
     ∧ Z.of_nat (length data) = len
     ∧ len ≤ buffer_size (chan s))
  ∧ (closed (chan s) = false →
     NoDup (wait_queue (chan s))
     ∧ ∀ id, id ∈ wait_queue (chan s) →
         ∃ data len,
           producer_status s id = Some (ProducerAsleep id data len)).
Proof.
  intros Hexec.
  pose proof (execution_inv _ _ Hexec) as [Hc Hlen Hsleep _].
  pose proof (execution_sleepers _ _ Hexec) as [Hqueued Hmsg Hnodup Hasleep].
  split.
  - intros i id data len Hl. destruct (Hmsg _ _ _ _ Hl).
    split_and!; try done; [by eapply Hsleep | by eapply Hqueued].
  - intros Hopen. split; [by apply Hnodup |].
    intros id Hin. destruct (Hasleep _ Hopen Hin) as (data & len & Hl).
    exists data, len. unfold producer_status.
    pose proof (inv_queue_range _ _ _ _ Hc) as Hr.
    apply (proj1 (Forall_forall _ _) Hr) in Hin.
    by destruct (Z.leb_spec 0 id); [| lia].
Qed.

(** The example, where producer 0 sleeps in the queue. *)
Lemma wait_queue_holds_the_sleepers_witness :
  (∀ i id data len,
     producer_threads example_system !! i = Some (ProducerAsleep id data len) →
     id = Z.of_nat i
     ∧ id ∈ wait_queue (chan example_system)
     ∧ Z.of_nat (length data) = len
     ∧ len ≤ buffer_size (chan example_system))
  ∧ (closed (chan example_system) = false →
     NoDup (wait_queue (chan example_system))
     ∧ ∀ id, id ∈ wait_queue (chan example_system) →
         ∃ data len,
           producer_status example_system id
           = Some (ProducerAsleep id data len)).
Proof.
  apply (wait_queue_holds_the_sleepers example_trace example_system).
  schedule_execution example_schedule.
Defined.

(** X10.  In every execution, when the channel is open and a producer is
    elected, that producer sleeps in [mpsc_producer_send]; when it wakes
    up it leaves the head of the wait queue, resets the hand-off,
    deposits its message in the slot, signals the consumer and
    returns. *)
Theorem elected_producer_deposits tr s id :
  execution tr s →
  closed (chan s) = false →
  next_waiting_producer_id (chan s) = id →
  id ≠ -1 →
  ∃ data len evs s',
    producer_status s id = Some (ProducerAsleep id data len)
    ∧ run (ActSendWake id) s = Some (evs, s')
    ∧ deposited data len (chan s') evs
    ∧ producer_status s' id = Some ProducerRunning
    ∧ next_waiting_producer_id (chan s') = -1
    ∧ wait_queue (chan s) = id :: wait_queue (chan s').
Proof.
  intros Hexec Hopen Hnext Hne.
  pose proof (execution_inv _ _ Hexec) as [Hc Hlen Hsleep _].
  pose proof (execution_sleepers _ _ Hexec) as [_ Hmsg _ Hasleep].
  pose proof (inv_producer_count _ _ _ _ Hc) as Hcount.
  destruct (inv_handoff _ _ _ _ Hc) as [? | Hhead]; [congruence |].
  rewrite Hnext in Hhead.
  destruct (wait_queue_head_total _ _ Hhead) as (Hpos & _ & _).
  pose proof (head_Some_elem_of _ _ Hhead) as Hin.
  destruct (Hasleep _ Hopen Hin) as (data & len & Hst).
  destruct (Hmsg _ _ _ _ Hst) as [Hdata Hsize].
  pose proof (lookup_lt_Some _ _ _ Hst) as Hlt. rewrite Hlen in Hlt.
  pose proof (inv_queue_range _ _ _ _ Hc) as Hr.
  apply (proj1 (Forall_forall _ _) Hr) in Hin.
  assert (producer_status s id = Some (ProducerAsleep id data len)) as Hstatus.
  { unfold producer_status. by destruct (Z.leb_spec 0 id); [| lia]. }
  destruct (send_wait_loop id data len (chan s)) as [r c' e|] eqn:Hloop.
  2: { exfalso. revert Hloop. rewrite send_wait_loop_unfold, Hopen.
       destruct (range_is_small _ _ _ _ _ Hc Hin) as (-> & _ & _).
       rewrite Hnext, Z.eqb_refl. cbn [negb andb].
       rewrite mpsc_shift_producer_wait_queue_unfold.
       destruct (Z.eqb_spec (n_producers_waiting (chan s)) 0); [lia |].
       by rewrite send_deposit_unfold. }
  pose proof (send_wait_loop_effect _ _ _ _ _ _ _ _ _ _ Hc Hin Hloop) as Heff.
  destruct (send_wait_loop_returns _ _ _ _ _ _ _ Hdata Hloop)
    as (_ & _ & Htrue).
  destruct r as [[] | id'].
  - destruct Heff as (_ & _ & Hq & -> & q & Hc').
    exists data, len. eexists _, _. split; [done |].
    split.
    { cbn [run]. rewrite Hstatus, mpsc_producer_send_resume_unfold, Hloop.
      reflexivity. }
    cbn [chan set_producer_status set_chan producer_threads after_send].
    split.
    { destruct (proj1 Htrue eq_refl) as (? & ? & ? & ?).
      split_and!; try done. rewrite !elem_of_cons. auto. }
    split.
    { unfold producer_status. cbn [producer_threads].
      destruct (Z.leb_spec 0 id); [| lia].
      apply list_lookup_insert_eq. by eapply lookup_lt_Some. }
    split; [| done]. rewrite Hc'. cbv zeta. by destruct (0 <? len).
  - destruct Heff as (_ & ? & _). congruence.
  - destruct Heff as (_ & _ & _ & ? & _). congruence.
Qed.

(** Producer 1, elected in [elect_schedule]. *)
Lemma elected_producer_deposits_witness :
  ∃ data len evs s',
    producer_status elect_system 1 = Some (ProducerAsleep 1 data len)
    ∧ run (ActSendWake 1) elect_system = Some (evs, s')
    ∧ deposited data len (chan s') evs
    ∧ producer_status s' 1 = Some ProducerRunning
    ∧ next_waiting_producer_id (chan s') = -1
    ∧ wait_queue (chan elect_system) = 1 :: wait_queue (chan s').
Proof.
  apply (elected_producer_deposits elect_trace elect_system 1).
  - schedule_execution elect_schedule.
  - reflexivity.
  - reflexivity.
  - discriminate.
Defined.

Lemma producer_wake_spurious tr s id data len :
  sys_inv tr s →
  producer_status s id = Some (ProducerAsleep id data len) →
  closed (chan s) = false →
  next_waiting_producer_id (chan s) ≠ id →
  run (ActSendWake id) s
  = Some ([EvWake (ProducerCondVar id); EvWait (ProducerCondVar id)], s).
Proof.
  intros [Hc Hlen Hsleep _] Hstatus Hopen Hnext.
  pose proof (inv_producer_count _ _ _ _ Hc) as Hcount.
  cbn [run]. rewrite Hstatus.
  apply producer_status_lookup in Hstatus as (Hid & Hst & Hlt).
  rewrite Hlen in Hlt.
  assert (0 ≤ id < n_max_producers (chan s)) as Hrange by lia.
  rewrite mpsc_producer_send_resume_unfold, send_wait_loop_unfold, Hopen.
  destruct (range_is_small _ _ _ _ _ Hc Hrange) as (-> & _ & _).
  destruct (Z.eqb_spec (next_waiting_producer_id (chan s)) id); [done |].
  cbn [negb andb after_send]. do 2 f_equal.
  unfold set_producer_status, set_chan. fields.
  rewrite list_insert_id by done. by destruct s.
Qed.

Lemma consumer_wake_spurious s heap :
  consumer_thread s = ConsumerAsleep →
  closed (chan s) = false →
  pending_message (chan s) = false →
  run (ActConsumerWake heap) s
  = Some ([EvWake MainCondVar; EvWait MainCondVar], s).
Proof.
  intros Hthread Hopen Hpending. cbn [run]. rewrite Hthread.
  rewrite my_consumer_thread_callback_resume_unfold,
    consumer_loop_body_unfold, Hopen, Hpending.
  cbn [negb andb after_consumer_pass]. do 2 f_equal.
  unfold set_consumer_thread, set_chan. fields.
  rewrite <- Hthread. by destruct s.
Qed.

(** X11.  In every execution, a producer that wakes up on an open channel
    without being the elected one waits again, and a consumer thread that
    wakes up on an open channel with no message pending waits again; the
    state is the same as before the wake-up. *)
Theorem spurious_wakeups_change_nothing tr s :
  execution tr s →
  (∀ id data len,
     producer_status s id = Some (ProducerAsleep id data len) →
     closed (chan s) = false →
     next_waiting_producer_id (chan s) ≠ id →
     run (ActSendWake id) s
     = Some ([EvWake (ProducerCondVar id); EvWait (ProducerCondVar id)], s))
  ∧ (∀ heap,
       consumer_thread s = ConsumerAsleep →
       closed (chan s) = false →
       pending_message (chan s) = false →
       run (ActConsumerWake heap) s
       = Some ([EvWake MainCondVar; EvWait MainCondVar], s)).
Proof.
  intros Hinv%execution_inv. split.
  - intros id data len. by apply (producer_wake_spurious tr).
  - intros heap. by apply consumer_wake_spurious.
Qed.

(** Producer 0 of the example, which is not elected, and the consumer of
    [drop_schedule]. *)
Lemma spurious_wakeups_change_nothing_witness :
  run (ActSendWake 0) example_system
  = Some ([EvWake (ProducerCondVar 0); EvWait (ProducerCondVar 0)],
          example_system)
  ∧ run (ActConsumerWake MallocOk) drop_system
    = Some ([EvWake MainCondVar; EvWait MainCondVar], drop_system).
Proof.
  split.
  - apply (proj1 (spurious_wakeups_change_nothing example_trace example_system
                    ltac:(schedule_execution example_schedule)) 0 [4] 1).
    + reflexivity.
    + reflexivity.
    + discriminate.
  - apply (proj2 (spurious_wakeups_change_nothing drop_trace drop_system
                    ltac:(schedule_execution drop_schedule)) MallocOk).
    + reflexivity.
    + reflexivity.
    + reflexivity.
Defined.

(** X12.  In every execution, when the consumer thread sleeps on an open
    channel with no message pending and no producer elected, and every
    producer thread sleeps in [mpsc_producer_send], then no step of the
    consumer thread or of a producer thread changes the state: nobody is
    elected until the application acts from another thread.  Such a state
    is reached when a message is dropped while every producer waits (see
    the witness). *)
Theorem sleeping_channel_stays_asleep tr s a evs s' :
  execution tr s →
  consumer_thread s = ConsumerAsleep →
  closed (chan s) = false →
  pending_message (chan s) = false →
  next_waiting_producer_id (chan s) = -1 →
  (∀ i st, producer_threads s !! i = Some st →
           ∃ id data len, st = ProducerAsleep id data len) →
  actor a ≠ MainThread →
  run a s = Some (evs, s') →
  s' = s.
Proof.
  intros Hinv%execution_inv Hthread Hopen Hpending Hnext Hall Hactor.
  pose proof Hinv as [Hc Hlen Hsleep _].
  assert (∀ id, can_call s (ProducerThread id) = false) as Hproducer.
  { intros id. cbn. destruct (producer_status s id) as [st|] eqn:Hst; [| done].
    apply producer_status_lookup in Hst as (_ & Hst & _).
    by destruct (Hall _ _ Hst) as (? & ? & ? & ->). }
  assert (can_call s ConsumerThread = false) as Hconsumer
    by (cbn; by rewrite Hthread).
  intros Hrun.
  destruct a as [caller | | | | heap | | | | id | |]; cbn [actor] in Hactor;
    try done.
  - cbn [run] in Hrun. destruct caller as [| | id]; [done | |];
      by rewrite ?Hproducer, ?Hconsumer in Hrun.
  - cbn [run] in Hrun. by rewrite Hthread in Hrun.
  - rewrite consumer_wake_spurious in Hrun by done. by injection Hrun as _ <-.
  - cbn [run] in Hrun. by rewrite Hthread in Hrun.
  - cbn [run] in Hrun. by rewrite Hconsumer in Hrun.
  - cbn [run] in Hrun. by rewrite Hproducer in Hrun.
  - destruct (producer_status s id) as [[| id' data len |]|] eqn:Hst;
      try (by cbn [run] in Hrun; rewrite Hst in Hrun).
    pose proof Hst as Hst'.
    apply producer_status_lookup in Hst' as (Hid & Hl & _).
    pose proof (Hsleep _ _ _ _ Hl). assert (id' = id) as -> by lia.
    rewrite (producer_wake_spurious _ _ _ _ _ Hinv Hst) in Hrun
      by (done || lia).
    by injection Hrun as _ <-.
  - cbn [run] in Hrun. by rewrite Hproducer in Hrun.
  - cbn [run] in Hrun. by rewrite Hproducer in Hrun.
Qed.

(** The state of [drop_schedule]: the message [1; 2] has been dropped, both
    producers sleep in the queue, and the consumer sleeps. *)
Lemma sleeping_channel_stays_asleep_witness :
  ∃ evs s',
    run (ActSendWake 1) drop_system = Some (evs, s') ∧ s' = drop_system.
Proof.
  eexists _, _. split; [vm_compute; reflexivity |].
  eapply (sleeping_channel_stays_asleep drop_trace drop_system (ActSendWake 1)).
  - schedule_execution drop_schedule.
  - reflexivity.
  - reflexivity.
  - reflexivity.
  - reflexivity.
  - intros [|[|i]] st; vm_compute; intros [= <-]; by eexists _, _, _.
  - discriminate.
  - vm_compute. reflexivity.
Defined.

(** ** From the producer to the callback *)

(** X13.  On an open channel with an empty slot and no producer elected, a
    call of [mpsc_producer_send] with [len > 0] bytes that fit the slot
    deposits them and returns [true], and the next pass of the consumer
    loop, when the delivery buffer can be allocated, passes exactly
    these bytes and this length to the consumer callback, with
    [closed = false], and empties the slot. *)
Theorem delivered_message_is_the_sent_one self data len c :
  closed c = false →
  pending_message c = false →
  next_waiting_producer_id c = -1 →
  0 < len ≤ buffer_size c →
  Z.of_nat (length data) = len →
  ∃ c1 c2 evs,
    mpsc_producer_send self data len c
    = Ret (SendReturned true) c1 [EvLock; EvSignal MainCondVar; EvUnlock]
    ∧ my_consumer_thread_callback MallocOk c1
      = Ret ConsumerContinue c2
          (EvLock :: EvAcquire ResDelivery
           :: evs ++ [EvUnlock; EvConsumerCallback (Some data) len false])
    ∧ my_consumer_thread_callback_resume MallocOk c1
      = Ret ConsumerContinue c2
          (EvWake MainCondVar :: EvAcquire ResDelivery
           :: evs ++ [EvUnlock; EvConsumerCallback (Some data) len false])
    ∧ pending_message c2 = false
    ∧ n c2 = 0.
Proof.
  intros Hopen Hpending Hnext Hlen Hdata.
  rewrite mpsc_producer_send_unfold, Hopen, Hpending, Hnext.
  destruct (Z.ltb_spec (buffer_size c) len); [lia |].
  cbn [orb negb Z.eqb]. rewrite send_deposit_unfold.
  destruct (Z.ltb_spec 0 len); [| lia].
  set (c1 := set_pending_message true _).
  assert (take (Z.to_nat len) (buffer c1) = data) as Hslot.
  { subst c1. fields. unfold memcpy.
    rewrite take_app_le by (rewrite length_take; lia).
    rewrite take_take, Nat.min_id. apply take_ge. lia. }
  exists c1.
  rewrite my_consumer_thread_callback_unfold,
    my_consumer_thread_callback_resume_unfold, consumer_loop_body_unfold.
  replace (pending_message c1) with true by done.
  replace (closed c1) with false by (by subst c1; fields).
  replace (n c1) with len by done.
  cbn [negb andb]. destruct (Z.ltb_spec 0 len); [| lia].
  rewrite Hslot, consumer_deliver_unfold. cbv zeta.
  replace (closed c1) with false by (by subst c1; fields).
  destruct ((0 <? n_producers_waiting c1) && negb false);
    eexists _;
    [exists [EvElect (producer_waiting_ids_queue c1 !!! 0%nat);
             EvSignal (ProducerCondVar (producer_waiting_ids_queue c1 !!! 0%nat))]
    | exists []];
    (split; [reflexivity |]); (split; [reflexivity |]);
    (split; [reflexivity |]); by split.
Qed.

(** The message [1; 2] on the created example channel. *)
Lemma delivered_message_is_the_sent_one_witness :
  ∃ c1 c2 evs,
    mpsc_producer_send 0 [1; 2] 2 example_channel
    = Ret (SendReturned true) c1 [EvLock; EvSignal MainCondVar; EvUnlock]
    ∧ my_consumer_thread_callback MallocOk c1
      = Ret ConsumerContinue c2
          (EvLock :: EvAcquire ResDelivery
           :: evs ++ [EvUnlock; EvConsumerCallback (Some [1; 2]) 2 false])
    ∧ my_consumer_thread_callback_resume MallocOk c1
      = Ret ConsumerContinue c2
          (EvWake MainCondVar :: EvAcquire ResDelivery
           :: evs ++ [EvUnlock; EvConsumerCallback (Some [1; 2]) 2 false])
    ∧ pending_message c2 = false
    ∧ n c2 = 0.
Proof.
  apply (delivered_message_is_the_sent_one 0 [1; 2] 2 example_channel).
  - reflexivity.
  - reflexivity.
  - reflexivity.
  - vm_compute. split; [reflexivity | discriminate].
  - reflexivity.
Defined.



(** ** The context of a producer *)

Lemma run_contexts tr s a evs s' i :
  sys_inv tr s →
  run a s = Some (evs, s') →
  0 ≤ i < producer_count (chan s) →
  mpsc_producer_context i (chan s') = mpsc_producer_context i (chan s).
Proof.
  intros [Hc Hlen _ _] H Hi. unfold mpsc_producer_context.
  pose proof (inv_producer_count _ _ _ _ Hc) as Hcount.
  pose proof (inv_producers_length _ _ _ _ Hc) as Hpl.
  destruct a; run_cases H; leaf H; try done.
  1, 2: by rewrite list_lookup_total_insert_ne by lia.
  all: (destruct (decide (Z.to_nat id = Z.to_nat i)) as [-> | Hne];
        [by rewrite list_lookup_total_insert_eq by lia
        | by rewrite list_lookup_total_insert_ne by done]).
Qed.

Lemma run_all_contexts tr s acts tr' s' i :
  execution tr s →
  run_all acts s = Some (tr', s') →
  0 ≤ i < producer_count (chan s) →
  mpsc_producer_context i (chan s') = mpsc_producer_context i (chan s).
Proof.
  revert tr s tr'. induction acts as [|a acts IH];
    intros tr s tr' Hexec; cbn [run_all]; [by intros [= <- <-] |].
  destruct (run a s) as [[evs s1]|] eqn:Hrun; [| done].
  destruct (run_all acts s1) as [[tr2 s2]|] eqn:Hrest; [| done].
  intros [= <- <-] Hi.
  pose proof (execution_inv _ _ Hexec) as Hinv.
  destruct (run_counts _ _ _ _ _ Hinv Hrun) as [Hc _].
  rewrite (IH _ _ _ (exec_step _ _ _ _ _ Hexec Hrun) Hrest) by lia.
  by eapply run_contexts.
Qed.

(** X15.  In every execution, a registration that returns
    [MPSC_REGISTER_PRODUCER_ERROR_NONE] takes the next free place, and
    [mpsc_producer_context] on the new producer returns the context
    given at the registration, at any later time. *)
Theorem context_is_kept tr s caller callback context code evs s1 acts tr' s2 :
  execution tr s →
  run (ActRegister caller callback context code) s = Some (evs, s1) →
  mpsc_register_producer callback context code (chan s)
  = Ret MPSC_REGISTER_PRODUCER_ERROR_NONE (chan s1) evs →
  run_all acts s1 = Some (tr', s2) →
  producer_count (chan s1) = producer_count (chan s) + 1
  ∧ mpsc_producer_context (producer_count (chan s)) (chan s2) = context.
Proof.
  intros Hexec Hrun Hreg Hrest.
  pose proof (execution_inv _ _ Hexec) as [Hc _ _ _].
  destruct (mpsc_register_producer_inv _ _ _ _ _ _ _ _ _ _ Hc Hreg)
    as (_ & Hcount & _).
  split; [done |].
  pose proof (inv_producer_count _ _ _ _ Hc).
  rewrite (run_all_contexts _ _ _ _ _ _ (exec_step _ _ _ _ _ Hexec Hrun) Hrest)
    by lia.
  revert Hreg. rewrite mpsc_register_producer_unfold. cbv zeta.
  repeat case_if; try done. intros [= <- _].
  unfold mpsc_producer_context. fields.
  rewrite list_lookup_total_insert_eq; [done |].
  rewrite (inv_producers_length _ _ _ _ Hc). bool_facts. lia.
Qed.

(** The first registration on the example channel, with context 42. *)
Lemma context_is_kept_witness :
  ∃ evs s1,
    run (ActRegister MainThread 1 42 0) (new_system example_channel)
    = Some (evs, s1)
    ∧ producer_count (chan s1) = 0 + 1
    ∧ mpsc_producer_context 0
        (chan (system_of (run_all [ActSend 0 [1] 1] s1))) = 42.
Proof.
  eexists _, _. split; [vm_compute; reflexivity |].
  eapply (context_is_kept [] (new_system example_channel) MainThread 1 42 0
            _ _ [ActSend 0 [1] 1]).
  - schedule_execution (@nil action).
  - vm_compute. reflexivity.
  - vm_compute. reflexivity.
  - vm_compute. reflexivity.
Defined.

(** ** How a construction ends *)

Lemma free_unless_null_logs p s : ∃ e, free_unless_null p s = Ret tt s e.
Proof. destruct p; by eexists. Qed.

Lemma mpsc_handle_creation_failure_cases type index s :
  errno s ≠ ENOMEM ∧ errno s ≠ EAGAIN
  ∧ mpsc_handle_creation_failure type index s = Abort (FatalErrno (errno s))
  ∨ (errno s = ENOMEM ∨ errno s = EAGAIN)
    ∧ (self_pointer s = PtrNull
       ∧ mpsc_handle_creation_failure type index s = Abort CrashNullDereference
       ∨ self_pointer s ≠ PtrNull
         ∧ ∃ log,
             mpsc_handle_creation_failure type index s
             = Ret None (set_errno (errno s) s) (log ++ [EvErrno (errno s)])).
Proof.
  assert (∃ e1, ∀ s' : creation,
    match type with
    | MPSC_HANDLE_CREATION_FAILURE_THREAD_CREATE =>
        my_mutex_destroy ;;
        my_condition_variable_destroy MainCondVar ;;
        for_each (self_n_max_producers s) (λ i,
          my_condition_variable_destroy (ProducerCondVar i))
    | MPSC_HANDLE_CREATION_FAILURE_MUTEX_INIT =>
        my_condition_variable_destroy MainCondVar ;;
        for_each (self_n_max_producers s) (λ i,
          my_condition_variable_destroy (ProducerCondVar i))
    | MPSC_HANDLE_CREATION_FAILURE_COND_VAR_INIT =>
        if negb (index =? -1) then
          my_condition_variable_destroy MainCondVar ;;
          for_each (size_wrap index) (λ i,
            my_condition_variable_destroy (ProducerCondVar i))
        else mret tt
    | MPSC_HANDLE_CREATION_FAILURE_NONE => mret tt
    end s' = Ret tt s' e1) as [e1 Hswitch].
  { destruct type; try destruct (negb (index =? -1)); run_monad;
      try (by eexists);
      eexists; intros s';
      rewrite (for_each_emit _ (λ i, EvRelease (ResCond (ProducerCondVar i))));
      reflexivity. }
  unfold mpsc_handle_creation_failure. rewrite M_bind_eq. cbn [get].
  set (switch := match type with
                 | MPSC_HANDLE_CREATION_FAILURE_NONE => _
                 | _ => _ end) in *.
  destruct (Z.eqb_spec (errno s) ENOMEM) as [Hm | Hm];
    [| destruct (Z.eqb_spec (errno s) EAGAIN) as [Ha | Ha]].
  3: { left. split; [done |]. split; [done |].
       rewrite M_bind_eq. cbn. done. }
  all: right; (split; [auto |]).
  all: rewrite M_bind_eq; cbn [mret M_ret app].
  all: rewrite M_bind_eq, Hswitch.
  all: destruct (self_pointer s) eqn:Hself;
    [left; split; [done |]; by rewrite M_bind_eq | right.. ].
  all: split; [done |].
  all: destruct (free_unless_null_logs (self_producer_condition_variables s) s)
         as [f1 H1];
       destruct (free_unless_null_logs (self_producer_waiting_ids_queue s) s)
         as [f2 H2];
       destruct (free_unless_null_logs (self_producers s) s) as [f3 H3];
       destruct (free_unless_null_logs (self_producer_thread_ids s) s)
         as [f4 H4];
       destruct (free_unless_null_logs (self_buffer s) s) as [f5 H5].
  all: exists (e1 ++ f1 ++ f2 ++ f3 ++ f4 ++ f5
               ++ match self_pointer s with
                  | PtrBlock r => [EvRelease r]
                  | PtrWild a => [EvFreeWild a]
                  | PtrNull => []
                  end).
  all: rewrite !M_bind_eq; cbn [is_null mret M_ret].
  all: rewrite !M_bind_eq, H1, !M_bind_eq, H2, !M_bind_eq, H3, !M_bind_eq, H4,
         !M_bind_eq, H5.
  all: rewrite Hself; unfold free_unless_null; cbn [is_null negb my_free];
       run_monad; rewrite ?Hm, ?Ha, <- ?app_assoc; reflexivity.
Qed.

Lemma creation_post_prefix handle_errors G r s e l0 :
  creation_post handle_errors G (Ret r s e) →
  creation_post handle_errors G (Ret r s (l0 ++ e)).
Proof.
  destruct r as [st|]; [done |]. cbn. intros (? & ? & Hlast).
  split; [done |]. split; [done |].
  destruct e as [|x e] using rev_ind; [done |].
  by rewrite app_assoc, last_snoc in *.
Qed.

Lemma creation_post_weaken handle_errors (G G' : Prop) o :
  (G → G') →
  creation_post handle_errors G o → creation_post handle_errors G' o.
Proof. intros HG. destruct o as [[st|] s e|f]; cbn; auto. Qed.

(** The failure handler after a wrapper has reported a failure. *)
Lemma creation_post_handler handle_errors G type index s l0 :
  handle_errors = true →
  errno s = ENOMEM ∨ errno s = EAGAIN →
  self_pointer s ≠ PtrNull →
  creation_post handle_errors G
    match mpsc_handle_creation_failure type index s with
    | Ret r s' e => Ret r s' (l0 ++ e)
    | Abort f => Abort f
    end.
Proof.
  intros Hpolicy Herrno Hself.
  destruct (mpsc_handle_creation_failure_cases type index s)
    as [(? & ? & _) | (_ & [(? & _) | (_ & log & ->)])];
    [destruct Herrno; done | done |].
  apply creation_post_prefix. cbn. split; [done |]. split; [done |].
  by rewrite last_snoc.
Qed.

(** A step of [mpsc_create] that initialises a synchronisation object
    or starts the thread, followed by the test of its result. *)
Lemma creation_post_step handle_errors G (w : M creation bool) code type index
    rest :
  (∀ s,
     code = 0 ∧ (∃ e, w s = Ret true s e)
     ∨ code ≠ 0
       ∧ (handle_errors = true ∧ (code = ENOMEM ∨ code = EAGAIN)
          ∧ w s = Ret false (set_errno code s) [EvErrno code]
          ∨ ∃ f, w s = Abort f
                 ∧ creation_post handle_errors False (Abort f))) →
  (∀ s, self_pointer s ≠ PtrNull → creation_post handle_errors G (rest s)) →
  ∀ s, self_pointer s ≠ PtrNull →
    creation_post handle_errors (code = 0 ∧ G)
      ((ok ← w;
        if negb ok then mpsc_handle_creation_failure type index else rest) s).
Proof.
  intros Hw Hrest s Hself. rewrite M_bind_eq.
  destruct (Hw s) as [(-> & e & ->) | (Hcode & [(Hpolicy & Herrno & ->)
                                               | (f & -> & Hf)])].
  - cbn [negb]. specialize (Hrest s Hself).
    destruct (rest s) as [r s' e'|f]; [| exact Hrest].
    apply creation_post_prefix.
    apply (creation_post_weaken _ G); [by split | done].
  - cbn [negb]. by apply creation_post_handler.
  - exact Hf.
Qed.

Lemma my_condition_variable_init_cases handle_errors cv code (s : creation) :
  code = 0 ∧ (∃ e, my_condition_variable_init cv code handle_errors s = Ret true s e)
  ∨ code ≠ 0
    ∧ (handle_errors = true ∧ (code = ENOMEM ∨ code = EAGAIN)
       ∧ my_condition_variable_init cv code handle_errors s
         = Ret false (set_errno code s) [EvErrno code]
       ∨ ∃ f, my_condition_variable_init cv code handle_errors s = Abort f
              ∧ creation_post handle_errors False (Abort f)).
Proof.
  unfold my_condition_variable_init.
  destruct (Z.eqb_spec code 0) as [-> | Hcode]; [left; split; by eauto |].
  right. split; [done |].
  destruct handle_errors; cbn [andb];
    [| right; eexists; split; [done |]; right; by eauto].
  destruct (Z.eqb_spec code ENOMEM); [left; by auto |].
  destruct (Z.eqb_spec code EAGAIN); [left; by auto |].
  right. eexists. split; [done |]. right. by eauto.
Qed.

Lemma my_mutex_init_cases handle_errors code (s : creation) :
  code = 0 ∧ (∃ e, my_mutex_init code handle_errors s = Ret true s e)
  ∨ code ≠ 0
    ∧ (handle_errors = true ∧ (code = ENOMEM ∨ code = EAGAIN)
       ∧ my_mutex_init code handle_errors s
         = Ret false (set_errno code s) [EvErrno code]
       ∨ ∃ f, my_mutex_init code handle_errors s = Abort f
              ∧ creation_post handle_errors False (Abort f)).
Proof.
  unfold my_mutex_init.
  destruct (Z.eqb_spec code 0) as [-> | Hcode]; [left; split; by eauto |].
  right. split; [done |].
  destruct handle_errors; cbn [andb];
    [| right; eexists; split; [done |]; right; by eauto].
  destruct (Z.eqb_spec code ENOMEM); [left; by auto |].
  right. eexists. split; [done |]. right. by eauto.
Qed.

Lemma my_thread_create_cases handle_errors thread code (s : creation) :
  code = 0 ∧ (∃ e, my_thread_create thread code handle_errors s = Ret true s e)
  ∨ code ≠ 0
    ∧ (handle_errors = true ∧ (code = ENOMEM ∨ code = EAGAIN)
       ∧ my_thread_create thread code handle_errors s
         = Ret false (set_errno code s) [EvErrno code]
       ∨ ∃ f, my_thread_create thread code handle_errors s = Abort f
              ∧ creation_post handle_errors False (Abort f)).
Proof.
  unfold my_thread_create.
  destruct (Z.eqb_spec code 0) as [-> | Hcode]; [left; split; by eauto |].
  right. split; [done |].
  destruct handle_errors; cbn [andb];
    [| right; eexists; split; [done |]; right; by eauto].
  destruct (Z.eqb_spec code EAGAIN); [left; by auto |].
  right. eexists. split; [done |]. right. by eauto.
Qed.

Lemma creation_post_init_producer_condition_variables env handle_errors G l
    rest :
  (∀ s, self_pointer s ≠ PtrNull → creation_post handle_errors G (rest s)) →
  ∀ s, self_pointer s ≠ PtrNull →
    creation_post handle_errors
      ((∀ i, i ∈ l → env_cond_init env (ProducerCondVar i) = 0) ∧ G)
      (init_producer_condition_variables env handle_errors l rest s).
Proof.
  intros Hrest. induction l as [|i l IH]; intros s Hself.
  - cbn [init_producer_condition_variables].
    eapply creation_post_weaken; [| by apply Hrest].
    intros HG. split; [by intros i ?%elem_of_nil | done].
  - cbn [init_producer_condition_variables].
    eapply creation_post_weaken;
      [| apply (creation_post_step handle_errors _ _
                  (env_cond_init env (ProducerCondVar i)) _ _ _
                  (my_condition_variable_init_cases _ _ _) IH s Hself)].
    intros (Hi & Hl & HG). split; [| done].
    intros j [-> | Hj]%elem_of_cons; auto.
Qed.

Lemma creation_post_allocate env handle_errors G block store rest :
  (∀ p s, errno (store p s) = errno s
          ∧ self_pointer (store p s) = self_pointer s) →
  (∀ s, self_pointer s ≠ PtrNull → creation_post handle_errors G (rest s)) →
  ∀ s, self_pointer s ≠ PtrNull →
    creation_post handle_errors (env_malloc env block = MallocOk ∧ G)
      (allocate env handle_errors block store rest s).
Proof.
  intros Hstore Hrest s Hself. unfold allocate, my_malloc.
  destruct (env_malloc env block) as [|e] eqn:Hheap.
  - run_monad. unfold malloc_pointer.
    destruct (Hstore (PtrBlock block) s) as [_ Hp].
    specialize (Hrest (store (PtrBlock block) s) ltac:(congruence)).
    destruct (rest _) as [r s' e'|f]; [| exact Hrest].
    apply (creation_post_prefix _ _ _ _ _ [EvAcquire block]).
    apply (creation_post_weaken _ G); [by split | done].
  - destruct handle_errors; cbn [andb]; [| by left].
    destruct (Z.eqb_spec e ENOMEM) as [-> | Hne]; [| run_monad; by left].
    run_monad. unfold malloc_pointer.
    destruct (Hstore PtrNull (set_errno ENOMEM s)) as [He Hp].
    pose proof (creation_post_handler true
      (MallocNull ENOMEM = MallocOk ∧ G) MPSC_HANDLE_CREATION_FAILURE_NONE (-1)
      (store PtrNull (set_errno ENOMEM s)) [] eq_refl
      ltac:(left; by rewrite He) ltac:(by rewrite Hp)) as Hh.
    destruct (mpsc_handle_creation_failure _ _ _) as [r s' e'|f];
      [| exact Hh].
    by apply (creation_post_prefix _ _ _ _ _ [EvErrno ENOMEM]).
Qed.

(** What has to be granted after the channel block. *)
Lemma mpsc_create_post params env entry_errno :
  validated_params params →
  match env_malloc env ResSelf with
  | MallocOk =>
      creation_post (param_error_handling_enabled params)
        (grants (param_n_max_producers params) env)
        (mpsc_create params env (creation_entry entry_errno))
  | MallocNull e =>
      mpsc_create params env (creation_entry entry_errno)
      = if param_error_handling_enabled params && (e =? ENOMEM)
        then Abort CrashNullDereference else Abort FatalMalloc
  end.
Proof.
  intros (Hcb & Hecb & Hmax).
  unfold mpsc_create, mpsc_create_params_validate. cbv zeta.
  apply Z.eqb_neq in Hcb, Hmax. rewrite Hcb, Hmax.
  assert (param_error_handling_enabled params
          && (param_consumer_error_callback params =? 0) = false) as ->.
  { destruct (param_error_handling_enabled params); [| done].
    by apply Z.eqb_neq, Hecb. }
  rewrite M_bind_eq. cbn [mret M_ret]. rewrite M_bind_eq. unfold my_malloc at 1.
  destruct (env_malloc env ResSelf) as [|e] eqn:Hself.
  2: { destruct (param_error_handling_enabled params); cbn [andb];
         run_monad; [| done].
       destruct (Z.eqb_spec e ENOMEM) as [-> | ?]; [| done].
       cbn [negb].
       destruct (mpsc_handle_creation_failure_cases
                   MPSC_HANDLE_CREATION_FAILURE_NONE (-1)
                   (set_errno ENOMEM (creation_entry entry_errno)))
         as [(? & _) | (_ & [(_ & ->) | (? & _)])]; done. }
  run_monad.
  set (rest := allocate _ _ ResBuffer _ _).
  assert (∀ s, self_pointer s ≠ PtrNull →
    creation_post (param_error_handling_enabled params)
      (grants (param_n_max_producers params) env) (rest s)) as Hrest.
  2: { specialize (Hrest (set_self_n_max_producers (param_n_max_producers params)
                            (fresh_self env (creation_entry entry_errno)))
                     ltac:(done)).
       destruct (rest _) as [r s' e'|f]; [| exact Hrest].
       by apply (creation_post_prefix _ _ _ _ _ [EvAcquire ResSelf]). }
  subst rest. intros s Hs.
  eapply creation_post_weaken; [| eapply creation_post_allocate; [done | | done]].
  2: { eapply creation_post_allocate; [done |].
       eapply creation_post_allocate; [done |].
       eapply creation_post_allocate; [done |].
       eapply creation_post_allocate; [done |].
       unfold create_primitives. cbv zeta.
       eapply (creation_post_step _ _ _ (env_cond_init env MainCondVar));
         [intros; apply my_condition_variable_init_cases |].
       eapply creation_post_init_producer_condition_variables.
       eapply (creation_post_step _ _ _ (env_mutex_init env));
         [intros; apply my_mutex_init_cases |].
       eapply (creation_post_step _ True _ (env_thread_create env));
         [intros; apply my_thread_create_cases |].
       done. }
  cbv beta. intros (Hb & Ht & Hp & Hc & Hq & Hmain & Hconds & Hmutex & Hthread & _).
  split; [| split_and!; try done].
  - intros r. unfold allocated_blocks.
    rewrite !elem_of_cons, elem_of_nil. intuition (subst; done).
  - intros i Hi. apply Hconds, elem_of_seqZ. lia.
Qed.

Lemma mpsc_create_validated_allocations params env c0 :
  validated_params params →
  (∀ r, r ∈ allocated_blocks → env_malloc env r = MallocOk) →
  mpsc_create params env c0
  = match create_primitives params env (allocated params c0) with
    | Ret r s e => Ret r s ((EvAcquire <$> allocated_blocks) ++ e)
    | Abort f => Abort f
    end.
Proof.
  intros (Hcb & Hecb & Hmax) Hmalloc.
  unfold mpsc_create, allocate, mpsc_create_params_validate.
  apply Z.eqb_neq in Hcb, Hmax. rewrite Hcb, Hmax.
  assert (param_error_handling_enabled params
          && (param_consumer_error_callback params =? 0) = false) as ->.
  { destruct (param_error_handling_enabled params); [| done].
    by apply Z.eqb_neq, Hecb. }
  assert (Forall (λ r, env_malloc env r = MallocOk) allocated_blocks) as Hm
    by (by apply Forall_forall).
  unfold allocated_blocks in Hm.
  repeat (apply Forall_cons in Hm as [-> Hm]). clear Hm.
  run_monad. unfold fresh_self, malloc_pointer. fields.
  by destruct (create_primitives params env _).
Qed.

Lemma mpsc_create_granted params env c0 :
  validated_params params →
  grants (param_n_max_producers params) env →
  mpsc_create params env c0
  = Ret (Some (created_channel params env)) (allocated params c0)
      (EvAcquire <$> created_resources (param_n_max_producers params)).
Proof.
  intros Hv (Hmalloc & Hmain & Hconds & Hmutex & Hthread).
  rewrite (mpsc_create_validated_allocations _ _ _ Hv Hmalloc).
  unfold create_primitives. cbv zeta. rewrite M_bind_eq.
  unfold my_condition_variable_init at 1. rewrite Hmain.
  decide_codes. run_monad.
  rewrite (init_producer_condition_variables_succeed _ _ _ _ _
             (producer_cond_vars_ok env _ Hconds)).
  unfold my_mutex_init, my_thread_create. rewrite Hmutex, Hthread.
  decide_codes. run_monad.
  unfold created_resources, producer_cond_vars.
  rewrite !fmap_app, !fmap_cons, fmap_app. reflexivity.
Qed.

(** X16.  [mpsc_create] stops the process for its parameters exactly when
    the consumer callback is null, or the error policy is to report and
    the error callback is null, or [n_max_producers] is 0, whatever the
    system would grant. *)
Theorem create_validates_its_parameters_first params env entry_errno :
  mpsc_create params env (creation_entry entry_errno) = Abort FatalParams
  ↔ param_consumer_callback params = 0
    ∨ param_error_handling_enabled params = true
      ∧ param_consumer_error_callback params = 0
    ∨ param_n_max_producers params = 0.
Proof.
  split.
  - intros Habort.
    destruct (Z.eq_dec (param_consumer_callback params) 0); [by left |].
    destruct (Z.eq_dec (param_n_max_producers params) 0); [by auto |].
    destruct (param_error_handling_enabled params) eqn:Hpolicy.
    + destruct (Z.eq_dec (param_consumer_error_callback params) 0);
        [by auto |].
      exfalso.
      assert (validated_params params) as Hv by done.
      pose proof (mpsc_create_post params env entry_errno Hv) as Hpost.
      rewrite Habort in Hpost.
      destruct (env_malloc env ResSelf); [| by repeat case_match].
      cbn in Hpost. destruct Hpost as [? | (? & _ & [? | [? | ?]])]; done.
    + exfalso.
      assert (validated_params params) as Hv
        by (split_and!; try done; congruence).
      pose proof (mpsc_create_post params env entry_errno Hv) as Hpost.
      rewrite Habort in Hpost.
      destruct (env_malloc env ResSelf); [| by repeat case_match].
      cbn in Hpost. destruct Hpost as [? | (? & _ & [? | [? | ?]])]; done.
  - unfold mpsc_create, mpsc_create_params_validate.
    intros [-> | [[-> ->] | Hmax]]; [done | |].
    + rewrite Z.eqb_refl. by destruct (param_consumer_callback params =? 0).
    + rewrite Hmax. by repeat case_match.
Qed.

(** X17.  When [mpsc_create] returns null, the error policy is to report,
    the last thing it did was to store ENOMEM or EAGAIN in [errno], which
    holds that code on return, the channel block itself had been
    allocated, and the system did refuse something. *)
Theorem create_reports_failure_through_errno params env entry_errno c log :
  mpsc_create params env (creation_entry entry_errno) = Ret None c log →
  param_error_handling_enabled params = true
  ∧ (errno c = ENOMEM ∨ errno c = EAGAIN)
  ∧ last log = Some (EvErrno (errno c))
  ∧ env_malloc env ResSelf = MallocOk
  ∧ ¬ grants (param_n_max_producers params) env.
Proof.
  intros Hnull.
  assert (validated_params params) as Hv.
  { revert Hnull. unfold mpsc_create, mpsc_create_params_validate.
    destruct (Z.eqb_spec (param_consumer_callback params) 0); [done |].
    destruct (param_error_handling_enabled params
              && (param_consumer_error_callback params =? 0)) eqn:Hecb;
      [done |].
    destruct (Z.eqb_spec (param_n_max_producers params) 0); [done |].
    intros _. split_and!; try done. intros Hp. rewrite Hp in Hecb.
    by apply Z.eqb_neq in Hecb. }
  pose proof (mpsc_create_post params env entry_errno Hv) as Hpost.
  rewrite Hnull in Hpost.
  destruct (env_malloc env ResSelf); [| by repeat case_match].
  destruct Hpost as (? & ? & ?). split_and!; try done.
  intros Hg. by rewrite (mpsc_create_granted _ _ _ Hv Hg) in Hnull.
Qed.

(** The system on which the consumer thread cannot be started. *)
Lemma create_reports_failure_through_errno_witness :
  ∃ c log,
    mpsc_create example_params no_thread_env (creation_entry 0) = Ret None c log
    ∧ param_error_handling_enabled example_params = true
    ∧ (errno c = ENOMEM ∨ errno c = EAGAIN)
    ∧ last log = Some (EvErrno (errno c))
    ∧ env_malloc no_thread_env ResSelf = MallocOk
    ∧ ¬ grants (param_n_max_producers example_params) no_thread_env.
Proof.
  eexists _, _. split; [vm_compute; reflexivity |].
  eapply (create_reports_failure_through_errno example_params no_thread_env 0).
  vm_compute. reflexivity.
Defined.




(** ** The end of a channel *)












(** ** The producers that have returned *)

(** The record of a producer is marked done only when its thread has
    returned. *)
Lemma run_done_exited tr s a evs s' :
  sys_inv tr s →
  (∀ i, (i < Z.to_nat (producer_count (chan s)))%nat →
        done (producers (chan s) !!! i) = true →
        producer_threads s !! i = Some ProducerExited) →
  run a s = Some (evs, s') →
  ∀ i, (i < Z.to_nat (producer_count (chan s')))%nat →
       done (producers (chan s') !!! i) = true →
       producer_threads s' !! i = Some ProducerExited.
Proof.
  intros Hinv Hdone Hrun. pose proof Hinv as [Hc Hlen Hsleep _].
  pose proof (inv_producer_count _ _ _ _ Hc) as Hcount.
  pose proof (inv_n_max _ _ _ _ Hc) as Hmax.
  pose proof (inv_producers_length _ _ _ _ Hc) as Hpl.
  pose proof size_max_eq as HM.
  destruct a as [caller cb ctx code | | | | | | | id data len | id | | id].
  8: { destruct (run_send _ _ _ _ _ _ _ Hinv Hrun)
         as (r & c' & Hst & Hid & _ & Hsend & ->).
       destruct (mpsc_producer_send_inv _ _ _ _ _ _ _ _ _ _ Hc Hsend)
         as (_ & Hcount' & _).
       assert (producers c' = producers (chan s)) as Hp.
       { destruct (mpsc_producer_send_effect _ _ _ _ _ _ _ _ _ _ Hc Hsend)
           as [_ Heff].
         revert Hsend Heff. clear. intros Hsend Heff.
         destruct r as [[] | id'].
         - destruct Heff as (_ & [(_ & _ & _ & ->) | _]);
             [by destruct (0 <? len) |].
           revert Hsend. rewrite mpsc_producer_send_unfold.
           repeat case_if; try done.
           + rewrite mpsc_producer_subscribe_to_wait_queue_unfold. cbv zeta.
             repeat case_if; try done. rewrite send_wait_loop_unfold.
             repeat case_if; try done.
             rewrite mpsc_shift_producer_wait_queue_unfold.
             repeat case_if; try done. rewrite send_deposit_unfold.
             intros [= <-]. by destruct (0 <? len).
           + rewrite send_deposit_unfold. intros [= <-].
             by destruct (0 <? len).
         - by destruct Heff as (-> & _).
         - by destruct Heff as (_ & _ & _ & _ & _ & _ & _ & ->). }
       cbn [chan producer_threads]. rewrite Hcount', Hp. intros i Hi Hd.
       specialize (Hdone i Hi Hd).
       rewrite list_lookup_insert_ne; [done |]. intros <-. congruence. }
  8: { destruct (run_send_wake _ _ _ _ _ Hinv Hrun)
         as (data & len & r & c' & e & Hst & Hid & Hloop & _ & ->).
       assert (0 ≤ id < n_max_producers (chan s)) as Hrange by lia.
       destruct (send_wait_loop_inv _ _ _ _ _ _ _ _ _ _ Hc Hrange Hloop)
         as (_ & Hcount' & _).
       assert (producers c' = producers (chan s)) as Hp.
       { pose proof (send_wait_loop_effect _ _ _ _ _ _ _ _ _ _ Hc Hrange Hloop)
           as Heff.
         destruct r as [[] | id'].
         - destruct Heff as (_ & _ & _ & _ & q & ->). cbv zeta.
           by destruct (0 <? len).
         - by destruct Heff as (-> & _).
         - by destruct Heff as (_ & -> & _). }
       cbn [chan producer_threads]. rewrite Hcount', Hp. intros i Hi Hd.
       specialize (Hdone i Hi Hd).
       rewrite list_lookup_insert_ne; [done |]. intros <-. congruence. }
  all: try (run_cases Hrun; leaf Hrun; by apply Hdone).
  - (* register *)
    run_cases Hrun; leaf Hrun; try (by apply Hdone); bool_facts.
    + rewrite size_wrap_small by lia. intros i Hi.
      destruct (decide (i = Z.to_nat (producer_count (chan s)))) as [-> | Hne].
      * by rewrite list_lookup_total_insert_eq by lia.
      * rewrite list_lookup_total_insert_ne by done. intros Hd.
        apply lookup_app_l_Some. apply Hdone; [lia | done].
    + intros i Hi. rewrite list_lookup_total_insert_ne by lia. by apply Hdone.
  - (* the producer returns *)
    cbn [run] in Hrun.
    destruct (can_call s (ProducerThread id)) eqn:Hcall; [| done].
    cbn in Hcall. destruct (producer_status s id) as [[| |]|] eqn:Hst; try done.
    apply producer_status_lookup in Hst as (Hid & Hst & Hlt).
    run_cases Hrun; leaf Hrun.
    3: { intros i Hi Hd. specialize (Hdone i Hi Hd).
         rewrite list_lookup_insert_ne; [done |]. intros <-. congruence. }
    all: intros i Hi;
      (destruct (decide (i = Z.to_nat id)) as [-> | Hne];
       [intros _; by apply list_lookup_insert_eq
       | rewrite list_lookup_total_insert_ne by done;
         rewrite list_lookup_insert_ne by done; by apply Hdone]).
Qed.

Lemma execution_done_exited tr s :
  execution tr s →
  ∀ i, (i < Z.to_nat (producer_count (chan s)))%nat →
       done (producers (chan s) !!! i) = true →
       producer_threads s !! i = Some ProducerExited.
Proof.
  induction 1 as [params env e0 c log st Hvalid Hcreate
                 | tr s a evs s' Hexec IH Hrun].
  - apply mpsc_create_returns in Hcreate as ->. cbn. lia.
  - eapply run_done_exited; [by apply execution_inv | done | done].
Qed.

Lemma filter_all_length {A} (P : A → Prop) `{!∀ x, Decision (P x)}
    (l : list A) :
  length (filter P l) = length l → Forall P l.
Proof.
  induction l as [|x l IH]; [by constructor |].
  rewrite filter_cons. destruct (decide (P x)) as [Hx | Hx]; cbn [length].
  - intros [= Hl]. constructor; auto.
  - pose proof (length_filter P l). lia.
Qed.

(** When every registered producer is counted as closed, every producer
    thread has returned. *)
Lemma execution_all_done tr s :
  execution tr s →
  n_producers_closed (chan s) = producer_count (chan s) →
  ∀ i st, producer_threads s !! i = Some st → st = ProducerExited.
Proof.
  intros Hexec Hall i st Hst.
  pose proof (execution_inv _ _ Hexec) as [Hc Hlen _ _].
  pose proof (inv_producer_count _ _ _ _ Hc) as Hcount.
  pose proof (inv_producers_length _ _ _ _ Hc) as Hpl.
  pose proof (lookup_lt_Some _ _ _ Hst) as Hi. rewrite Hlen in Hi.
  rewrite (inv_done_count _ _ _ _ Hc) in Hall. unfold done_count in Hall.
  assert (Forall (λ p, done p = true)
            (take (Z.to_nat (producer_count (chan s))) (producers (chan s))))
    as Hdone.
  { apply (filter_all_length (λ p, done p = true)).
    rewrite length_take. lia. }
  assert (done (producers (chan s) !!! i) = true) as Hd.
  { rewrite <- (lookup_total_take_lt _ (Z.to_nat (producer_count (chan s))))
      by done.
    apply (Forall_lookup_total_1 _ _ _ Hdone). rewrite length_take. lia. }
  pose proof (execution_done_exited _ _ Hexec i Hi Hd). congruence.
Qed.

(** X21.  In every execution, a step that closes an open channel signals
    the main condition variable, and it is either
    [mpsc_consumer_close], or a call of [mpsc_join] or the return of a
    producer after which the channel is joined and every registered
    producer is counted as closed; in the latter case every producer
    thread has returned, so that no producer is left asleep. *)
Theorem channel_closes_only_when_due tr s a evs s' :
  execution tr s →
  closed (chan s) = false →
  run a s = Some (evs, s') →
  closed (chan s') = true →
  EvSignal MainCondVar ∈ evs
  ∧ (a = ActConsumerClose
     ∨ ((∃ tid, a = ActJoin tid) ∨ (∃ id, a = ActProducerReturn id))
       ∧ joined (chan s') = true
       ∧ n_producers_closed (chan s') = producer_count (chan s')
       ∧ ∀ i st, producer_threads s' !! i = Some st → st = ProducerExited).
Proof.
  intros Hexec Hopen H Hclosed.
  pose proof (execution_finished _ _ Hexec) as Hfin.
  unfold consumer_finished in Hfin.
  pose proof (execution_all_done _ _ (exec_step _ _ _ _ _ Hexec H)) as Hall.
  destruct a.
  7: { split; [| by left]. cbn [run] in H.
       destruct (can_call s ConsumerThread); [| done].
       rewrite mpsc_consumer_close_unfold in H. injection H as <- _.
       cbn [app]. apply list_elem_of_further, list_elem_of_here. }
  all: run_cases H; injection H as <- <-; fields_in Hclosed; fields_in Hall;
    fields; try congruence.
  all: try (destruct Hfin; [done | congruence]).
  all: (split; [rewrite !elem_of_cons; by auto |]).
  all: right; bool_facts; fields;
    (split; [by eauto |]); (split; [done |]); (split; [done |]);
    by apply Hall.
Qed.

(** The return of the only producer of [join_schedule], after the join. *)
Lemma channel_closes_only_when_due_witness :
  ∃ evs s',
    run (ActProducerReturn 0) join_system = Some (evs, s')
    ∧ EvSignal MainCondVar ∈ evs
    ∧ (ActProducerReturn 0 = ActConsumerClose
       ∨ ((∃ tid, ActProducerReturn 0 = ActJoin tid)
          ∨ (∃ id, ActProducerReturn 0 = ActProducerReturn id))
         ∧ joined (chan s') = true
         ∧ n_producers_closed (chan s') = producer_count (chan s')
         ∧ ∀ i st, producer_threads s' !! i = Some st → st = ProducerExited).
Proof.
  eexists _, _. split; [vm_compute; reflexivity |].
  eapply (channel_closes_only_when_due join_trace join_system
            (ActProducerReturn 0)).
  - schedule_execution join_schedule.
  - reflexivity.
  - vm_compute. reflexivity.
  - reflexivity.
Defined.
